(** * Vibeboard: game engines, matchmaking and session hub

    A shallow embedding of the server-side core of the vibeboard backend:
    - [Engine]      : [GameStatusInfo], package game
    - [Domino]      : [DominoEngine], backend/internal/game/dominoes.go
    - [Chess]       : [ChessEngine], package game
    - [Matchmaking] : [MatchmakingService], backend/internal/lobby/matchmaking.go
    - [Hub]         : [Hub] and [Client], package websocket

    Conventions.
    - Go [int] is a 64-bit signed integer: it is modelled by [Z]; where a
      sum can leave the 64-bit range the wrap-around is written out
      ([add64]).
    - A Go [float64] is modelled by the integer number of units of 2^-1074
      it holds, and its operations by the exact result rounded to the
      nearest such number with 53 significant bits ([Float64]).
    - A [uuid.UUID] is modelled by the 128-bit number it holds ([N]);
      [uuid.Nil], the zero value of the type, is [0].
    - The engines' entry points start by decoding their two
      [json.RawMessage] arguments with [json.Unmarshal]; [ValidateMove] and
      [ApplyMove] decode the same way, and the model starts from the decoded
      values.  [json.Marshal] cannot fail on the state types.
    - A Go run-time panic (index out of range, nil dereference, send on a
      closed channel) is the [Panic] outcome of [result]; a Go [error]
      value is an [option string], [None] standing for [nil]. *)

From Stdlib Require Import ZArith Lia Bool.
From stdpp Require Import gmap strings list.

Local Open Scope Z_scope.

(** ** Outcomes of Go code *)

Inductive result (A : Type) : Type :=
| Ok (a : A)
| Panic (msg : string).
Arguments Ok {A} a.
Arguments Panic {A} msg.

Definition rbind {A B : Type} (r : result A) (f : A -> result B) : result B :=
  match r with
  | Ok a => f a
  | Panic msg => Panic msg
  end.

Notation "x <~ r ;; k" := (rbind r (fun x => k))
  (at level 100, r at next level, right associativity).

(** A Go [error]: [None] is [nil]. *)
Abbreviation error := (option string).

Definition uuid_Nil : N := 0%N.

(** 64-bit signed wrap-around. *)
Definition wrap64 (z : Z) : Z := (z + 2 ^ 63) mod 2 ^ 64 - 2 ^ 63.
Definition add64 (a b : Z) : Z := wrap64 (a + b).

Definition abs (x : Z) : Z := if x <? 0 then wrap64 (- x) else x.

(** ** Go's [float64]

    Every finite [float64] is an integer multiple of 2^-1074, the smallest
    positive one; the model writes a finite [float64] as that integer, so
    that [one], 2^1074, is 1.0.  An operation returns the exact result
    rounded to the nearest [float64], ties to the even significand
    (IEEE 754 binary64: 53 significant bits, and steps of 2^-1074 below
    2^-1022).  Infinities and NaN are not in the model: the computations
    below stay under 2^64. *)

Module Float64.

Definition one : Z := 2 ^ 1074.

(** The integer nearest to [p / d], the even one of two that are equally
    near; [0 <= p], [0 < d]. *)
Definition rne (p d : Z) : Z :=
  let q := p / d in
  let r := p mod d in
  if 2 * r <? d then q
  else if d <? 2 * r then q + 1
  else if Z.even q then q else q + 1.

(** The binary exponent at which [p / q] units of 2^-1074 are rounded: 0
    for a value of 53 bits or less (steps of 2^-1074), and what leaves 53
    bits for a longer one. *)
Definition exponentOf (p q : Z) : Z := Z.max 0 (Z.log2 (p / q) - 52).

(** The [float64] nearest to [p / q] units of 2^-1074, for [0 <= p] and
    [0 < q]. *)
Definition roundPos (p q : Z) : Z :=
  let k := exponentOf p q in
  rne p (q * 2 ^ k) * 2 ^ k.

Definition round (p q : Z) : Z :=
  if p <? 0 then - roundPos (- p) q else roundPos p q.

(** [float64(z)] *)
Definition ofInt (z : Z) : Z := round (z * one) 1.

(** [x + y] *)
Definition add (x y : Z) : Z := round (x + y) 1.

(** [x / y], for [y] other than zero *)
Definition div (x y : Z) : Z :=
  if y <? 0 then round (- x * one) (- y) else round (x * one) y.

(** [int(x)]: the fraction is dropped (towards zero). *)
Definition toInt (x : Z) : Z := Z.quot x one.

End Float64.

(** ** The engine interface: what [GetGameStatus] answers *)

Module Engine.

(** [GameStatusInfo]; a nil pointer is [None]. *)
Record GameStatusInfo : Type := mkStatus {
  IsGameOver : bool;
  Winner : option N;
  NextPlayer : option N;
  IsDraw : bool
}.

End Engine.

(** ** The domino engine: backend/internal/game/dominoes.go *)

Module Domino.

Record DominoTile : Type := mkTile { Left : Z; Right : Z }.

Record DominoGameState : Type := mkState {
  PlayerHands : gmap N (list DominoTile);
  Board : list DominoTile;
  BoneYard : list DominoTile;
  CurrentTurn : N;
  Player1ID : N;
  Player2ID : N;
  GameEnded : bool;
  Winner : option N
}.

Record DominoMove : Type := mkMove {
  Tile : DominoTile;
  Side : string;
  Pass : bool
}.

#[global] Instance DominoTile_eq_dec : EqDecision DominoTile.
Proof. solve_decision. Defined.

#[global] Instance DominoMove_eq_dec : EqDecision DominoMove.
Proof. solve_decision. Defined.

(** [state.PlayerHands[playerID]]: reading a missing key of a Go map gives
    the zero value, the nil slice. *)
Definition handOf (hands : gmap N (list DominoTile)) (playerID : N) : list DominoTile :=
  default [] (hands !! playerID).

Definition generateDominoSet : list DominoTile :=
  flat_map (fun i => map (fun j => mkTile i j) (seqZ i (7 - i))) (seqZ 0 7).

Definition tileValue (tile : DominoTile) : Z :=
  let value := add64 (Left tile) (Right tile) in
  if Left tile =? Right tile then add64 value 100 else value.

Definition getHighestTileValue (hand : list DominoTile) : Z :=
  foldl (fun maxValue tile =>
           if tileValue tile >? maxValue then tileValue tile else maxValue)
        (-1) hand.

Definition determineStartingPlayer (state : DominoGameState) : N :=
  let p1Max := getHighestTileValue (handOf (PlayerHands state) (Player1ID state)) in
  let p2Max := getHighestTileValue (handOf (PlayerHands state) (Player2ID state)) in
  if p1Max >=? p2Max then Player1ID state else Player2ID state.

(** [m[k] = append(m[k], t)] *)
Definition appendTo (hands : gmap N (list DominoTile)) (k : N) (t : DominoTile)
  : gmap N (list DominoTile) :=
  <[k := handOf hands k ++ [t]]> hands.

(** [shuffledTiles[i]] *)
Definition index (l : list DominoTile) (i : nat) : result DominoTile :=
  match l !! i with
  | Some t => Ok t
  | None => Panic "index out of range"
  end.

(** The dealing loop of [Initialize], [for i := 0; i < 7; i++]. *)
Fixpoint dealLoop (shuffledTiles : list DominoTile) (p1 p2 : N)
    (hands : gmap N (list DominoTile)) (i n : nat)
  : result (gmap N (list DominoTile)) :=
  match n with
  | O => Ok hands
  | S n' =>
      t1 <~ index shuffledTiles i ;;
      let hands := appendTo hands p1 t1 in
      t2 <~ index shuffledTiles (i + 7) ;;
      let hands := appendTo hands p2 t2 in
      dealLoop shuffledTiles p1 p2 hands (S i) n'
  end.

(** [Initialize].  [shuffledTiles] is the slice after [rand.Shuffle]: some
    permutation of [generateDominoSet].  The struct literal leaves
    [Player1ID], [Player2ID] and [CurrentTurn] at their zero value, and
    nothing assigns the two identifiers afterwards. *)
Definition Initialize (shuffledTiles : list DominoTile) : result DominoGameState :=
  if decide (length shuffledTiles < 14)%nat then Panic "slice bounds out of range" else
  let gameState :=
    {| PlayerHands := ∅;
       Board := [];
       BoneYard := drop 14 shuffledTiles;
       CurrentTurn := uuid_Nil;
       Player1ID := uuid_Nil;
       Player2ID := uuid_Nil;
       GameEnded := false;
       Winner := None |} in
  hands <~ dealLoop shuffledTiles (Player1ID gameState) (Player2ID gameState)
             (PlayerHands gameState) 0 7 ;;
  let gameState :=
    {| PlayerHands := hands;
       Board := Board gameState;
       BoneYard := BoneYard gameState;
       CurrentTurn := CurrentTurn gameState;
       Player1ID := Player1ID gameState;
       Player2ID := Player2ID gameState;
       GameEnded := GameEnded gameState;
       Winner := Winner gameState |} in
  let starter := determineStartingPlayer gameState in
  Ok {| PlayerHands := PlayerHands gameState;
        Board := Board gameState;
        BoneYard := BoneYard gameState;
        CurrentTurn := starter;
        Player1ID := Player1ID gameState;
        Player2ID := Player2ID gameState;
        GameEnded := GameEnded gameState;
        Winner := Winner gameState |}.

(** The test both [ValidateMove] and [ApplyMove] use to find the tile of a
    move in a hand: equal in either orientation. *)
Definition sameTile (tile moveTile : DominoTile) : bool :=
  ((Left tile =? Left moveTile) && (Right tile =? Right moveTile))
  || ((Left tile =? Right moveTile) && (Right tile =? Left moveTile)).

(** [board[0].Left] and [board[len(board)-1].Right] *)
Definition leftEndOf (board : list DominoTile) : result Z :=
  match board with
  | t :: _ => Ok (Left t)
  | [] => Panic "index out of range"
  end.

Definition rightEndOf (board : list DominoTile) : result Z :=
  match last board with
  | Some t => Ok (Right t)
  | None => Panic "index out of range"
  end.

Definition canPlayerPlay (state : DominoGameState) (playerID : N) : result bool :=
  if decide (length (Board state) = 0%nat) then Ok true else
  let playerHand := handOf (PlayerHands state) playerID in
  leftEnd <~ leftEndOf (Board state) ;;
  rightEnd <~ rightEndOf (Board state) ;;
  Ok (existsb (fun tile =>
                 (Left tile =? leftEnd) || (Right tile =? leftEnd)
                 || (Left tile =? rightEnd) || (Right tile =? rightEnd))
              playerHand).

Definition validateTilePlacement (board : list DominoTile) (tile : DominoTile)
    (side : string) : result error :=
  if String.eqb side "left" then
    leftEnd <~ leftEndOf board ;;
    if negb (Left tile =? leftEnd) && negb (Right tile =? leftEnd)
    then Ok (Some "tile doesn't match left end of board")
    else Ok None
  else if String.eqb side "right" then
    rightEnd <~ rightEndOf board ;;
    if negb (Left tile =? rightEnd) && negb (Right tile =? rightEnd)
    then Ok (Some "tile doesn't match right end of board")
    else Ok None
  else Ok (Some "invalid side: must be 'left' or 'right'").

Definition ValidateMove (state : DominoGameState) (domMove : DominoMove)
    (playerID : N) : result error :=
  if negb (CurrentTurn state =? playerID)%N then Ok (Some "not player's turn") else
  if GameEnded state then Ok (Some "game has already ended") else
  if Pass domMove then
    canPlay <~ canPlayerPlay state playerID ;;
    if canPlay then Ok (Some "player must play if possible") else Ok None
  else
    let playerHand := handOf (PlayerHands state) playerID in
    let hasTile := existsb (fun tile => sameTile tile (Tile domMove)) playerHand in
    if negb hasTile then Ok (Some "player doesn't have this tile") else
    if decide (length (Board state) = 0%nat) then Ok None else
    validateTilePlacement (Board state) (Tile domMove) (Side domMove).

Definition flipped (tile : DominoTile) : DominoTile :=
  {| Left := Right tile; Right := Left tile |}.

Definition placeTileOnBoard (board : list DominoTile) (tile : DominoTile)
    (side : string) : result (list DominoTile) :=
  if String.eqb side "left" then
    leftEnd <~ leftEndOf board ;;
    if Right tile =? leftEnd then Ok (tile :: board) else Ok (flipped tile :: board)
  else
    rightEnd <~ rightEndOf board ;;
    if Left tile =? rightEnd then Ok (board ++ [tile]) else Ok (board ++ [flipped tile]).

Definition getOtherPlayer (state : DominoGameState) (playerID : N) : N :=
  if (playerID =? Player1ID state)%N then Player2ID state else Player1ID state.

Definition calculateHandScore (hand : list DominoTile) : Z :=
  foldl (fun score tile => add64 score (add64 (Left tile) (Right tile))) 0 hand.

Definition determineWinnerByScore (state : DominoGameState) : option N :=
  let p1Score := calculateHandScore (handOf (PlayerHands state) (Player1ID state)) in
  let p2Score := calculateHandScore (handOf (PlayerHands state) (Player2ID state)) in
  if p1Score <? p2Score then Some (Player1ID state)
  else if p2Score <? p1Score then Some (Player2ID state)
  else None.

(** The removal loop of [ApplyMove]: the hand without the first tile that
    matches the move, or [None] when no tile matches (the loop then ends
    without writing the map). *)
Fixpoint removeTile (playerHand : list DominoTile) (moveTile : DominoTile)
  : option (list DominoTile) :=
  match playerHand with
  | [] => None
  | tile :: rest =>
      if sameTile tile moveTile then Some rest
      else option_map (cons tile) (removeTile rest moveTile)
  end.

Definition setTurn (state : DominoGameState) (turn : N) : DominoGameState :=
  {| PlayerHands := PlayerHands state; Board := Board state; BoneYard := BoneYard state;
     CurrentTurn := turn; Player1ID := Player1ID state; Player2ID := Player2ID state;
     GameEnded := GameEnded state; Winner := Winner state |}.

Definition setHands (state : DominoGameState) (hands : gmap N (list DominoTile))
  : DominoGameState :=
  {| PlayerHands := hands; Board := Board state; BoneYard := BoneYard state;
     CurrentTurn := CurrentTurn state; Player1ID := Player1ID state;
     Player2ID := Player2ID state; GameEnded := GameEnded state; Winner := Winner state |}.

Definition setBoard (state : DominoGameState) (board : list DominoTile) : DominoGameState :=
  {| PlayerHands := PlayerHands state; Board := board; BoneYard := BoneYard state;
     CurrentTurn := CurrentTurn state; Player1ID := Player1ID state;
     Player2ID := Player2ID state; GameEnded := GameEnded state; Winner := Winner state |}.

Definition endGame (state : DominoGameState) (winner : option N) : DominoGameState :=
  {| PlayerHands := PlayerHands state; Board := Board state; BoneYard := BoneYard state;
     CurrentTurn := CurrentTurn state; Player1ID := Player1ID state;
     Player2ID := Player2ID state; GameEnded := true; Winner := winner |}.

Definition ApplyMove (state : DominoGameState) (domMove : DominoMove) (playerID : N)
  : result DominoGameState :=
  if Pass domMove then
    let state := setTurn state (getOtherPlayer state playerID) in
    canPlay <~ canPlayerPlay state (CurrentTurn state) ;;
    if negb canPlay then Ok (endGame state (determineWinnerByScore state))
    else Ok state
  else
    let playerHand := handOf (PlayerHands state) playerID in
    let state :=
      match removeTile playerHand (Tile domMove) with
      | Some hand' => setHands state (<[playerID := hand']> (PlayerHands state))
      | None => state
      end in
    board <~ (if decide (length (Board state) = 0%nat)
              then Ok (Board state ++ [Tile domMove])
              else placeTileOnBoard (Board state) (Tile domMove) (Side domMove)) ;;
    let state := setBoard state board in
    if decide (length (handOf (PlayerHands state) playerID) = 0%nat)
    then Ok (endGame state (Some playerID))
    else Ok (setTurn state (getOtherPlayer state playerID)).

(** The loop [for _, tile := range playerHand] of [GetPossibleMoves] on a
    board that is not empty. *)
Fixpoint tryTiles (board : list DominoTile) (playerHand : list DominoTile)
    (possibleMoves : list DominoMove) : result (list DominoMove) :=
  match playerHand with
  | [] => Ok possibleMoves
  | tile :: rest =>
      (* Try left side *)
      l <~ validateTilePlacement board tile "left" ;;
      let possibleMoves :=
        if l is None
        then possibleMoves ++ [ {| Tile := tile; Side := "left"; Pass := false |} ]
        else possibleMoves in
      (* Try right side *)
      r <~ validateTilePlacement board tile "right" ;;
      let possibleMoves :=
        if r is None
        then possibleMoves ++ [ {| Tile := tile; Side := "right"; Pass := false |} ]
        else possibleMoves in
      tryTiles board rest possibleMoves
  end.

(** [DominoMove{Pass: true}] *)
Definition passMove : DominoMove :=
  {| Tile := {| Left := 0; Right := 0 |}; Side := ""; Pass := true |}.

Definition GetPossibleMoves (state : DominoGameState) (playerID : N)
  : result (list DominoMove) :=
  let playerHand := handOf (PlayerHands state) playerID in
  (* If board is empty, any tile can be played *)
  if decide (length (Board state) = 0%nat) then
    Ok (map (fun tile => {| Tile := tile; Side := "left"; Pass := false |}) playerHand)
  else
    possibleMoves <~ tryTiles (Board state) playerHand [] ;;
    (* If no moves possible, add pass option *)
    if decide (length possibleMoves = 0%nat)
    then Ok (possibleMoves ++ [passMove])
    else Ok possibleMoves.

(** The quantity of the tile-conservation invariant. *)
Definition tileCount (state : DominoGameState) : nat :=
  (length (handOf (PlayerHands state) (Player1ID state))
   + length (handOf (PlayerHands state) (Player2ID state))
   + length (Board state) + length (BoneYard state))%nat.


(** A game in progress: the board shows 6|3; player 1, to move, holds 3|3
    and 1|2; player 2 holds 3|5. *)
Definition midGame : DominoGameState :=
  {| PlayerHands := <[1%N := [mkTile 3 3; mkTile 1 2]]> (<[2%N := [mkTile 3 5]]> ∅);
     Board := [mkTile 6 3];
     BoneYard := [];
     CurrentTurn := 1%N;
     Player1ID := 1%N;
     Player2ID := 2%N;
     GameEnded := false;
     Winner := None |}.

Definition playDoubleThree : DominoMove :=
  {| Tile := mkTile 3 3; Side := "right"; Pass := false |}.


(** *** The status of a game, the deal, the chain of the board *)

Definition GetGameStatus (state : DominoGameState) : Engine.GameStatusInfo :=
  {| Engine.IsGameOver := GameEnded state;
     Engine.Winner := Winner state;
     Engine.NextPlayer := Some (CurrentTurn state);
     Engine.IsDraw := GameEnded state && bool_decide (Winner state = None) |}.

(** Two slices dealt in turn: the first of [a], the first of [b], the
    second of [a], and so on. *)
Fixpoint interleave (a b : list DominoTile) : list DominoTile :=
  match a, b with
  | x :: a', y :: b' => x :: y :: interleave a' b'
  | _, _ => []
  end.

(** Each tile of the board shows to its right neighbour the number that
    neighbour shows to it. *)
Fixpoint chained (board : list DominoTile) : Prop :=
  match board with
  | a :: (b :: _) as rest => Right a = Left b ∧ chained rest
  | _ => True
  end.
(** A blocked position for the player to move: the board shows 6|3, player
    1 holds 1|2 and player 2 holds 3|5. *)
Definition blockedGame : DominoGameState :=
  {| PlayerHands := <[1%N := [mkTile 1 2]]> (<[2%N := [mkTile 3 5]]> ∅);
     Board := [mkTile 6 3];
     BoneYard := [];
     CurrentTurn := 1%N;
     Player1ID := 1%N;
     Player2ID := 2%N;
     GameEnded := false;
     Winner := None |}.

End Domino.

(** ** The chess engine (package game)

    The board is the Go array [[8][8]*ChessPiece]: a total map from the 64
    cells to an optional piece; reading or writing it at an index outside
    0..7 panics ([cell], [setCell]).  After [json.Unmarshal] every non-nil
    cell points to a piece of its own, so no two cells share a piece.  The
    piece rules subtract and add coordinates that their caller
    ([validateChessMove]) has already checked to be in 0..7, so none of those
    operations leaves the 64-bit range. *)

Module Chess.

Record ChessPiece : Type := mkPiece {
  Type_ : string;   (* "pawn", "rook", "knight", "bishop", "queen", "king" *)
  Color : string    (* "white", "black" *)
}.

Record ChessPosition : Type := mkPos { Row : Z; Col : Z }.

Record ChessGameState : Type := mkState {
  Board : Z -> Z -> option ChessPiece;
  CurrentTurn : string;
  Player1ID : N;
  Player2ID : N;
  WhitePlayer : N;
  BlackPlayer : N;
  GameEnded : bool;
  Winner : option N;
  Check : bool;
  Checkmate : bool;
  Stalemate : bool;
  WhiteKingSideCastle : bool;
  WhiteQueenSideCastle : bool;
  BlackKingSideCastle : bool;
  BlackQueenSideCastle : bool;
  EnPassantTarget : option ChessPosition;
  MoveCount : Z
}.

Record ChessMove : Type := mkMove {
  From : ChessPosition;
  To : ChessPosition;
  Promotion : string;
  Castling : string
}.

#[global] Instance ChessPosition_eq_dec : EqDecision ChessPosition.
Proof. solve_decision. Defined.

#[global] Instance ChessMove_eq_dec : EqDecision ChessMove.
Proof. solve_decision. Defined.

Definition isValidPosition (pos : ChessPosition) : bool :=
  (Row pos >=? 0) && (Row pos <? 8) && (Col pos >=? 0) && (Col pos <? 8).

(** [state.Board[row][col]] *)
Definition cell (board : Z -> Z -> option ChessPiece) (row col : Z)
  : result (option ChessPiece) :=
  if isValidPosition (mkPos row col) then Ok (board row col)
  else Panic "index out of range".

(** [state.Board[row][col] = piece] *)
Definition setCell (board : Z -> Z -> option ChessPiece) (row col : Z)
    (piece : option ChessPiece) : result (Z -> Z -> option ChessPiece) :=
  if isValidPosition (mkPos row col)
  then Ok (fun r c => if (r =? row) && (c =? col) then piece else board r c)
  else Panic "index out of range".

Definition isNil (p : option ChessPiece) : bool :=
  match p with None => true | Some _ => false end.

Definition pieceOrder : list string :=
  ["rook"; "knight"; "bishop"; "queen"; "king"; "bishop"; "knight"; "rook"].

Definition setupInitialBoard : Z -> Z -> option ChessPiece :=
  fun r c =>
    if negb (isValidPosition (mkPos r c)) then None
    else if r =? 0 then option_map (fun t => mkPiece t "black") (pieceOrder !! Z.to_nat c)
    else if r =? 7 then option_map (fun t => mkPiece t "white") (pieceOrder !! Z.to_nat c)
    else if r =? 1 then Some (mkPiece "pawn" "black")
    else if r =? 6 then Some (mkPiece "pawn" "white")
    else None.

Definition Initialize : ChessGameState :=
  {| Board := setupInitialBoard;
     CurrentTurn := "white";
     Player1ID := uuid_Nil; Player2ID := uuid_Nil;
     WhitePlayer := uuid_Nil; BlackPlayer := uuid_Nil;
     GameEnded := false; Winner := None;
     Check := false; Checkmate := false; Stalemate := false;
     WhiteKingSideCastle := true; WhiteQueenSideCastle := true;
     BlackKingSideCastle := true; BlackQueenSideCastle := true;
     EnPassantTarget := None;
     MoveCount := 0 |}.

Definition getPlayerColor (state : ChessGameState) (playerID : N) : string :=
  if (playerID =? WhitePlayer state)%N then "white" else "black".

Definition validatePawnMove (state : ChessGameState) (move : ChessMove) (color : string)
  : result error :=
  let direction := if String.eqb color "black" then -1 else 1 in
  let startRow := if String.eqb color "black" then 1 else 6 in
  let rowDiff := Row (To move) - Row (From move) in
  let colDiff := Col (To move) - Col (From move) in
  (* Forward move *)
  fwd <~ (if colDiff =? 0 then
            one <~ (if rowDiff =? direction then
                      t <~ cell (Board state) (Row (To move)) (Col (To move)) ;;
                      Ok (isNil t)
                    else Ok false) ;;
            if one then Ok true else
            if (rowDiff =? 2 * direction) && (Row (From move) =? startRow) then
              t <~ cell (Board state) (Row (To move)) (Col (To move)) ;;
              if isNil t then
                mid <~ cell (Board state) (Row (From move) + direction) (Col (From move)) ;;
                Ok (isNil mid)
              else Ok false
            else Ok false
          else Ok false) ;;
  if fwd then Ok None else
  (* Diagonal capture *)
  diag <~ (if (abs colDiff =? 1) && (rowDiff =? direction) then
             targetPiece <~ cell (Board state) (Row (To move)) (Col (To move)) ;;
             if match targetPiece with
                | Some tp => negb (String.eqb (Color tp) color)
                | None => false
                end
             then Ok true
             else
               (* En passant *)
               Ok match EnPassantTarget state with
                  | Some ep => (Row (To move) =? Row ep) && (Col (To move) =? Col ep)
                  | None => false
                  end
           else Ok false) ;;
  if diag then Ok None else Ok (Some "invalid pawn move").

(** The loop of [checkPathClear].  Every iteration reads the board at the
    current cell, which panics outside the board, so from any start the
    loop makes at most 8 reads before it returns or panics: 9 units of
    [fuel] are never used up. *)
Fixpoint pathLoop (board : Z -> Z -> option ChessPiece) (rowDir colDir : Z)
    (to : ChessPosition) (fuel : nat) (currentRow currentCol : Z) : result error :=
  if negb (currentRow =? Row to) || negb (currentCol =? Col to) then
    match fuel with
    | O => Panic "index out of range"
    | S fuel' =>
        c <~ cell board currentRow currentCol ;;
        if negb (isNil c) then Ok (Some "path is blocked")
        else pathLoop board rowDir colDir to fuel' (currentRow + rowDir) (currentCol + colDir)
    end
  else Ok None.

Definition checkPathClear (state : ChessGameState) (from to : ChessPosition)
  : result error :=
  let rowDir := if Row to >? Row from then 1 else if Row to <? Row from then -1 else 0 in
  let colDir := if Col to >? Col from then 1 else if Col to <? Col from then -1 else 0 in
  pathLoop (Board state) rowDir colDir to 9 (Row from + rowDir) (Col from + colDir).

Definition validateRookMove (state : ChessGameState) (move : ChessMove) : result error :=
  if negb (Row (From move) =? Row (To move)) && negb (Col (From move) =? Col (To move))
  then Ok (Some "rook must move in straight line")
  else checkPathClear state (From move) (To move).

Definition validateKnightMove (move : ChessMove) : result error :=
  let rowDiff := abs (Row (To move) - Row (From move)) in
  let colDiff := abs (Col (To move) - Col (From move)) in
  if ((rowDiff =? 2) && (colDiff =? 1)) || ((rowDiff =? 1) && (colDiff =? 2))
  then Ok None
  else Ok (Some "invalid knight move").

Definition validateBishopMove (state : ChessGameState) (move : ChessMove) : result error :=
  let rowDiff := abs (Row (To move) - Row (From move)) in
  let colDiff := abs (Col (To move) - Col (From move)) in
  if negb (rowDiff =? colDiff) then Ok (Some "bishop must move diagonally")
  else checkPathClear state (From move) (To move).

Definition validateQueenMove (state : ChessGameState) (move : ChessMove) : result error :=
  r <~ validateRookMove state move ;;
  if r is None then Ok None else
  b <~ validateBishopMove state move ;;
  if b is None then Ok None else Ok (Some "invalid queen move").

Definition validateKingMove (move : ChessMove) : result error :=
  let rowDiff := abs (Row (To move) - Row (From move)) in
  let colDiff := abs (Col (To move) - Col (From move)) in
  if (rowDiff <=? 1) && (colDiff <=? 1) && (negb (rowDiff =? 0) || negb (colDiff =? 0))
  then Ok None
  else Ok (Some "invalid king move").

Definition validatePieceMove (state : ChessGameState) (move : ChessMove)
    (piece : ChessPiece) : result error :=
  if String.eqb (Type_ piece) "pawn" then validatePawnMove state move (Color piece)
  else if String.eqb (Type_ piece) "rook" then validateRookMove state move
  else if String.eqb (Type_ piece) "knight" then validateKnightMove move
  else if String.eqb (Type_ piece) "bishop" then validateBishopMove state move
  else if String.eqb (Type_ piece) "queen" then validateQueenMove state move
  else if String.eqb (Type_ piece) "king" then validateKingMove move
  else Ok (Some "unknown piece type").

Definition validateChessMove (state : ChessGameState) (move : ChessMove)
    (playerColor : string) : result error :=
  if negb (isValidPosition (From move)) || negb (isValidPosition (To move))
  then Ok (Some "invalid position") else
  fromPiece <~ cell (Board state) (Row (From move)) (Col (From move)) ;;
  match fromPiece with
  | None => Ok (Some "no piece at source position")
  | Some fromPiece =>
      if negb (String.eqb (Color fromPiece) playerColor)
      then Ok (Some "cannot move opponent's piece") else
      toPiece <~ cell (Board state) (Row (To move)) (Col (To move)) ;;
      if match toPiece with
         | Some tp => String.eqb (Color tp) playerColor
         | None => false
         end
      then Ok (Some "cannot capture own piece")
      else validatePieceMove state move fromPiece
  end.

Definition ValidateMove (state : ChessGameState) (chessMove : ChessMove) (playerID : N)
  : result error :=
  let playerColor := getPlayerColor state playerID in
  if negb (String.eqb playerColor (CurrentTurn state)) then Ok (Some "not player's turn") else
  if GameEnded state then Ok (Some "game has already ended") else
  validateChessMove state chessMove playerColor.

Definition setType (piece : ChessPiece) (t : string) : ChessPiece :=
  {| Type_ := t; Color := Color piece |}.

(** The fields [applyChessMove] writes. *)
Definition withBoard (state : ChessGameState) (board : Z -> Z -> option ChessPiece)
    (enPassant : option ChessPosition) (wk wq bk bq : bool) : ChessGameState :=
  {| Board := board;
     CurrentTurn := CurrentTurn state;
     Player1ID := Player1ID state; Player2ID := Player2ID state;
     WhitePlayer := WhitePlayer state; BlackPlayer := BlackPlayer state;
     GameEnded := GameEnded state; Winner := Winner state;
     Check := Check state; Checkmate := Checkmate state; Stalemate := Stalemate state;
     WhiteKingSideCastle := wk; WhiteQueenSideCastle := wq;
     BlackKingSideCastle := bk; BlackQueenSideCastle := bq;
     EnPassantTarget := enPassant;
     MoveCount := MoveCount state |}.

(** [applyChessMove].  [piece] is a pointer: the promotion writes through
    it, and the cell at [To] holds that pointer (unless the write of nil at
    [From] has just overwritten it, when the two cells are the same). *)
Definition applyChessMove (state : ChessGameState) (move : ChessMove)
    (playerColor : string) : result ChessGameState :=
  (* Move the piece *)
  piece <~ cell (Board state) (Row (From move)) (Col (From move)) ;;
  board <~ setCell (Board state) (Row (To move)) (Col (To move)) piece ;;
  board <~ setCell board (Row (From move)) (Col (From move)) None ;;
  match piece with
  | None => Panic "nil pointer dereference"
  | Some piece0 =>
      (* Handle pawn promotion *)
      let piece :=
        if String.eqb (Type_ piece0) "pawn"
           && ((Row (To move) =? 0) || (Row (To move) =? 7))
        then
          if negb (String.eqb (Promotion move) "")
          then setType piece0 (Promotion move)
          else setType piece0 "queen"
        else piece0 in
      let board : Z -> Z -> option ChessPiece :=
        fun r c => match board r c with
                   | Some _ =>
                       if (r =? Row (To move)) && (c =? Col (To move))
                       then Some piece else board r c
                   | None => None
                   end in
      (* Handle en passant target *)
      let enPassant :=
        if String.eqb (Type_ piece) "pawn"
           && (abs (Row (To move) - Row (From move)) =? 2)
        then Some {| Row := Z.quot (Row (From move) + Row (To move)) 2;
                     Col := Col (From move) |}
        else None in
      (* Update castling rights *)
      let isKing := String.eqb (Type_ piece) "king" in
      let white := String.eqb playerColor "white" in
      let wk := if isKing && white then false else WhiteKingSideCastle state in
      let wq := if isKing && white then false else WhiteQueenSideCastle state in
      let bk := if isKing && negb white then false else BlackKingSideCastle state in
      let bq := if isKing && negb white then false else BlackQueenSideCastle state in
      let isRook := String.eqb (Type_ piece) "rook" in
      let fr := Row (From move) in
      let fc := Col (From move) in
      let bq := if isRook && (fr =? 0) && (fc =? 0) then false else bq in
      let bk := if isRook && (fr =? 0) && (fc =? 7) then false else bk in
      let wq := if isRook && (fr =? 7) && (fc =? 0) then false else wq in
      let wk := if isRook && (fr =? 7) && (fc =? 7) then false else wk in
      Ok (withBoard state board enPassant wk wq bk bq)
  end.

(** The 64 cells in the order of the loops [for row ... for col ...]. *)
Definition cells : list (Z * Z) :=
  flat_map (fun row => map (fun col => (row, col)) (seqZ 0 8)) (seqZ 0 8).

Definition kingExists (board : Z -> Z -> option ChessPiece) (white : bool) : bool :=
  existsb (fun rc =>
             match board rc.1 rc.2 with
             | Some piece =>
                 String.eqb (Type_ piece) "king"
                 && (if white then String.eqb (Color piece) "white"
                     else negb (String.eqb (Color piece) "white"))
             | None => false
             end) cells.

Definition updateGameStatus (state : ChessGameState) : ChessGameState :=
  let whiteKingExists := kingExists (Board state) true in
  let blackKingExists := kingExists (Board state) false in
  let ended (winner : N) :=
    {| Board := Board state;
       CurrentTurn := CurrentTurn state;
       Player1ID := Player1ID state; Player2ID := Player2ID state;
       WhitePlayer := WhitePlayer state; BlackPlayer := BlackPlayer state;
       GameEnded := true; Winner := Some winner;
       Check := Check state; Checkmate := Checkmate state; Stalemate := Stalemate state;
       WhiteKingSideCastle := WhiteKingSideCastle state;
       WhiteQueenSideCastle := WhiteQueenSideCastle state;
       BlackKingSideCastle := BlackKingSideCastle state;
       BlackQueenSideCastle := BlackQueenSideCastle state;
       EnPassantTarget := EnPassantTarget state;
       MoveCount := MoveCount state |} in
  if negb whiteKingExists then ended (BlackPlayer state)
  else if negb blackKingExists then ended (WhitePlayer state)
  else state.

(** Switch turns and count the move. *)
Definition nextTurn (state : ChessGameState) : ChessGameState :=
  {| Board := Board state;
     CurrentTurn := if String.eqb (CurrentTurn state) "white" then "black" else "white";
     Player1ID := Player1ID state; Player2ID := Player2ID state;
     WhitePlayer := WhitePlayer state; BlackPlayer := BlackPlayer state;
     GameEnded := GameEnded state; Winner := Winner state;
     Check := Check state; Checkmate := Checkmate state; Stalemate := Stalemate state;
     WhiteKingSideCastle := WhiteKingSideCastle state;
     WhiteQueenSideCastle := WhiteQueenSideCastle state;
     BlackKingSideCastle := BlackKingSideCastle state;
     BlackQueenSideCastle := BlackQueenSideCastle state;
     EnPassantTarget := EnPassantTarget state;
     MoveCount := add64 (MoveCount state) 1 |}.

Definition ApplyMove (state : ChessGameState) (chessMove : ChessMove) (playerID : N)
  : result ChessGameState :=
  let playerColor := getPlayerColor state playerID in
  state <~ applyChessMove state chessMove playerColor ;;
  Ok (updateGameStatus (nextTurn state)).

(** *** Move enumeration *)

Definition basicMove (from : ChessPosition) (row col : Z) : ChessMove :=
  {| From := from; To := {| Row := row; Col := col |}; Promotion := ""; Castling := "" |}.

Definition generatePawnMoves (state : ChessGameState) (pos : ChessPosition)
    (color : string) : list ChessMove :=
  let direction := if String.eqb color "black" then -1 else 1 in
  let newRow := Row pos + direction in
  (if isValidPosition (mkPos newRow (Col pos)) then [basicMove pos newRow (Col pos)] else [])
  ++ flat_map (fun colOffset =>
                 let newCol := Col pos + colOffset in
                 if isValidPosition (mkPos newRow newCol)
                 then [basicMove pos newRow newCol] else [])
       [-1; 1].

(** The inner loop [for i := 1; i < 8; i++] of the sliding pieces, with its
    [break] at the first cell off the board. *)
Fixpoint slide (pos : ChessPosition) (dr dc : Z) (i : Z) (n : nat) : list ChessMove :=
  match n with
  | O => []
  | S n' =>
      let newRow := Row pos + dr * i in
      let newCol := Col pos + dc * i in
      if negb (isValidPosition (mkPos newRow newCol)) then []
      else basicMove pos newRow newCol :: slide pos dr dc (i + 1) n'
  end.

Definition generateRookMoves (pos : ChessPosition) : list ChessMove :=
  flat_map (fun dir => slide pos dir.1 dir.2 1 7) [(0, 1); (0, -1); (1, 0); (-1, 0)].

Definition generateBishopMoves (pos : ChessPosition) : list ChessMove :=
  flat_map (fun dir => slide pos dir.1 dir.2 1 7) [(1, 1); (1, -1); (-1, 1); (-1, -1)].

Definition generateQueenMoves (pos : ChessPosition) : list ChessMove :=
  generateRookMoves pos ++ generateBishopMoves pos.

Definition step (pos : ChessPosition) (offsets : list (Z * Z)) : list ChessMove :=
  flat_map (fun d =>
              let newRow := Row pos + d.1 in
              let newCol := Col pos + d.2 in
              if isValidPosition (mkPos newRow newCol)
              then [basicMove pos newRow newCol] else [])
           offsets.

Definition generateKnightMoves (pos : ChessPosition) : list ChessMove :=
  step pos [(2, 1); (2, -1); (-2, 1); (-2, -1); (1, 2); (1, -2); (-1, 2); (-1, -2)].

Definition generateKingMoves (pos : ChessPosition) : list ChessMove :=
  step pos [(0, 1); (0, -1); (1, 0); (-1, 0); (1, 1); (1, -1); (-1, 1); (-1, -1)].

Definition generatePieceMoves (state : ChessGameState) (pos : ChessPosition)
  : result (list ChessMove) :=
  piece <~ cell (Board state) (Row pos) (Col pos) ;;
  match piece with
  | None => Panic "nil pointer dereference"
  | Some piece =>
      Ok (if String.eqb (Type_ piece) "pawn" then generatePawnMoves state pos (Color piece)
          else if String.eqb (Type_ piece) "rook" then generateRookMoves pos
          else if String.eqb (Type_ piece) "knight" then generateKnightMoves pos
          else if String.eqb (Type_ piece) "bishop" then generateBishopMoves pos
          else if String.eqb (Type_ piece) "queen" then generateQueenMoves pos
          else if String.eqb (Type_ piece) "king" then generateKingMoves pos
          else [])
  end.

(** [for _, move := range moves { if validateChessMove(...) == nil { append } }] *)
Fixpoint keepValid (state : ChessGameState) (playerColor : string)
    (moves : list ChessMove) (possibleMoves : list ChessMove) : result (list ChessMove) :=
  match moves with
  | [] => Ok possibleMoves
  | move :: rest =>
      e <~ validateChessMove state move playerColor ;;
      keepValid state playerColor rest
        (if e is None then possibleMoves ++ [move] else possibleMoves)
  end.

(** The two nested loops of [GetPossibleMoves] over the board. *)
Fixpoint scanBoard (state : ChessGameState) (playerColor : string)
    (todo : list (Z * Z)) (possibleMoves : list ChessMove) : result (list ChessMove) :=
  match todo with
  | [] => Ok possibleMoves
  | (row, col) :: rest =>
      piece <~ cell (Board state) row col ;;
      possibleMoves <~
        (match piece with
         | Some p =>
             if String.eqb (Color p) playerColor then
               moves <~ generatePieceMoves state {| Row := row; Col := col |} ;;
               keepValid state playerColor moves possibleMoves
             else Ok possibleMoves
         | None => Ok possibleMoves
         end) ;;
      scanBoard state playerColor rest possibleMoves
  end.

Definition GetPossibleMoves (state : ChessGameState) (playerID : N)
  : result (list ChessMove) :=
  let playerColor := getPlayerColor state playerID in
  scanBoard state playerColor cells [].

(** The number of non-null cells of the board. *)
Definition pieceCount (board : Z -> Z -> option ChessPiece) : Z :=
  foldr (fun rc n => (if isNil (board rc.1 rc.2) then 0 else 1) + n) 0 cells.


(** *** Notions the statements about the engine use *)

Definition onBoard (pos : ChessPosition) : Prop :=
  0 <= Row pos < 8 ∧ 0 <= Col pos < 8.

Definition indicator (p : option ChessPiece) : Z := if isNil p then 0 else 1.

(** The part of each piece rule that does not look at the board. *)
Definition pawnRule (color : string) (from to : ChessPosition) : bool :=
  (Row to - Row from =? (if String.eqb color "black" then -1 else 1))
  && (Z.abs (Col to - Col from) <=? 1).

Definition rookRule (from to : ChessPosition) : bool :=
  (Row from =? Row to) || (Col from =? Col to).

Definition knightRule (from to : ChessPosition) : bool :=
  ((Z.abs (Row to - Row from) =? 2) && (Z.abs (Col to - Col from) =? 1))
  || ((Z.abs (Row to - Row from) =? 1) && (Z.abs (Col to - Col from) =? 2)).

Definition bishopRule (from to : ChessPosition) : bool :=
  Z.abs (Row to - Row from) =? Z.abs (Col to - Col from).

Definition kingRule (from to : ChessPosition) : bool :=
  (Z.abs (Row to - Row from) <=? 1) && (Z.abs (Col to - Col from) <=? 1).

Definition samePosition (from to : ChessPosition) : bool :=
  (Row from =? Row to) && (Col from =? Col to).

(** [gen] lists every cell other than [from] that [rule] allows. *)
Definition covers (rule : ChessPosition → ChessPosition → bool)
    (gen : ChessPosition → list ChessMove) (from to : ChessPosition) : bool :=
  implb (rule from to && negb (samePosition from to))
        (bool_decide (basicMove from (Row to) (Col to) ∈ gen from)).

(** A position with a white pawn one step from the last rank of its
    direction of travel: kings on e1 and e8, the pawn on (6, 0). *)
Definition promotionBoard : Z → Z → option ChessPiece :=
  fun row col =>
    if (row =? 7) && (col =? 4) then Some (mkPiece "king" "white")
    else if (row =? 0) && (col =? 4) then Some (mkPiece "king" "black")
    else if (row =? 6) && (col =? 0) then Some (mkPiece "pawn" "white")
    else None.

Definition promotionState : ChessGameState :=
  {| Board := promotionBoard;
     CurrentTurn := "white";
     Player1ID := 1%N; Player2ID := 2%N;
     WhitePlayer := 1%N; BlackPlayer := 2%N;
     GameEnded := false; Winner := None;
     Check := false; Checkmate := false; Stalemate := false;
     WhiteKingSideCastle := false; WhiteQueenSideCastle := false;
     BlackKingSideCastle := false; BlackQueenSideCastle := false;
     EnPassantTarget := None;
     MoveCount := 40 |}.

Definition knightPromotion : ChessMove :=
  {| From := mkPos 6 0; To := mkPos 7 0; Promotion := "knight"; Castling := "" |}.

(** The same position with black to move, a step of the black king, and an
    identifier that belongs to neither player. *)
Definition blackToMove : ChessGameState :=
  {| Board := promotionBoard;
     CurrentTurn := "black";
     Player1ID := 1%N; Player2ID := 2%N;
     WhitePlayer := 1%N; BlackPlayer := 2%N;
     GameEnded := false; Winner := None;
     Check := false; Checkmate := false; Stalemate := false;
     WhiteKingSideCastle := false; WhiteQueenSideCastle := false;
     BlackKingSideCastle := false; BlackQueenSideCastle := false;
     EnPassantTarget := None;
     MoveCount := 41 |}.

Definition kingStep : ChessMove :=
  {| From := mkPos 0 4; To := mkPos 1 4; Promotion := ""; Castling := "" |}.

Definition outsider : N := 9.

(** A white rook on (4, 0) that can take the black knight on (4, 5). *)
Definition captureBoard : Z → Z → option ChessPiece :=
  fun row col =>
    if (row =? 7) && (col =? 4) then Some (mkPiece "king" "white")
    else if (row =? 0) && (col =? 4) then Some (mkPiece "king" "black")
    else if (row =? 4) && (col =? 0) then Some (mkPiece "rook" "white")
    else if (row =? 4) && (col =? 5) then Some (mkPiece "knight" "black")
    else None.

Definition captureState : ChessGameState :=
  {| Board := captureBoard;
     CurrentTurn := "white";
     Player1ID := 1%N; Player2ID := 2%N;
     WhitePlayer := 1%N; BlackPlayer := 2%N;
     GameEnded := false; Winner := None;
     Check := false; Checkmate := false; Stalemate := false;
     WhiteKingSideCastle := false; WhiteQueenSideCastle := false;
     BlackKingSideCastle := false; BlackQueenSideCastle := false;
     EnPassantTarget := None;
     MoveCount := 60 |}.

Definition rookTakes : ChessMove :=
  {| From := mkPos 4 0; To := mkPos 4 5; Promotion := ""; Castling := "" |}.

(** An en-passant position: a white pawn on (3, 3), beside it on (3, 4) a
    black pawn, the cell (4, 4) behind that pawn as en-passant target, and
    the two kings. *)
Definition enPassantBoard : Z → Z → option ChessPiece :=
  fun row col =>
    if (row =? 7) && (col =? 4) then Some (mkPiece "king" "white")
    else if (row =? 0) && (col =? 4) then Some (mkPiece "king" "black")
    else if (row =? 3) && (col =? 3) then Some (mkPiece "pawn" "white")
    else if (row =? 3) && (col =? 4) then Some (mkPiece "pawn" "black")
    else None.

Definition enPassantState : ChessGameState :=
  {| Board := enPassantBoard;
     CurrentTurn := "white";
     Player1ID := 1%N; Player2ID := 2%N;
     WhitePlayer := 1%N; BlackPlayer := 2%N;
     GameEnded := false; Winner := None;
     Check := false; Checkmate := false; Stalemate := false;
     WhiteKingSideCastle := false; WhiteQueenSideCastle := false;
     BlackKingSideCastle := false; BlackQueenSideCastle := false;
     EnPassantTarget := Some (mkPos 4 4);
     MoveCount := 30 |}.

Definition enPassantCapture : ChessMove :=
  {| From := mkPos 3 3; To := mkPos 4 4; Promotion := ""; Castling := "" |}.

(** *** The status of a game, the piece that arrives *)

Definition GetGameStatus (state : ChessGameState) : Engine.GameStatusInfo :=
  let nextPlayer :=
    if negb (GameEnded state) then
      if String.eqb (CurrentTurn state) "white" then Some (WhitePlayer state)
      else Some (BlackPlayer state)
    else None in
  {| Engine.IsGameOver := GameEnded state;
     Engine.Winner := Winner state;
     Engine.NextPlayer := nextPlayer;
     Engine.IsDraw := GameEnded state && bool_decide (Winner state = None) |}.

(** The piece [applyChessMove] leaves on the destination: a pawn that
    arrives on row 0 or row 7 has the type the move asks for, a queen when
    it asks for none. *)
Definition arrives (piece : ChessPiece) (move : ChessMove) : ChessPiece :=
  if String.eqb (Type_ piece) "pawn" && ((Row (To move) =? 0) || (Row (To move) =? 7))
  then if negb (String.eqb (Promotion move) "")
       then setType piece (Promotion move) else setType piece "queen"
  else piece.
(** A move as the generators build it for the piece on [pos]. *)
Definition plain (pos : ChessPosition) (move : ChessMove) : Prop :=
  From move = pos ∧ Promotion move = "" ∧ Castling move = "".

End Chess.

(** ** Matchmaking: backend/internal/lobby/matchmaking.go

    Instants and durations are counted in nanoseconds, as [time.Time] and
    [time.Duration] do.  Redis and the database are taken to be reachable
    (their calls do not fail), and the clock reads and Redis calls of one
    service call happen at one instant [now].  A key written by [SET] with
    a time to live is gone once that time has passed.  The engine registry
    is a Go map, ranged over in an order Go leaves open; the model takes
    the order of the list [registry]. *)

Module Matchmaking.

Definition Second : Z := 1000000000.
Definition Minute : Z := 60 * Second.

Definition matchmakingTimeout : Z := 5 * Minute.
Definition ratingTolerance : Z := 100.      (* Initial rating tolerance *)
Definition maxRatingTolerance : Z := 500.   (* Maximum rating tolerance after waiting *)

Record MatchmakingRequest : Type := mkRequest {
  UserID : N;
  GameType : string;
  Rating : Z;
  JoinedAt : Z
}.

(** The game record [createMatch] hands to the database. *)
Record Game : Type := mkGame {
  Type_ : string;
  Player1ID : N;
  Player2ID : N;
  CurrentTurn : N
}.

(** The service with its collaborators: the engine registry, the sorted
    sets of Redis (one queue per game type: the members with their scores,
    ordered by score, then by member), the request payloads of Redis with
    the instant at which each expires, and the games table. *)
Record Service : Type := mkService {
  registry : list string;
  queues : gmap string (list (Z * N));
  requests : gmap N (MatchmakingRequest * Z);
  games : list Game
}.

(** [Duration.Minutes] of package time:
    [min := d / Minute; nsec := d % Minute;
     return float64(min) + float64(nsec)/(60*1e9)].
    Go's [/] and [%] on integers round towards zero. *)
Definition Minutes (d : Z) : Z :=
  let min := Z.quot d Minute in
  let nsec := Z.rem d Minute in
  Float64.add (Float64.ofInt min)
              (Float64.div (Float64.ofInt nsec) (Float64.ofInt (60 * 10 ^ 9))).

(** [int(waitTime.Minutes())] *)
Definition minutesInt (waitTime : Z) : Z := Float64.toInt (Minutes waitTime).

(** The fraction [float64(nsec)/(60*1e9)] of a wait that is not negative,
    [nsec] being its nanoseconds beyond the whole minutes. *)
Definition fractionOf (nsec : Z) : Z :=
  Float64.roundPos (nsec * Float64.one * Float64.one) (Minute * Float64.one).

(** [time.Since(t)], that is [time.Now().Sub(t)]: the difference, brought
    back to the largest or smallest [Duration] when it exceeds it. *)
Definition Since (now t : Z) : Z :=
  Z.max (- 2 ^ 63) (Z.min (2 ^ 63 - 1) (now - t)).

Definition calculateRatingTolerance (waitTime : Z) : Z :=
  let tolerance := ratingTolerance + minutesInt waitTime * 20 in
  if tolerance >? maxRatingTolerance then maxRatingTolerance else tolerance.

(** *** Redis commands *)

Definition queueOf (s : Service) (gameType : string) : list (Z * N) :=
  default [] (queues s !! gameType).

Fixpoint zinsert (score : Z) (member : N) (l : list (Z * N)) : list (Z * N) :=
  match l with
  | [] => [(score, member)]
  | (s, m) :: rest =>
      if (score <? s) || ((score =? s) && (member <? m)%N)
      then (score, member) :: l
      else (s, m) :: zinsert score member rest
  end.

Definition zrem (members : list N) (l : list (Z * N)) : list (Z * N) :=
  filter (fun e => e.2 ∉ members) l.

Definition ZScore (s : Service) (gameType : string) (member : N) : option Z :=
  fst <$> head (filter (fun e => e.2 = member) (queueOf s gameType)).

Definition ZAdd (s : Service) (gameType : string) (score : Z) (member : N) : Service :=
  {| registry := registry s;
     queues := <[gameType := zinsert score member (zrem [member] (queueOf s gameType))]>
                 (queues s);
     requests := requests s;
     games := games s |}.

Definition ZRem (s : Service) (gameType : string) (members : list N) : Service :=
  {| registry := registry s;
     queues := <[gameType := zrem members (queueOf s gameType)]> (queues s);
     requests := requests s;
     games := games s |}.

Definition ZRange (s : Service) (gameType : string) : list N :=
  snd <$> queueOf s gameType.

Definition Set_ (s : Service) (now : Z) (key : N) (value : MatchmakingRequest)
    (ttl : Z) : Service :=
  {| registry := registry s;
     queues := queues s;
     requests := <[key := (value, now + ttl)]> (requests s);
     games := games s |}.

Definition Del (s : Service) (key : N) : Service :=
  {| registry := registry s;
     queues := queues s;
     requests := delete key (requests s);
     games := games s |}.

Definition Get (s : Service) (now : Z) (key : N) : option MatchmakingRequest :=
  match requests s !! key with
  | Some (value, expiry) => if now <? expiry then Some value else None
  | None => None
  end.

(** *** The service *)

Definition JoinQueue (s : Service) (now : Z) (userID : N) (gameType : string)
    (rating : Z) : Service * error :=
  (* Check if user is already in queue *)
  if match ZScore s gameType userID with
     | Some exists_ => negb (exists_ =? 0)
     | None => false
     end
  then (s, Some "user already in matchmaking queue") else
  let request := mkRequest userID gameType rating now in
  (* Add to sorted set with score as timestamp *)
  let s := ZAdd s gameType (now / Second) userID in
  (* Store request details *)
  (Set_ s now userID request matchmakingTimeout, None).

Definition LeaveQueue (s : Service) (userID : N) (gameType : string) : Service :=
  Del (ZRem s gameType [userID]) userID.

Definition getMatchmakingRequest (s : Service) (now : Z) (userID : N)
  : option MatchmakingRequest :=
  Get s now userID.

Definition createMatch (s : Service) (player1 player2 : MatchmakingRequest)
  : Service * error :=
  if bool_decide (GameType player1 ∈ registry s) then
    ({| registry := registry s;
        queues := queues s;
        requests := requests s;
        games := games s ++ [ {| Type_ := GameType player1;
                                  Player1ID := UserID player1;
                                  Player2ID := UserID player2;
                                  CurrentTurn := UserID player1 |} ] |}, None)
  else (s, Some "failed to get game engine").

(** The inner loop of [matchPlayers], [for j := i + 1; j < len(userIDs); j++]:
    the service after the first match made, or [None] when the loop ends
    without one. *)
Fixpoint findOpponent (s : Service) (now : Z) (gameType : string)
    (player1ID : N) (player1Request : MatchmakingRequest) (tolerance : Z)
    (later : list N) : option Service :=
  match later with
  | [] => None
  | player2ID :: rest =>
      match getMatchmakingRequest s now player2ID with
      | None => findOpponent s now gameType player1ID player1Request tolerance rest
      | Some player2Request =>
          let ratingDiff := abs (wrap64 (Rating player1Request - Rating player2Request)) in
          if ratingDiff <=? tolerance then
            match createMatch s player1Request player2Request with
            | (_, Some _) =>
                findOpponent s now gameType player1ID player1Request tolerance rest
            | (s, None) =>
                let s := ZRem s gameType [player1ID; player2ID] in
                let s := Del s player1ID in
                let s := Del s player2ID in
                Some s
            end
          else findOpponent s now gameType player1ID player1Request tolerance rest
      end
  end.

(** The outer loop, [for i := 0; i < len(userIDs)-1; i++]. *)
Fixpoint matchPlayers (s : Service) (now : Z) (gameType : string) (userIDs : list N)
  : Service :=
  match userIDs with
  | [] => s
  | player1ID :: later =>
      if decide (later = []) then s else
      match getMatchmakingRequest s now player1ID with
      | None => matchPlayers s now gameType later
      | Some player1Request =>
          let waitTime := Since now (JoinedAt player1Request) in
          let tolerance := calculateRatingTolerance waitTime in
          match findOpponent s now gameType player1ID player1Request tolerance later with
          | Some s' => s'
          | None => matchPlayers s now gameType later
          end
      end
  end.

Definition processMatchmaking (s : Service) (now : Z) : Service :=
  foldl (fun s gameType =>
           let userIDs := ZRange s gameType in
           if decide (length userIDs < 2)%nat then s
           else matchPlayers s now gameType userIDs)
        s (registry s).

Definition cleanupExpiredRequests (s : Service) (now : Z) : Service :=
  foldl (fun s gameType =>
           let userIDs := ZRange s gameType in
           let expiredUsers :=
             List.filter (fun userID =>
                            match getMatchmakingRequest s now userID with
                            | None => true
                            | Some request =>
                                Since now (JoinedAt request) >? matchmakingTimeout
                            end) userIDs in
           if decide (0 < length expiredUsers)%nat then
             foldl Del (ZRem s gameType expiredUsers) expiredUsers
           else s)
        s (registry s).

(** An empty service over the two registered engines. *)
Definition NewMatchmakingService : Service :=
  {| registry := ["dominoes"; "chess"]; queues := ∅; requests := ∅; games := [] |}.


(** *** A scenario *)

(** Two players, rated 1000 and 1300, who join the chess queue at the
    instant [t0]. *)
Definition alice : N := 1.

Definition bob : N := 2.

Definition queuedWith (t0 ratingAlice ratingBob : Z) : Service :=
  let s := (JoinQueue NewMatchmakingService t0 alice "chess" ratingAlice).1 in
  (JoinQueue s t0 bob "chess" ratingBob).1.

Definition queued (t0 : Z) : Service := queuedWith t0 1000 1300.

(** The two requests of [queued 0] as they would be if the store kept them
    for an hour. *)
Definition keptForAnHour : Service :=
  {| registry := registry (queued 0);
     queues := queues (queued 0);
     requests := (fun entry : MatchmakingRequest * Z => (entry.1, 60 * Minute))
                   <$> requests (queued 0);
     games := [] |}.


(** *** Reading a request back; the two sweeps *)

Definition GetQueueStatus (s : Service) (now : Z) (userID : N) (gameType : string)
  : option MatchmakingRequest * error :=
  match Get s now userID with
  | None => (None, Some "user not in matchmaking queue")
  | Some request => (Some request, None)
  end.


(** The service after one player has joined the chess queue, ninety
    seconds into the epoch. *)
Definition queuedOnce : Service :=
  (JoinQueue NewMatchmakingService (90 * Second) alice "chess" 1000).1.
(** The service after [matchPlayers] has paired the requests [request1]
    and [request2] of the members [player1ID] and [player2ID] of the queue
    of [gameType]: one game more, the two members out of the queue, their
    requests deleted. *)
Definition afterMatch (s : Service) (gameType : string) (player1ID player2ID : N)
    (request1 request2 : MatchmakingRequest) : Service :=
  {| registry := registry s;
     queues := <[gameType := zrem [player1ID; player2ID] (queueOf s gameType)]> (queues s);
     requests := delete player2ID (delete player1ID (requests s));
     games := games s ++ [ {| Type_ := GameType request1;
                              Player1ID := UserID request1;
                              Player2ID := UserID request2;
                              CurrentTurn := UserID request1 |} ] |}.

(** The condition under which [matchPlayers] pairs two requests. *)
Definition compatible (s : Service) (now : Z) (request1 request2 : MatchmakingRequest)
  : Prop :=
  abs (wrap64 (Rating request1 - Rating request2))
  <= calculateRatingTolerance (Since now (JoinedAt request1))
  ∧ GameType request1 ∈ registry s.
(** The test of [cleanupExpiredRequests] on a member of a queue. *)
Definition expired (s : Service) (now : Z) (userID : N) : bool :=
  match getMatchmakingRequest s now userID with
  | None => true
  | Some request => Since now (JoinedAt request) >? matchmakingTimeout
  end.

(** The body of the loop of [processMatchmaking] over the game types. *)
Definition sweep (now : Z) (s : Service) (gameType : string) : Service :=
  let userIDs := ZRange s gameType in
  if decide (length userIDs < 2)%nat then s
  else matchPlayers s now gameType userIDs.

(** The body of the loop of [cleanupExpiredRequests] over the game types. *)
Definition cleanup (now : Z) (s : Service) (gameType : string) : Service :=
  let userIDs := ZRange s gameType in
  let expiredUsers := List.filter (expired s now) userIDs in
  if decide (0 < length expiredUsers)%nat then
    foldl Del (ZRem s gameType expiredUsers) expiredUsers
  else s.

End Matchmaking.

(** ** The session hub (package websocket)

    The hub's maps hold pointers to [Client] objects; a client is reachable
    from [h.clients] and from the [Clients] map of every room it is in, and
    an eviction takes it out of one of these maps only.  The model keeps
    the objects in a store keyed by client identifier ([objects]) and the
    maps as sets of identifiers.  The events are dispatched one at a time.
    Go leaves the order of a [range] over a map open; the model visits the
    members in the order of [elements]. *)

Module Hub.

Inductive MessageType : Type :=
| MessageTypeJoinRoom | MessageTypeLeaveRoom | MessageTypeGameMove
| MessageTypeGameUpdate | MessageTypeChatMessage | MessageTypePlayerJoined
| MessageTypePlayerLeft | MessageTypeError | MessageTypeHeartbeat.

Record Message : Type := mkMessage {
  Type_ : MessageType;
  RoomID : string;
  PlayerID : N
}.

(** A [Client]: [Send] is the channel [make(chan []byte, 256)], given by
    the messages it buffers and whether it has been closed. *)
Record Client : Type := mkClient {
  UserID : N;
  Send : list Message;
  closed : bool;
  Rooms : gset string
}.

Definition sendCapacity : nat := 256.

Record Hub : Type := mkHub {
  objects : gmap N Client;
  clients : gset N;
  rooms : gmap string (gset N)
}.

Definition NewHub : Hub := {| objects := ∅; clients := ∅; rooms := ∅ |}.

Definition setObject (h : Hub) (id : N) (c : Client) : Hub :=
  {| objects := <[id := c]> (objects h); clients := clients h; rooms := rooms h |}.

Definition setRooms (h : Hub) (rs : gmap string (gset N)) : Hub :=
  {| objects := objects h; clients := clients h; rooms := rs |}.

(** [HandleWebSocket] makes the client under a fresh identifier and sends
    it to [registerClient]. *)
Definition registerClient (h : Hub) (id userID : N) : Hub :=
  match objects h !! id with
  | Some _ => h
  | None =>
      {| objects := <[id := {| UserID := userID; Send := []; closed := false; Rooms := ∅ |}]>
                      (objects h);
         clients := {[id]} ∪ clients h;
         rooms := rooms h |}
  end.

(** One turn of the loop of [broadcastToRoom]:
    [select { case client.Send <- messageBytes: default: close(client.Send);
    delete(room.Clients, client.ID) }]. *)
Definition deliver (roomID : string) (message : Message) (h : Hub) (id : N)
  : result Hub :=
  match objects h !! id with
  | None => Panic "nil pointer dereference"
  | Some client =>
      if closed client then Panic "send on closed channel"
      else if decide (length (Send client) < sendCapacity)%nat then
        Ok (setObject h id
              {| UserID := UserID client; Send := Send client ++ [message];
                 closed := closed client; Rooms := Rooms client |})
      else
        let h := setObject h id
                   {| UserID := UserID client; Send := Send client;
                      closed := true; Rooms := Rooms client |} in
        Ok (setRooms h (alter (fun members => members ∖ {[id]}) roomID (rooms h)))
  end.

Fixpoint deliverAll (roomID : string) (message : Message) (h : Hub) (ids : list N)
  : result Hub :=
  match ids with
  | [] => Ok h
  | id :: rest =>
      h <~ deliver roomID message h id ;;
      deliverAll roomID message h rest
  end.

Definition broadcastToRoom (h : Hub) (roomID : string) (message : Message)
  : result Hub :=
  match rooms h !! roomID with
  | None => Ok h
  | Some members => deliverAll roomID message h (elements members)
  end.

Definition BroadcastToRoom (h : Hub) (roomID : string) (message : Message)
  : result Hub :=
  broadcastToRoom h roomID message.

Definition removeClientFromRoom (h : Hub) (id : N) (roomID : string) : result Hub :=
  match objects h !! id with
  | None => Panic "nil pointer dereference"
  | Some client =>
      match rooms h !! roomID with
      | None => Ok h
      | Some members =>
          let members := members ∖ {[id]} in
          let isEmpty := bool_decide (size members = 0%nat) in
          let h := setRooms h (<[roomID := members]> (rooms h)) in
          let h := setObject h id
                     {| UserID := UserID client; Send := Send client;
                        closed := closed client; Rooms := Rooms client ∖ {[roomID]} |} in
          (* Notify other clients in the room *)
          h <~ broadcastToRoom h roomID
                 {| Type_ := MessageTypePlayerLeft; RoomID := roomID;
                    PlayerID := UserID client |} ;;
          (* Remove room if empty *)
          if isEmpty then Ok (setRooms h (delete roomID (rooms h))) else Ok h
      end
  end.

Fixpoint removeFromRooms (h : Hub) (id : N) (roomIDs : list string) : result Hub :=
  match roomIDs with
  | [] => Ok h
  | roomID :: rest =>
      h <~ removeClientFromRoom h id roomID ;;
      removeFromRooms h id rest
  end.

Definition unregisterClient (h : Hub) (id : N) : result Hub :=
  if bool_decide (id ∈ clients h) then
    match objects h !! id with
    | None => Panic "nil pointer dereference"
    | Some client =>
        (* Remove client from all rooms *)
        h <~ removeFromRooms h id (elements (Rooms client)) ;;
        match objects h !! id with
        | None => Panic "nil pointer dereference"
        | Some client =>
            if closed client then Panic "close of closed channel"
            else
              Ok {| objects := <[id := {| UserID := UserID client; Send := Send client;
                                          closed := true; Rooms := Rooms client |}]>
                                 (objects h);
                    clients := clients h ∖ {[id]};
                    rooms := rooms h |}
        end
    end
  else Ok h.

Definition JoinRoom (h : Hub) (clientID : N) (roomID : string) : result (Hub * error) :=
  if bool_decide (clientID ∈ clients h) then
    match objects h !! clientID with
    | None => Panic "nil pointer dereference"
    | Some client =>
        let members := default ∅ (rooms h !! roomID) in
        let h := setRooms h (<[roomID := {[clientID]} ∪ members]> (rooms h)) in
        let h := setObject h clientID
                   {| UserID := UserID client; Send := Send client;
                      closed := closed client; Rooms := {[roomID]} ∪ Rooms client |} in
        (* Notify other clients in the room *)
        h <~ broadcastToRoom h roomID
               {| Type_ := MessageTypePlayerJoined; RoomID := roomID;
                  PlayerID := UserID client |} ;;
        Ok (h, None)
    end
  else Ok (h, Some "client not found").

Definition LeaveRoom (h : Hub) (clientID : N) (roomID : string) : result (Hub * error) :=
  if bool_decide (clientID ∈ clients h) then
    h <~ removeClientFromRoom h clientID roomID ;;
    Ok (h, None)
  else Ok (h, Some "client not found").

(** The operations on the hub, dispatched one after the other. *)
Inductive Event : Type :=
| Register (id userID : N)
| Unregister (id : N)
| Join (id : N) (roomID : string)
| Leave (id : N) (roomID : string)
| RoomBroadcast (roomID : string) (message : Message).

Definition dispatch (h : Hub) (e : Event) : result Hub :=
  match e with
  | Register id userID => Ok (registerClient h id userID)
  | Unregister id => unregisterClient h id
  | Join id roomID => r <~ JoinRoom h id roomID ;; Ok r.1
  | Leave id roomID => r <~ LeaveRoom h id roomID ;; Ok r.1
  | RoomBroadcast roomID message => BroadcastToRoom h roomID message
  end.

Fixpoint run (h : Hub) (events : list Event) : result Hub :=
  match events with
  | [] => Ok h
  | e :: rest => h <~ dispatch h e ;; run h rest
  end.

(** Every room of the registry has a member. *)
Definition roomsInhabited (h : Hub) : Prop :=
  ∀ roomID members, rooms h !! roomID = Some members → members ≠ ∅.


(** *** A scenario *)

Definition chat : Message :=
  {| Type_ := MessageTypeChatMessage; RoomID := "game-1"; PlayerID := 7%N |}.

(** One client joins a room and never reads: the 257th message fills no
    slot of its buffer. *)
Definition slowClient : list Event :=
  [Register 1%N 7%N; Join 1%N "game-1"] ++ replicate 256 (RoomBroadcast "game-1" chat).

(** A client that joins a room and leaves it. *)
Definition joinAndLeave : list Event :=
  [Register 1%N 7%N; Join 1%N "game-1"; Leave 1%N "game-1"].


(** *** Direct sends, the members of a room *)

(** [SendToClient]: a send that does not block. *)
Definition SendToClient (h : Hub) (clientID : N) (message : Message)
  : result (Hub * error) :=
  if bool_decide (clientID ∈ clients h) then
    match objects h !! clientID with
    | None => Panic "nil pointer dereference"
    | Some client =>
        if closed client then Panic "send on closed channel"
        else if decide (length (Send client) < sendCapacity)%nat then
          Ok (setObject h clientID
                {| UserID := UserID client; Send := Send client ++ [message];
                   closed := closed client; Rooms := Rooms client |}, None)
        else Ok (h, Some "client send channel is full")
    end
  else Ok (h, Some "client not found").

(** [GetRoomClients]: the user identifiers of the members of a room. *)
Definition GetRoomClients (h : Hub) (roomID : string) : result (list N) :=
  match rooms h !! roomID with
  | None => Ok []
  | Some members =>
      foldr (fun id rest =>
               clients <~ rest ;;
               match objects h !! id with
               | None => Panic "nil pointer dereference"
               | Some client => Ok (UserID client :: clients)
               end)
            (Ok []) (elements members)
  end.

(** *** Notions the statements about the hub use *)

(** A client after a room broadcast has reached it: the message is in its
    buffer when there was room, its channel is closed when there was
    none. *)
Definition reached (message : Message) (client : Client) : Client :=
  if decide (length (Send client) < sendCapacity)%nat then
    {| UserID := UserID client; Send := Send client ++ [message];
       closed := closed client; Rooms := Rooms client |}
  else
    {| UserID := UserID client; Send := Send client;
       closed := true; Rooms := Rooms client |}.

(** The buffer of the client is full. *)
Definition full (h : Hub) (id : N) : bool :=
  match objects h !! id with
  | Some client => bool_decide (sendCapacity <= length (Send client))%nat
  | None => false
  end.

(** Every member of a room is a client object that lists the room. *)
Definition backPointers (h : Hub) : Prop :=
  ∀ roomID members id,
    rooms h !! roomID = Some members → id ∈ members →
    ∃ client, objects h !! id = Some client ∧ roomID ∈ Rooms client.

(** No room gains a member, no room appears. *)
Definition roomsShrink (h h' : Hub) : Prop :=
  ∀ roomID members',
    rooms h' !! roomID = Some members' →
    ∃ members, rooms h !! roomID = Some members ∧ members' ⊆ members.

(** The client objects stay, with their user and their rooms, and a closed
    channel stays closed. *)
Definition objectsStay (h h' : Hub) : Prop :=
  ∀ id client,
    objects h !! id = Some client →
    ∃ client',
      objects h' !! id = Some client'
      ∧ UserID client' = UserID client
      ∧ Rooms client' = Rooms client
      ∧ (closed client = true → closed client' = true).
(** A client in two rooms that never reads: the two notices of its own
    joins and 254 messages fill its buffer, and the next message to the
    first room evicts it from that room. *)
Definition twoRooms : list Event :=
  [Register 1%N 7%N; Join 1%N "game-1"; Join 1%N "game-2"]
  ++ replicate 255 (RoomBroadcast "game-1" chat).

End Hub.

(** * Properties *)

(** ** 64-bit arithmetic *)

Lemma wrap64_small (z : Z) : - 2 ^ 63 <= z < 2 ^ 63 → wrap64 z = z.
Proof.
  intros Hz. unfold wrap64.
  rewrite Z.mod_small; lia.
Qed.

Lemma abs_small (x : Z) : - 2 ^ 63 < x < 2 ^ 63 → abs x = Z.abs x.
Proof.
  intros Hx. unfold abs. destruct (Z.ltb_spec x 0).
  - rewrite wrap64_small; lia.
  - lia.
Qed.

(** ** Rounding to [float64] *)

Section Float64Facts.

Lemma rne_cases (p d : Z) :
  0 < d →
  (Float64.rne p d = p / d ∧ 2 * (p mod d) <= d)
  ∨ (Float64.rne p d = p / d + 1 ∧ d <= 2 * (p mod d)).
Proof.
  intros Hd. unfold Float64.rne. cbn zeta.
  destruct (Z.ltb_spec (2 * (p mod d)) d); [left; lia|].
  destruct (Z.ltb_spec d (2 * (p mod d))); [right; lia|].
  destruct (Z.even (p / d)); [left|right]; lia.
Qed.

(** The error of [rne] is at most one half. *)
Lemma rne_err (p d : Z) :
  0 < d →
  2 * (Float64.rne p d * d) <= 2 * p + d ∧ 2 * p <= 2 * (Float64.rne p d * d) + d.
Proof.
  intros Hd. pose proof (Z.div_mod p d ltac:(lia)) as Hp.
  pose proof (Z.mod_pos_bound p d Hd) as Hr.
  destruct (rne_cases p d Hd) as [[-> Hhalf]|[-> Hhalf]]; nia.
Qed.

Lemma rne_exact (a d : Z) : 0 < d → Float64.rne (a * d) d = a.
Proof.
  intros Hd. unfold Float64.rne. cbn zeta.
  rewrite Z.div_mul, Z.mod_mul by lia.
  by rewrite (proj2 (Z.ltb_lt (2 * 0) d)) by lia.
Qed.

Lemma rne_mono (p1 p2 d : Z) :
  0 < d → p1 <= p2 → Float64.rne p1 d <= Float64.rne p2 d.
Proof.
  intros Hd Hle.
  pose proof (Z.div_le_mono p1 p2 d Hd Hle) as Hq.
  pose proof (Z.div_mod p1 d ltac:(lia)) as Hp1.
  pose proof (Z.div_mod p2 d ltac:(lia)) as Hp2.
  pose proof (Z.mod_pos_bound p1 d Hd) as Hr1.
  pose proof (Z.mod_pos_bound p2 d Hd) as Hr2.
  destruct (Z.eq_dec (p1 / d) (p2 / d)) as [Heq|Hne].
  - assert (p1 mod d <= p2 mod d) as Hr by nia.
    unfold Float64.rne. cbn zeta. rewrite Heq.
    destruct (Z.ltb_spec (2 * (p1 mod d)) d); destruct (Z.ltb_spec (2 * (p2 mod d)) d);
      try lia;
      destruct (Z.ltb_spec d (2 * (p1 mod d))); destruct (Z.ltb_spec d (2 * (p2 mod d)));
      try lia; destruct (Z.even (p2 / d)); lia.
  - destruct (rne_cases p1 d Hd) as [[-> _]|[-> _]];
      destruct (rne_cases p2 d Hd) as [[-> _]|[-> _]]; lia.
Qed.

Lemma rne_nonneg (p d : Z) : 0 <= p → 0 < d → 0 <= Float64.rne p d.
Proof.
  intros Hp Hd. pose proof (Z.div_pos p d Hp Hd).
  destruct (rne_cases p d Hd) as [[-> _]|[-> _]]; lia.
Qed.

Lemma roundPos_eq (p q : Z) :
  Float64.roundPos p q
  = Float64.rne p (q * 2 ^ Float64.exponentOf p q) * 2 ^ Float64.exponentOf p q.
Proof. done. Qed.

Lemma exponentOf_nonneg (p q : Z) : 0 <= Float64.exponentOf p q.
Proof. unfold Float64.exponentOf. lia. Qed.

Lemma exponentOf_mono (p1 p2 q : Z) :
  0 < q → p1 <= p2 → Float64.exponentOf p1 q <= Float64.exponentOf p2 q.
Proof.
  intros Hq Hle. unfold Float64.exponentOf.
  pose proof (Z.log2_le_mono _ _ (Z.div_le_mono p1 p2 q Hq Hle)). lia.
Qed.

(** Below the exponent [53 + k] the value is rounded at [k] or less. *)
Lemma exponentOf_upper (p q k : Z) :
  0 < q → 0 <= k → p < q * 2 ^ (53 + k) → Float64.exponentOf p q <= k.
Proof.
  intros Hq Hk Hlt. unfold Float64.exponentOf.
  destruct (Z.le_gt_cases (p / q) 0) as [Hzero|Hpos].
  { rewrite Z.log2_nonpos by done. lia. }
  assert (p / q < 2 ^ (53 + k)) as Hdiv by (apply Z.div_lt_upper_bound; lia).
  apply Z.log2_lt_pow2 in Hdiv; lia.
Qed.

(** At a positive exponent the value has 53 bits or more. *)
Lemma exponentOf_lower (p q : Z) :
  0 < q → 0 < Float64.exponentOf p q → q * 2 ^ (52 + Float64.exponentOf p q) <= p.
Proof.
  intros Hq Hk. unfold Float64.exponentOf in *.
  assert (0 < p / q) as Hpos.
  { destruct (Z.le_gt_cases (p / q) 0) as [Hzero|]; [|done].
    rewrite Z.log2_nonpos in Hk by done. lia. }
  rewrite Z.max_r by lia.
  replace (52 + (Z.log2 (p / q) - 52)) with (Z.log2 (p / q)) by lia.
  pose proof (Z.log2_spec (p / q) Hpos) as [Hlow _].
  pose proof (Z.mul_div_le p q Hq). nia.
Qed.

Lemma roundPos_nonneg (p q : Z) : 0 <= p → 0 < q → 0 <= Float64.roundPos p q.
Proof.
  intros Hp Hq. rewrite roundPos_eq.
  pose proof (exponentOf_nonneg p q) as Hk.
  assert (0 < 2 ^ Float64.exponentOf p q) as Hpow by (apply Z.pow_pos_nonneg; lia).
  pose proof (rne_nonneg p (q * 2 ^ Float64.exponentOf p q) Hp ltac:(nia)). nia.
Qed.

Lemma roundPos_zero (q : Z) : 0 < q → Float64.roundPos 0 q = 0.
Proof.
  intros Hq. rewrite roundPos_eq.
  assert (Float64.exponentOf 0 q = 0) as ->
    by (unfold Float64.exponentOf; by rewrite Zdiv_0_l).
  rewrite Z.pow_0_r, Z.mul_1_r, Z.mul_1_r.
  apply (rne_exact 0 q Hq).
Qed.

(** [roundPos] does not decrease as the value grows. *)
Lemma roundPos_mono (p1 p2 q : Z) :
  0 <= p1 → p1 <= p2 → 0 < q → Float64.roundPos p1 q <= Float64.roundPos p2 q.
Proof.
  intros Hp1 Hle Hq. rewrite !roundPos_eq.
  pose proof (exponentOf_mono p1 p2 q Hq Hle) as Hk.
  pose proof (exponentOf_nonneg p1 q) as Hk1.
  set (k1 := Float64.exponentOf p1 q) in *. set (k2 := Float64.exponentOf p2 q) in *.
  assert (0 < 2 ^ k1) as Hpow1 by (apply Z.pow_pos_nonneg; lia).
  assert (0 < 2 ^ k2) as Hpow2 by (apply Z.pow_pos_nonneg; lia).
  destruct (Z.eq_dec k1 k2) as [<-|Hne].
  - pose proof (rne_mono p1 p2 (q * 2 ^ k1) ltac:(nia) Hle). nia.
  - assert (p1 < q * 2 ^ (53 + k1)) as Hupper.
    { destruct (Z.lt_ge_cases p1 (q * 2 ^ (53 + k1))) as [|Hge]; [done|].
      exfalso.
      assert (2 ^ (53 + k1) <= p1 / q) as Hdiv by (apply Z.div_le_lower_bound; lia).
      assert (53 + k1 <= Z.log2 (p1 / q)) as Hlog.
      { apply Z.log2_le_pow2; [|done].
        pose proof (Z.pow_pos_nonneg 2 (53 + k1) ltac:(lia) ltac:(lia)). lia. }
      unfold k1, Float64.exponentOf in *. lia. }
    pose proof (exponentOf_lower p2 q Hq ltac:(fold k2; lia)) as Hlower. fold k2 in Hlower.
    (* rne p1 ... <= 2^53 and 2^52 <= rne p2 ... *)
    assert (Float64.rne p1 (q * 2 ^ k1) <= 2 ^ 53) as Hm1.
    { rewrite <- (rne_exact (2 ^ 53) (q * 2 ^ k1)) by nia.
      apply rne_mono; [nia|]. rewrite Z.pow_add_r in Hupper by lia. nia. }
    assert (2 ^ 52 <= Float64.rne p2 (q * 2 ^ k2)) as Hm2.
    { rewrite <- (rne_exact (2 ^ 52) (q * 2 ^ k2)) at 1 by nia.
      apply rne_mono; [nia|]. rewrite Z.pow_add_r in Hlower by lia. nia. }
    assert (2 ^ 53 * 2 ^ k1 <= 2 ^ 52 * 2 ^ k2) as Hsteps.
    { rewrite <- !Z.pow_add_r by lia. apply Z.pow_le_mono_r; lia. }
    nia.
Qed.

(** A value of 53 bits times a power of two is a [float64]: rounding
    leaves it as it is. *)
Lemma roundPos_exact (a j q : Z) :
  0 <= a < 2 ^ 53 → 0 <= j → 0 < q → Float64.roundPos (a * 2 ^ j * q) q = a * 2 ^ j.
Proof.
  intros Ha Hj Hq. rewrite roundPos_eq.
  assert (Float64.exponentOf (a * 2 ^ j * q) q <= j) as Hk.
  { apply exponentOf_upper; [done|done|].
    pose proof (Z.pow_pos_nonneg 2 j ltac:(lia) Hj).
    rewrite (Z.add_comm 53 j), Z.pow_add_r by lia. nia. }
  pose proof (exponentOf_nonneg (a * 2 ^ j * q) q) as Hk0.
  set (k := Float64.exponentOf (a * 2 ^ j * q) q) in *.
  assert (2 ^ j = 2 ^ (j - k) * 2 ^ k) as Hsplit
    by (rewrite <- Z.pow_add_r by lia; f_equal; lia).
  rewrite Hsplit.
  replace (a * (2 ^ (j - k) * 2 ^ k) * q) with (a * 2 ^ (j - k) * (q * 2 ^ k)) by ring.
  assert (0 < 2 ^ k) by (apply Z.pow_pos_nonneg; lia).
  rewrite rne_exact by nia. ring.
Qed.

(** The rounding error upwards, below the exponent [53 + k]. *)
Lemma roundPos_err_up (p q k : Z) :
  0 <= p → 0 < q → 0 <= k → p < q * 2 ^ (53 + k) →
  2 * (q * Float64.roundPos p q) <= 2 * p + q * 2 ^ k.
Proof.
  intros Hp Hq Hk Hlt. rewrite roundPos_eq.
  pose proof (exponentOf_upper p q k Hq Hk Hlt) as Hle.
  pose proof (exponentOf_nonneg p q) as Hk0.
  set (e := Float64.exponentOf p q) in *.
  assert (0 < 2 ^ e) as Hpow by (apply Z.pow_pos_nonneg; lia).
  assert (2 ^ e <= 2 ^ k) as Hpows by (apply Z.pow_le_mono_r; lia).
  destruct (rne_err p (q * 2 ^ e) ltac:(nia)) as [Hup _]. nia.
Qed.

Lemma round_opp (p q : Z) : 0 < q → Float64.round (- p) q = - Float64.round p q.
Proof.
  intros Hq. unfold Float64.round.
  destruct (Z.ltb_spec (- p) 0); destruct (Z.ltb_spec p 0); try lia.
  - by rewrite Z.opp_involutive.
  - assert (p = 0) as -> by lia. cbn [Z.opp]. rewrite !roundPos_zero by done. reflexivity.
Qed.

Lemma round_nonneg (p q : Z) : 0 <= p → Float64.round p q = Float64.roundPos p q.
Proof. intros Hp. unfold Float64.round. by rewrite (proj2 (Z.ltb_ge p 0)). Qed.

End Float64Facts.

(** ** The domino engine *)

Section DominoFacts.
Import Domino.

(** The state [Initialize] returns for a slice of 28 tiles: one entry in
    [PlayerHands], under the zero identifier, with the 14 tiles dealt. *)
Lemma initialize_shape (shuffledTiles : list DominoTile) :
  length shuffledTiles = 28%nat →
  ∃ hand,
    length hand = 14%nat ∧
    Initialize shuffledTiles =
      Ok {| PlayerHands := {[ uuid_Nil := hand ]};
            Board := [];
            BoneYard := drop 14 shuffledTiles;
            CurrentTurn := uuid_Nil;
            Player1ID := uuid_Nil;
            Player2ID := uuid_Nil;
            GameEnded := false;
            Winner := None |}.
Proof.
  intros Hlen.
  do 28 (destruct shuffledTiles as [|? shuffledTiles]; [discriminate Hlen|]).
  destruct shuffledTiles; [|discriminate Hlen].
  eexists. split; last first.
  - unfold Initialize.
    destruct (decide _) as [Hlt|_]; [simpl in Hlt; lia|].
    cbn [dealLoop index rbind lookup list_lookup Nat.add drop Player1ID Player2ID
         PlayerHands Board BoneYard CurrentTurn GameEnded Winner].
    unfold determineStartingPlayer.
    cbn [Player1ID Player2ID PlayerHands].
    match goal with |- context [if ?b then uuid_Nil else uuid_Nil] =>
      replace (if b then uuid_Nil else uuid_Nil) with uuid_Nil by (by destruct b)
    end.
    unfold appendTo, handOf.
    repeat (rewrite ?lookup_insert_eq, ?lookup_empty, ?insert_insert_eq;
            cbn [default from_option id app]).
    rewrite insert_empty. reflexivity.
  - reflexivity.
Qed.

Lemma generateDominoSet_length : length generateDominoSet = 28%nat.
Proof. reflexivity. Qed.

Lemma leftEndOf_ok (board : list DominoTile) :
  length board ≠ 0%nat → ∃ t, head board = Some t ∧ leftEndOf board = Ok (Left t).
Proof. destruct board as [|t board]; [done|]. intros _. by exists t. Qed.

Lemma rightEndOf_ok (board : list DominoTile) :
  length board ≠ 0%nat → ∃ t, last board = Some t ∧ rightEndOf board = Ok (Right t).
Proof.
  intros Hne. unfold rightEndOf.
  destruct (last board) as [t|] eqn:Hlast; [by exists t|].
  apply last_None in Hlast. by subst.
Qed.

Lemma canPlayerPlay_ok (state : DominoGameState) (playerID : N) :
  ∃ b, canPlayerPlay state playerID = Ok b.
Proof.
  unfold canPlayerPlay. destruct (decide _) as [|Hne]; [by eexists|].
  destruct (leftEndOf_ok _ Hne) as (l & _ & ->).
  destruct (rightEndOf_ok _ Hne) as (r & _ & ->).
  simpl. by eexists.
Qed.

Lemma placeTileOnBoard_ok (board : list DominoTile) tile side :
  length board ≠ 0%nat →
  ∃ board', placeTileOnBoard board tile side = Ok board'
            ∧ length board' = S (length board).
Proof.
  intros Hne. unfold placeTileOnBoard.
  destruct (leftEndOf_ok _ Hne) as (l & _ & ->).
  destruct (rightEndOf_ok _ Hne) as (r & _ & ->).
  simpl. repeat case_match; eexists; split; try reflexivity;
    rewrite ?length_app; simpl; lia.
Qed.

(** [ApplyMove] has no failing path of its own: on decoded arguments it
    always returns a state. *)
Lemma domino_ApplyMove_ok (state : DominoGameState) (domMove : DominoMove) (playerID : N) :
  ∃ state', ApplyMove state domMove playerID = Ok state'.
Proof.
  unfold ApplyMove. destruct (Pass domMove).
  - destruct (canPlayerPlay_ok (setTurn state (getOtherPlayer state playerID))
                (CurrentTurn (setTurn state (getOtherPlayer state playerID)))) as [b ->].
    simpl. destruct b; by eexists.
  - set (st := match removeTile _ _ with Some _ => _ | None => _ end).
    destruct (decide (length (Board st) = 0%nat)) as [|Hne].
    + simpl. case_match; by eexists.
    + destruct (placeTileOnBoard_ok (Board st) (Tile domMove) (Side domMove) Hne)
        as (board' & -> & _).
      simpl. case_match; by eexists.
Qed.

Lemma validateTilePlacement_ok (board : list DominoTile) tile side :
  length board ≠ 0%nat → ∃ e, validateTilePlacement board tile side = Ok e.
Proof.
  intros Hne. unfold validateTilePlacement.
  destruct (leftEndOf_ok _ Hne) as (l & _ & ->).
  destruct (rightEndOf_ok _ Hne) as (r & _ & ->).
  cbn [rbind]. repeat case_match; by eexists.
Qed.

Lemma tryTiles_ok (board : list DominoTile) (playerHand : list DominoTile) :
  length board ≠ 0%nat →
  ∀ possibleMoves, ∃ moves, tryTiles board playerHand possibleMoves = Ok moves.
Proof.
  intros Hne. induction playerHand as [|tile rest IH]; intros acc; [by eexists|].
  cbn [tryTiles].
  destruct (validateTilePlacement_ok board tile "left" Hne) as [l ->].
  destruct (validateTilePlacement_ok board tile "right" Hne) as [r ->].
  cbn [rbind]. apply IH.
Qed.

(** [GetPossibleMoves] and [ValidateMove] return on every state. *)
Lemma domino_GetPossibleMoves_ok (state : DominoGameState) (playerID : N) :
  ∃ moves, GetPossibleMoves state playerID = Ok moves.
Proof.
  unfold GetPossibleMoves. destruct (decide _) as [|Hne]; [by eexists|].
  destruct (tryTiles_ok _ (handOf (PlayerHands state) playerID) Hne []) as [moves ->].
  cbn [rbind]. case_match; by eexists.
Qed.

Lemma domino_ValidateMove_ok (state : DominoGameState) (domMove : DominoMove)
    (playerID : N) :
  ∃ e, ValidateMove state domMove playerID = Ok e.
Proof.
  unfold ValidateMove.
  destruct (negb _); [by eexists|]. destruct (GameEnded state); [by eexists|].
  destruct (Pass domMove).
  - destruct (canPlayerPlay_ok state playerID) as [b ->]. cbn [rbind].
    destruct b; by eexists.
  - destruct (negb _); [by eexists|].
    destruct (decide _) as [|Hne]; [by eexists|].
    by apply validateTilePlacement_ok.
Qed.

Lemma validateTilePlacement_left (board : list DominoTile) tile t :
  head board = Some t →
  validateTilePlacement board tile "left" = Ok None →
  Left tile = Left t ∨ Right tile = Left t.
Proof.
  intros Hhead. unfold validateTilePlacement. simpl String.eqb. cbv iota.
  destruct board as [|t' board]; [done|]. simpl in Hhead. injection Hhead as ->.
  simpl. destruct (Left tile =? Left t) eqn:E1; [lia|].
  destruct (Right tile =? Left t) eqn:E2; [lia|]. done.
Qed.

Lemma validateTilePlacement_right (board : list DominoTile) tile t :
  last board = Some t →
  validateTilePlacement board tile "right" = Ok None →
  Left tile = Right t ∨ Right tile = Right t.
Proof.
  intros Hlast. unfold validateTilePlacement. simpl String.eqb. cbv iota.
  unfold rightEndOf. rewrite Hlast. simpl.
  destruct (Left tile =? Right t) eqn:E1; [lia|].
  destruct (Right tile =? Right t) eqn:E2; [lia|]. done.
Qed.

(** Every move the loop adds is a placement of a held tile that
    [validateTilePlacement] accepts. *)
Lemma tryTiles_sound (board : list DominoTile) (playerHand : list DominoTile) :
  ∀ possibleMoves moves mv,
    tryTiles board playerHand possibleMoves = Ok moves →
    mv ∈ moves →
    mv ∈ possibleMoves
    ∨ ∃ tile, tile ∈ playerHand
              ∧ (validateTilePlacement board tile "left" = Ok None
                 ∨ validateTilePlacement board tile "right" = Ok None).
Proof.
  induction playerHand as [|tile rest IH]; intros acc moves mv Hrun Hin.
  - simpl in Hrun. injection Hrun as <-. by left.
  - simpl in Hrun.
    destruct (validateTilePlacement board tile "left") as [l|] eqn:Hl; [|done].
    destruct (validateTilePlacement board tile "right") as [r|] eqn:Hr; [|done].
    simpl in Hrun.
    destruct (IH _ _ _ Hrun Hin) as [Hacc|(tile' & Hin' & Hok)].
    + destruct r as [?|]; destruct l as [?|];
        repeat (apply elem_of_app in Hacc as [Hacc|Hacc]);
        try (by left);
        right; exists tile; (split; [apply elem_of_cons; by left|]); auto.
    + right. exists tile'. split; [apply elem_of_cons; by right|done].
Qed.

Lemma canPlayerPlay_of_placement (state : DominoGameState) (playerID : N) tile :
  length (Board state) ≠ 0%nat →
  tile ∈ handOf (PlayerHands state) playerID →
  validateTilePlacement (Board state) tile "left" = Ok None
  ∨ validateTilePlacement (Board state) tile "right" = Ok None →
  canPlayerPlay state playerID = Ok true.
Proof.
  intros Hne Hin Hok. unfold canPlayerPlay.
  destruct (decide _) as [|_]; [done|].
  destruct (leftEndOf_ok _ Hne) as (l & Hl & ->).
  destruct (rightEndOf_ok _ Hne) as (r & Hr & ->).
  simpl. f_equal. apply existsb_exists. exists tile.
  split; [by apply list_elem_of_In|].
  destruct Hok as [Hok|Hok].
  - destruct (validateTilePlacement_left _ _ _ Hl Hok) as [->| ->];
      rewrite Z.eqb_refl; by rewrite ?orb_true_r.
  - destruct (validateTilePlacement_right _ _ _ Hr Hok) as [->| ->];
      rewrite Z.eqb_refl; by rewrite ?orb_true_r.
Qed.

(** C6, the must-play rule of dominoes.  When it is [playerID]'s turn in a
    game that has not ended and [GetPossibleMoves] lists a move that is not
    a pass, [ValidateMove] rejects every pass of that player, with the error
    that says so. *)
Theorem C6_must_play (state : DominoGameState) (playerID : N)
    (pass : DominoMove) (moves : list DominoMove) (mv : DominoMove) :
  CurrentTurn state = playerID →
  GameEnded state = false →
  GetPossibleMoves state playerID = Ok moves →
  mv ∈ moves →
  Pass mv = false →
  Pass pass = true →
  ValidateMove state pass playerID = Ok (Some "player must play if possible").
Proof.
  intros Hturn Hended Hmoves Hin Hplay Hpass.
  assert (canPlayerPlay state playerID = Ok true) as Hcan.
  { unfold GetPossibleMoves in Hmoves.
    destruct (decide (length (Board state) = 0%nat)) as [Hempty|Hne].
    - unfold canPlayerPlay. by rewrite decide_True.
    - destruct (tryTiles _ _ _) as [found|] eqn:Hrun; [|done].
      simpl in Hmoves.
      destruct (decide (length found = 0%nat)) as [Hnone|_].
      + injection Hmoves as <-. destruct found; [|done].
        apply list_elem_of_singleton in Hin. subst mv. done.
      + injection Hmoves as <-.
        destruct (tryTiles_sound _ _ _ _ _ Hrun Hin) as [Hnil|(tile & Htile & Hok)].
        * by apply elem_of_nil in Hnil.
        * by eapply canPlayerPlay_of_placement. }
  unfold ValidateMove. rewrite Hturn, N.eqb_refl, Hended, Hpass, Hcan. done.
Qed.

Lemma removeTile_length (playerHand : list DominoTile) (moveTile : DominoTile) :
  existsb (fun tile => sameTile tile moveTile) playerHand = true →
  ∃ hand', removeTile playerHand moveTile = Some hand'
           ∧ length playerHand = S (length hand').
Proof.
  induction playerHand as [|tile rest IH]; [done|]. simpl.
  destruct (sameTile tile moveTile); simpl.
  - intros _. by exists rest.
  - intros Hrest. destruct (IH Hrest) as (hand' & -> & Hlen).
    exists (tile :: hand'). simpl. by rewrite Hlen.
Qed.

(** X6.  Between two players with different identifiers a validated move
    keeps the number of tiles: a play takes one tile from the mover's hand
    to the board, a pass moves none. *)
Lemma domino_ApplyMove_conserves (state state' : DominoGameState) (domMove : DominoMove)
    (playerID : N) :
  Player1ID state ≠ Player2ID state →
  playerID = Player1ID state ∨ playerID = Player2ID state →
  ValidateMove state domMove playerID = Ok None →
  ApplyMove state domMove playerID = Ok state' →
  tileCount state' = tileCount state.
Proof.
  intros Hids Hplayer Hvalid Happly.
  unfold ValidateMove in Hvalid. unfold ApplyMove in Happly.
  destruct (negb _); [done|]. destruct (GameEnded state); [done|].
  destruct (Pass domMove).
  - destruct (canPlayerPlay_ok (setTurn state (getOtherPlayer state playerID))
                (CurrentTurn (setTurn state (getOtherPlayer state playerID)))) as [b Hb].
    rewrite Hb in Happly. simpl in Happly.
    destruct b; simpl in Happly; by injection Happly as <-.
  - destruct (existsb _ _) eqn:Hhas; [|done]. simpl in Hvalid.
    destruct (removeTile_length _ _ Hhas) as (hand' & Hrem & Hlen).
    rewrite Hrem in Happly.
    assert (∃ board', (if decide (length (Board state) = 0%nat)
                       then Ok (Board state ++ [Tile domMove])
                       else placeTileOnBoard (Board state) (Tile domMove) (Side domMove))
                      = Ok board'
                      ∧ length board' = S (length (Board state)))
      as (board' & Hboard & Hblen).
    { destruct (decide _) as [|Hne].
      - eexists. split; [done|]. rewrite length_app. simpl. lia.
      - by apply placeTileOnBoard_ok. }
    cbn [Board setHands] in Happly. rewrite Hboard in Happly. cbn [rbind] in Happly.
    assert (tileCount (setBoard (setHands state (<[playerID:=hand']> (PlayerHands state)))
                         board') = tileCount state) as Hcount.
    { unfold tileCount, handOf in *. cbn.
      destruct Hplayer as [-> | ->].
      - rewrite lookup_insert_eq, lookup_insert_ne by done. simpl in *. lia.
      - rewrite lookup_insert_eq, lookup_insert_ne by done. simpl in *. lia. }
    match type of Happly with
    | (if ?d then _ else _) = _ => destruct d
    end; injection Happly as <-; exact Hcount.
Qed.

Lemma getHighestTileValue_fold (hand : list DominoTile) (start : Z) :
  let result :=
    foldl (fun maxValue tile =>
             if tileValue tile >? maxValue then tileValue tile else maxValue)
          start hand in
  start <= result
  ∧ (∀ tile, tile ∈ hand → tileValue tile <= result)
  ∧ (result = start ∨ ∃ tile, tile ∈ hand ∧ tileValue tile = result).
Proof.
  revert start. induction hand as [|tile rest IH]; intros start; cbn [foldl].
  - split; [lia|]. split; [|by left]. intros tile Hin. by apply elem_of_nil in Hin.
  - destruct (IH (if tileValue tile >? start then tileValue tile else start))
      as (Hge & Hall & Hhit).
    cbv zeta. split; [case_match; lia|]. split.
    + intros other Hin. apply elem_of_cons in Hin as [->|Hin]; [|by apply Hall].
      case_match; lia.
    + destruct Hhit as [Heq|(other & Hin & Heq)].
      * destruct (Z.gtb_spec (tileValue tile) start).
        -- right. exists tile. split; [by left|done].
        -- by left.
      * right. exists other. split; [by right|done].
Qed.

(** [getHighestTileValue] is the largest value of a tile of the hand, a
    double counting 100 more than its pips, or -1 for want of a tile worth
    more. *)
Lemma getHighestTileValue_spec (hand : list DominoTile) :
  (∀ tile, tile ∈ hand → tileValue tile <= getHighestTileValue hand)
  ∧ (getHighestTileValue hand = -1
     ∨ ∃ tile, tile ∈ hand ∧ tileValue tile = getHighestTileValue hand).
Proof.
  destruct (getHighestTileValue_fold hand (-1)) as (_ & Hall & Hhit). by split.
Qed.

(** C1, as the code behaves.  The claim wants two hands of 7 tiles after
    [Initialize].  Whatever the shuffle, the state [Initialize] returns has
    the zero identifier for both players, so both deals of the loop append
    to the same entry of [PlayerHands]: the hand of player 1 and the hand of
    player 2 are one hand of 14 tiles.  The boneyard has 14 tiles, the board
    is empty and the turn is that one identifier's. *)
Theorem C1_initialize_single_hand (shuffledTiles : list DominoTile) :
  shuffledTiles ≡ₚ generateDominoSet →
  ∃ state,
    Initialize shuffledTiles = Ok state
    ∧ Player1ID state = Player2ID state
    ∧ length (handOf (PlayerHands state) (Player1ID state)) = 14%nat
    ∧ length (handOf (PlayerHands state) (Player2ID state)) = 14%nat
    ∧ length (BoneYard state) = 14%nat
    ∧ Board state = []
    ∧ CurrentTurn state = Player1ID state.
Proof.
  intros Hperm.
  assert (length shuffledTiles = 28%nat) as Hlen
    by (by rewrite Hperm, generateDominoSet_length).
  destruct (initialize_shape _ Hlen) as (hand & Hhand & ->).
  eexists. split; [reflexivity|].
  unfold handOf. cbn [PlayerHands Player1ID Player2ID Board BoneYard CurrentTurn].
  rewrite lookup_singleton_eq. simpl default. rewrite length_drop, Hlen, Hhand. done.
Qed.

Lemma C1_initialize_single_hand_witness :
  generateDominoSet ≡ₚ generateDominoSet
  ∧ ∃ state,
      Initialize generateDominoSet = Ok state
      ∧ Player1ID state = Player2ID state
      ∧ length (handOf (PlayerHands state) (Player1ID state)) = 14%nat
      ∧ length (handOf (PlayerHands state) (Player2ID state)) = 14%nat
      ∧ length (BoneYard state) = 14%nat
      ∧ Board state = []
      ∧ CurrentTurn state = Player1ID state.
Proof.
  split; [reflexivity|]. apply C1_initialize_single_hand. reflexivity.
Defined.

(** C2, as the code behaves.  The claim wants the tiles of the two hands,
    the board and the boneyard to add up to 28 in every reachable state.  In
    the state [Initialize] returns, the first reachable one, they add up to
    42: the one hand of 14 tiles is counted for player 1 and for player 2
    (see [domino_ApplyMove_conserves] for the step between players whose
    identifiers differ). *)
Theorem C2_initial_count (shuffledTiles : list DominoTile) :
  shuffledTiles ≡ₚ generateDominoSet →
  ∃ state, Initialize shuffledTiles = Ok state ∧ tileCount state = 42%nat.
Proof.
  intros Hperm.
  assert (length shuffledTiles = 28%nat) as Hlen
    by (by rewrite Hperm, generateDominoSet_length).
  destruct (initialize_shape _ Hlen) as (hand & Hhand & ->).
  eexists. split; [reflexivity|].
  unfold tileCount, handOf. cbn [PlayerHands Player1ID Player2ID Board BoneYard].
  rewrite lookup_singleton_eq. simpl default.
  rewrite length_drop, Hlen, Hhand. done.
Qed.

Lemma C2_initial_count_witness :
  generateDominoSet ≡ₚ generateDominoSet
  ∧ ∃ state, Initialize generateDominoSet = Ok state ∧ tileCount state = 42%nat.
Proof.
  split; [reflexivity|]. apply C2_initial_count. reflexivity.
Defined.
(** The first play of a game, from the state [Initialize] returns for the
    unshuffled set: the one hand loses a tile, which both players' counts
    lose, and the sum drops to 41. *)
Example count_after_first_play :
  ∃ state state',
    Initialize generateDominoSet = Ok state
    ∧ ValidateMove state (mkMove (mkTile 0 0) "left" false) uuid_Nil = Ok None
    ∧ ApplyMove state (mkMove (mkTile 0 0) "left" false) uuid_Nil = Ok state'
    ∧ tileCount state' = 41%nat.
Proof. do 2 eexists. repeat split; by vm_compute. Qed.
Lemma C6_must_play_witness :
  (CurrentTurn midGame = 1%N
   ∧ GameEnded midGame = false
   ∧ GetPossibleMoves midGame 1%N = Ok [playDoubleThree]
   ∧ playDoubleThree ∈ [playDoubleThree]
   ∧ Pass playDoubleThree = false
   ∧ Pass passMove = true)
  ∧ ValidateMove midGame passMove 1%N = Ok (Some "player must play if possible").
Proof.
  assert (playDoubleThree ∈ [playDoubleThree]) as Hin by (by left).
  split.
  - repeat split; try done; by vm_compute.
  - apply (C6_must_play midGame 1%N passMove [playDoubleThree] playDoubleThree);
      try done; by vm_compute.
Defined.


(** *** The set, the deal and the moves *)

(** X1.  [generateDominoSet] is the double-six set: the tiles [l|r] with
    0 <= l <= r <= 6, each once. *)
Theorem generateDominoSet_spec :
  NoDup generateDominoSet
  ∧ ∀ tile, tile ∈ generateDominoSet ↔ 0 <= Left tile <= Right tile ∧ Right tile <= 6.
Proof.
  split.
  - apply (bool_decide_unpack (NoDup generateDominoSet)). by vm_compute.
  - intros [l r]. unfold generateDominoSet. cbn [Left Right].
    rewrite list_elem_of_In, in_flat_map. split.
    + intros (i & Hi & Hin). apply in_map_iff in Hin as (j & [= <- <-] & Hj).
      apply list_elem_of_In, elem_of_seqZ in Hi.
      apply list_elem_of_In, elem_of_seqZ in Hj. lia.
    + intros Hrange. exists l. split.
      * apply list_elem_of_In, elem_of_seqZ. lia.
      * apply in_map_iff. exists r. split; [done|].
        apply list_elem_of_In, elem_of_seqZ. lia.
Qed.

Lemma interleave_Permutation (a b : list DominoTile) :
  length a = length b → interleave a b ≡ₚ a ++ b.
Proof.
  revert b. induction a as [|x a IH]; intros [|y b] Hlen; try done.
  cbn [interleave app]. rewrite IH by (simpl in Hlen; lia).
  by rewrite (Permutation_middle a b y).
Qed.

Lemma dealLoop_shared (shuffledTiles : list DominoTile) (p : N) (n : nat) :
  ∀ (i : nat) hands,
    (i + 7 + n <= length shuffledTiles)%nat →
    ∃ hands',
      dealLoop shuffledTiles p p hands i n = Ok hands'
      ∧ handOf hands' p
        = handOf hands p
          ++ interleave (take n (drop i shuffledTiles))
                        (take n (drop (i + 7) shuffledTiles))
      ∧ ∀ k, k ≠ p → hands' !! k = hands !! k.
Proof.
  induction n as [|n IH]; intros i hands Hlen.
  - exists hands. split; [done|]. split; [|done]. cbn. by rewrite app_nil_r.
  - cbn [dealLoop]. unfold index.
    destruct (lookup_lt_is_Some_2 shuffledTiles i ltac:(lia)) as [t1 Ht1].
    destruct (lookup_lt_is_Some_2 shuffledTiles (i + 7) ltac:(lia)) as [t2 Ht2].
    rewrite Ht1, Ht2. cbn [rbind].
    destruct (IH (S i) (appendTo (appendTo hands p t1) p t2) ltac:(lia))
      as (hands' & Hrun & Hhand & Hframe).
    exists hands'. split; [done|]. split.
    + rewrite Hhand. unfold appendTo, handOf. rewrite !lookup_insert_eq. cbn [default].
      rewrite (drop_S _ _ _ Ht1), (drop_S _ _ _ Ht2). cbn [take interleave].
      unfold id. rewrite <- !app_assoc. done.
    + intros k Hk. rewrite (Hframe k Hk). unfold appendTo.
      by rewrite !lookup_insert_ne.
Qed.

(** X2.  [Initialize] deals every tile once: for any shuffle of the set,
    the hand of the nil identifier (the one hand it deals to) together with
    the boneyard is the whole set, every other hand is empty, and the
    boneyard is what follows the first fourteen tiles of the shuffle. *)
Theorem Initialize_deals_every_tile (shuffledTiles : list DominoTile) :
  shuffledTiles ≡ₚ generateDominoSet →
  ∃ state,
    Initialize shuffledTiles = Ok state
    ∧ handOf (PlayerHands state) uuid_Nil ++ BoneYard state ≡ₚ generateDominoSet
    ∧ (∀ k, k ≠ uuid_Nil → handOf (PlayerHands state) k = [])
    ∧ BoneYard state = drop 14 shuffledTiles.
Proof.
  intros Hperm.
  assert (length shuffledTiles = 28%nat) as Hlen by (by rewrite Hperm).
  unfold Initialize. rewrite decide_False by lia.
  cbn [Player1ID Player2ID PlayerHands].
  destruct (dealLoop_shared shuffledTiles uuid_Nil 7 0 ∅ ltac:(lia))
    as (hands & -> & Hhand & Hframe).
  cbn [rbind]. eexists. split; [reflexivity|].
  cbn [PlayerHands BoneYard]. split; [|split; [|done]].
  - rewrite Hhand. unfold handOf at 1. rewrite lookup_empty. cbn [default app].
    rewrite interleave_Permutation by (rewrite !length_take, !length_drop; lia).
    rewrite <- Hperm. cbn [drop Nat.add].
    rewrite <- (take_drop 7 shuffledTiles) at 4.
    rewrite <- (take_drop 7 (drop 7 shuffledTiles)) at 2.
    rewrite drop_drop. by rewrite <- app_assoc.
  - intros k Hk. unfold handOf. by rewrite (Hframe k Hk), lookup_empty.
Qed.

Lemma chained_cons (a : DominoTile) (board : list DominoTile) :
  (∀ b, head board = Some b → Right a = Left b) → chained board → chained (a :: board).
Proof. destruct board as [|b rest]; [done|]. intros Hab Hrest. split; [by apply Hab|done]. Qed.

Lemma chained_snoc (board : list DominoTile) (b : DominoTile) :
  (∀ a, last board = Some a → Right a = Left b) → chained board → chained (board ++ [b]).
Proof.
  induction board as [|x [|y rest] IH]; intros Hab Hch; [done| |].
  - split; [by apply Hab|done].
  - destruct Hch as [Hxy Hrest]. split; [done|]. apply IH; [|done].
    intros a Ha. by apply Hab.
Qed.

Lemma sameTile_refl (tile : DominoTile) : sameTile tile tile = true.
Proof. unfold sameTile. by rewrite !Z.eqb_refl. Qed.

(** [removeTile] takes out the first tile of the hand that is the tile of
    the move in either orientation, and keeps the others in their order. *)
Lemma removeTile_first (playerHand : list DominoTile) (moveTile : DominoTile) hand' :
  removeTile playerHand moveTile = Some hand' →
  ∃ before tile after,
    playerHand = before ++ tile :: after
    ∧ hand' = before ++ after
    ∧ Forall (fun held => sameTile held moveTile = false) before
    ∧ sameTile tile moveTile = true.
Proof.
  revert hand'. induction playerHand as [|held rest IH]; intros hand'; [done|].
  cbn [removeTile]. destruct (sameTile held moveTile) eqn:Hsame.
  - intros [= <-]. by exists [], held, rest.
  - destruct (removeTile rest moveTile) as [rest'|]; [|done]. intros [= <-].
    destruct (IH rest' eq_refl) as (before & tile & after & -> & -> & Hbefore & Htile).
    exists (held :: before), tile, after.
    split; [done|]. split; [done|]. split; [by constructor|done].
Qed.

(** X3.  A validated play takes one tile out of the mover's hand: the
    first one that is the tile of the move in either orientation, the
    tiles before it and after it staying in their order.  It puts the tile
    of the move, as written or turned round, at one end of the board; the
    boneyard and the player identifiers stay.  The mover wins, and the game
    ends, as soon as the hand is empty; otherwise the turn goes to the
    other player.  The status of the new state is never a draw. *)
Theorem domino_ApplyMove_play (state : DominoGameState) (domMove : DominoMove)
    (playerID : N) :
  ValidateMove state domMove playerID = Ok None →
  Pass domMove = false →
  ∃ state' before tile after placed,
    ApplyMove state domMove playerID = Ok state'
    ∧ handOf (PlayerHands state) playerID = before ++ tile :: after
    ∧ Forall (fun held => sameTile held (Tile domMove) = false) before
    ∧ sameTile tile (Tile domMove) = true
    ∧ PlayerHands state' = <[playerID := before ++ after]> (PlayerHands state)
    ∧ (placed = Tile domMove ∨ placed = flipped (Tile domMove))
    ∧ (Board state' = placed :: Board state ∨ Board state' = Board state ++ [placed])
    ∧ BoneYard state' = BoneYard state
    ∧ Player1ID state' = Player1ID state ∧ Player2ID state' = Player2ID state
    ∧ (if decide (before ++ after = [])
       then GameEnded state' = true ∧ Winner state' = Some playerID
            ∧ CurrentTurn state' = playerID
       else GameEnded state' = false ∧ Winner state' = Winner state
            ∧ CurrentTurn state' = getOtherPlayer state playerID)
    ∧ Engine.IsDraw (GetGameStatus state') = false.
Proof.
  intros Hvalid Hplay. unfold ValidateMove in Hvalid. unfold ApplyMove.
  rewrite Hplay in *.
  destruct (N.eqb_spec (CurrentTurn state) playerID) as [Hturn|]; [|done].
  destruct (GameEnded state) eqn:Hended; [done|]. cbn [negb] in Hvalid.
  destruct (existsb _ _) eqn:Hhas; [|done]. cbn [negb] in Hvalid.
  destruct (removeTile_length _ _ Hhas) as (hand' & Hrem & _).
  destruct (removeTile_first _ _ _ Hrem)
    as (before & tile & after & Hhand & -> & Hbefore & Hsame).
  rewrite Hrem. cbn [Board setHands].
  assert (∃ board' placed,
            (if decide (length (Board state) = 0%nat)
             then Ok (Board state ++ [Tile domMove])
             else placeTileOnBoard (Board state) (Tile domMove) (Side domMove))
            = Ok board'
            ∧ (placed = Tile domMove ∨ placed = flipped (Tile domMove))
            ∧ (board' = placed :: Board state ∨ board' = Board state ++ [placed]))
    as (board' & placed & -> & Hplaced & Hboard).
  { destruct (decide _) as [|Hne]; [by eauto 10|].
    unfold placeTileOnBoard.
    destruct (leftEndOf_ok _ Hne) as (l & _ & ->).
    destruct (rightEndOf_ok _ Hne) as (r & _ & ->).
    cbn [rbind]. repeat case_match; eauto 10. }
  cbn [rbind].
  assert (handOf (<[playerID:=before ++ after]> (PlayerHands state)) playerID
          = before ++ after) as Hhand'
    by (unfold handOf; by rewrite lookup_insert_eq).
  cbn [PlayerHands setBoard setHands]. rewrite Hhand'.
  destruct (decide (length (before ++ after) = 0%nat)) as [Hlen|Hlen].
  - apply nil_length_inv in Hlen.
    eexists _, before, tile, after, placed. rewrite decide_True by done.
    split; [reflexivity|]. cbn [PlayerHands Board BoneYard Player1ID Player2ID GameEnded
                                Winner CurrentTurn endGame setBoard setHands].
    repeat split; done.
  - eexists _, before, tile, after, placed.
    rewrite decide_False by (intros Hnil; rewrite Hnil in Hlen; done).
    split; [reflexivity|]. cbn [PlayerHands Board BoneYard Player1ID Player2ID GameEnded
                                Winner CurrentTurn setTurn setBoard setHands].
    repeat split; try done.
    unfold GetGameStatus. cbn [Engine.IsDraw GameEnded setTurn setBoard setHands].
    by rewrite Hended.
Qed.

(** X5.  The board stays a chain: if adjacent tiles of the board show the
    same number where they touch, they still do after a validated move;
    [placeTileOnBoard] turns the tile round when it has to. *)
Theorem domino_ApplyMove_keeps_chain (state state' : DominoGameState) (domMove : DominoMove)
    (playerID : N) :
  chained (Board state) →
  ValidateMove state domMove playerID = Ok None →
  ApplyMove state domMove playerID = Ok state' →
  chained (Board state').
Proof.
  intros Hchain Hvalid Happly. unfold ValidateMove in Hvalid. unfold ApplyMove in Happly.
  destruct (negb _); [done|]. destruct (GameEnded state); [done|].
  destruct (Pass domMove).
  - clear Hvalid.
    destruct (canPlayerPlay _ _) as [b|]; [|done]. cbn [rbind] in Happly.
    destruct (negb b); by injection Happly as <-.
  - destruct (negb _); [done|].
    assert (∃ board', chained board'
              ∧ (if decide (length (Board state) = 0%nat)
                 then Ok (Board state ++ [Tile domMove])
                 else placeTileOnBoard (Board state) (Tile domMove) (Side domMove))
                = Ok board') as (board' & Hboard' & Hplace).
    { destruct (decide _) as [Hempty|Hne].
      - apply nil_length_inv in Hempty. rewrite Hempty.
        exists [Tile domMove]. by split.
      - unfold validateTilePlacement in Hvalid. unfold placeTileOnBoard.
        destruct (leftEndOf_ok _ Hne) as (l & Hl & Hleft).
        destruct (rightEndOf_ok _ Hne) as (r & Hr & Hright).
        rewrite Hleft, Hright in *. cbn [rbind] in *.
        destruct (String.eqb (Side domMove) "left").
        + destruct (Right (Tile domMove) =? Left l) eqn:Hr1;
            (eexists; split; [|done]; apply chained_cons; [|done];
             intros b Hb; rewrite Hl in Hb; injection Hb as <-;
             cbn [flipped Right]).
          * lia.
          * destruct (Left (Tile domMove) =? Left l) eqn:Hl1; [lia|done].
        + destruct (String.eqb (Side domMove) "right"); [|done].
          destruct (Left (Tile domMove) =? Right r) eqn:Hl1;
            (eexists; split; [|done]; apply chained_snoc; [|done];
             intros a Ha; rewrite Hr in Ha; injection Ha as <-;
             cbn [flipped Left]).
          * lia.
          * destruct (Right (Tile domMove) =? Right r) eqn:Hr1; [lia|done]. }
    assert (∀ st : DominoGameState,
              Board st = Board state →
              (board <~ (if decide (length (Board st) = 0%nat)
                         then Ok (Board st ++ [Tile domMove])
                         else placeTileOnBoard (Board st) (Tile domMove) (Side domMove)) ;;
               let st := setBoard st board in
               if decide (length (handOf (PlayerHands st) playerID) = 0%nat)
               then Ok (endGame st (Some playerID))
               else Ok (setTurn st (getOtherPlayer st playerID))) = Ok state' →
              chained (Board state')) as Hrest.
    { intros st Hst. rewrite Hst, Hplace. cbn [rbind].
      destruct (decide (length (handOf _ _) = 0%nat));
        intros Heq; injection Heq as Heq; by rewrite <- Heq. }
    destruct (removeTile _ _); (eapply Hrest; [|exact Happly]); reflexivity.
Qed.

(** What the loop of [GetPossibleMoves] adds: placements of held tiles that
    [validateTilePlacement] accepts, and one for each that it accepts. *)
Lemma tryTiles_spec (board : list DominoTile) (playerHand : list DominoTile) :
  ∀ possibleMoves moves,
    tryTiles board playerHand possibleMoves = Ok moves →
    ∀ mv, mv ∈ moves ↔
          mv ∈ possibleMoves
          ∨ ∃ tile side,
              tile ∈ playerHand ∧ (side = "left" ∨ side = "right")
              ∧ mv = {| Tile := tile; Side := side; Pass := false |}
              ∧ validateTilePlacement board tile side = Ok None.
Proof.
  induction playerHand as [|tile rest IH]; intros acc moves Hrun mv.
  - cbn in Hrun. injection Hrun as <-. split; [by left|].
    intros [Hacc|(t & ? & Hin & _)]; [done|]. by apply elem_of_nil in Hin.
  - cbn [tryTiles] in Hrun.
    destruct (validateTilePlacement board tile "left") as [l|] eqn:Hl; [|done].
    destruct (validateTilePlacement board tile "right") as [r|] eqn:Hr; [|done].
    cbn [rbind] in Hrun. rewrite (IH _ _ Hrun mv). clear IH Hrun. split.
    + intros [Hacc|(t & side & Hin & Hside & Hmv & Hok)].
      * destruct r as [?|], l as [?|];
          repeat (apply elem_of_app in Hacc as [Hacc|Hacc]);
          try (by left);
          apply list_elem_of_singleton in Hacc;
          right; eexists tile, _; (split; [by left|]); eauto.
      * right. exists t, side. split; [by right|done].
    + intros [Hacc|(t & side & Hin & Hside & Hmv & Hok)].
      * left. destruct r, l; rewrite ?elem_of_app; auto.
      * apply elem_of_cons in Hin as [->|Hin].
        -- left. destruct Hside as [-> | ->].
           ++ rewrite Hok in Hl. injection Hl as <-. subst mv.
              destruct r; rewrite ?elem_of_app, ?list_elem_of_singleton; auto.
           ++ rewrite Hok in Hr. injection Hr as <-. subst mv.
              destruct l; rewrite ?elem_of_app, ?list_elem_of_singleton; auto.
        -- right. exists t, side. done.
Qed.

Lemma canPlayerPlay_false_iff (state : DominoGameState) (playerID : N) :
  length (Board state) ≠ 0%nat →
  canPlayerPlay state playerID = Ok false ↔
  ∀ tile side, tile ∈ handOf (PlayerHands state) playerID →
               side = "left" ∨ side = "right" →
               validateTilePlacement (Board state) tile side ≠ Ok None.
Proof.
  intros Hne. unfold canPlayerPlay, validateTilePlacement.
  rewrite decide_False by done.
  destruct (leftEndOf_ok _ Hne) as (l & _ & ->).
  destruct (rightEndOf_ok _ Hne) as (r & _ & ->).
  cbn [rbind]. split.
  - intros [= Hnone] tile side Hin Hside.
    assert (existsb (λ tile : DominoTile,
              (Left tile =? Left l) || (Right tile =? Left l)
              || (Left tile =? Right r) || (Right tile =? Right r))
              (handOf (PlayerHands state) playerID) = false) as Hfalse by done.
    assert ((Left tile =? Left l) || (Right tile =? Left l)
            || (Left tile =? Right r) || (Right tile =? Right r) = false) as Htile.
    { apply not_true_is_false. intros Htrue.
      rewrite (proj2 (existsb_exists _ _)) in Hfalse; [done|].
      exists tile. split; [by apply list_elem_of_In|done]. }
    destruct Hside as [-> | ->]; cbn [String.eqb Ascii.eqb Bool.eqb];
      repeat case_match; try done; lia.
  - intros Hnone. f_equal. apply not_true_is_false. intros Hex.
    apply existsb_exists in Hex as (tile & Hin & Hmatch).
    apply list_elem_of_In in Hin.
    pose proof (Hnone tile "left" Hin (or_introl eq_refl)) as Hleft.
    pose proof (Hnone tile "right" Hin (or_intror eq_refl)) as Hright.
    cbn [String.eqb Ascii.eqb Bool.eqb] in Hleft, Hright.
    destruct (Left tile =? Left l), (Right tile =? Left l),
             (Left tile =? Right r), (Right tile =? Right r); done.
Qed.

(** X7.  Every move that [GetPossibleMoves] lists for the player to move
    in a running game passes [ValidateMove]. *)
Theorem domino_GetPossibleMoves_sound (state : DominoGameState) (playerID : N)
    (moves : list DominoMove) (mv : DominoMove) :
  CurrentTurn state = playerID →
  GameEnded state = false →
  GetPossibleMoves state playerID = Ok moves →
  mv ∈ moves →
  ValidateMove state mv playerID = Ok None.
Proof.
  intros Hturn Hended Hmoves Hin. unfold GetPossibleMoves in Hmoves.
  unfold ValidateMove. rewrite Hturn, N.eqb_refl, Hended. cbn [negb].
  assert (∀ tile, tile ∈ handOf (PlayerHands state) playerID →
          existsb (λ t, sameTile t tile) (handOf (PlayerHands state) playerID) = true)
    as Hheld.
  { intros tile Htile. apply existsb_exists. exists tile.
    split; [by apply list_elem_of_In|apply sameTile_refl]. }
  destruct (decide (length (Board state) = 0%nat)) as [Hempty|Hne].
  - injection Hmoves as <-. apply list_elem_of_fmap in Hin as (tile & -> & Htile).
    cbn [Pass Tile]. by rewrite (Hheld _ Htile).
  - destruct (tryTiles _ _ _) as [found|] eqn:Hrun; [|done]. cbn [rbind] in Hmoves.
    pose proof (tryTiles_spec _ _ _ _ Hrun) as Hspec.
    destruct (decide (length found = 0%nat)) as [Hnone|Hsome]; injection Hmoves as <-.
    + apply nil_length_inv in Hnone. subst found.
      apply list_elem_of_singleton in Hin. subst mv. cbn [Pass passMove].
      assert (canPlayerPlay state playerID = Ok false) as ->; [|done].
      apply canPlayerPlay_false_iff; [done|]. intros tile side Htile Hside Hok.
      assert ({| Tile := tile; Side := side; Pass := false |} ∈ @nil DominoMove) as Hbad
        by (apply Hspec; right; eauto 10).
      by apply elem_of_nil in Hbad.
    + apply Hspec in Hin as [Hnil|(tile & side & Htile & _ & -> & Hok)];
        [by apply elem_of_nil in Hnil|].
      cbn [Pass Tile Side]. by rewrite (Hheld _ Htile).
Qed.

Lemma validateTilePlacement_sameTile (board : list DominoTile) (held tile : DominoTile)
    (side : string) :
  sameTile held tile = true →
  validateTilePlacement board held side = validateTilePlacement board tile side.
Proof.
  unfold sameTile, validateTilePlacement. intros Hsame.
  assert ((Left held = Left tile ∧ Right held = Right tile)
          ∨ (Left held = Right tile ∧ Right held = Left tile)) as [[-> ->]|[-> ->]]
    by lia; [done|].
  destruct (String.eqb side "left"); [|destruct (String.eqb side "right"); [|done]].
  - destruct (leftEndOf board) as [l|]; [|done]. cbn [rbind].
    by rewrite andb_comm.
  - destruct (rightEndOf board) as [r|]; [|done]. cbn [rbind].
    by rewrite andb_comm.
Qed.

(** X8.  Every move that [ValidateMove] accepts is listed by
    [GetPossibleMoves], up to the orientation in which the tile is written
    (and up to the side, which nobody reads, on an empty board); an
    accepted pass is the only move listed. *)
Theorem domino_GetPossibleMoves_complete (state : DominoGameState) (playerID : N)
    (domMove : DominoMove) :
  ValidateMove state domMove playerID = Ok None →
  ∃ moves,
    GetPossibleMoves state playerID = Ok moves
    ∧ if Pass domMove then moves = [passMove]
      else ∃ mv, mv ∈ moves ∧ Pass mv = false
                 ∧ sameTile (Tile mv) (Tile domMove) = true
                 ∧ (length (Board state) ≠ 0%nat → Side mv = Side domMove).
Proof.
  intros Hvalid. unfold ValidateMove in Hvalid. unfold GetPossibleMoves.
  destruct (negb _); [done|]. destruct (GameEnded state); [done|].
  destruct (Pass domMove).
  - destruct (decide (length (Board state) = 0%nat)) as [Hempty|Hne].
    { unfold canPlayerPlay in Hvalid. by rewrite decide_True in Hvalid. }
    destruct (canPlayerPlay state playerID) as [[|]|] eqn:Hcan; [done| |done].
    destruct (tryTiles_ok _ (handOf (PlayerHands state) playerID) Hne []) as [found Hrun].
    rewrite Hrun. cbn [rbind].
    pose proof (tryTiles_spec _ _ _ _ Hrun) as Hspec.
    assert (found = []) as ->.
    { destruct found as [|mv rest]; [done|]. exfalso.
      assert (mv ∈ mv :: rest) as Hin by (by left).
      apply Hspec in Hin as [Hnil|(tile & side & Htile & Hside & _ & Hok)];
        [by apply elem_of_nil in Hnil|].
      by apply (proj1 (canPlayerPlay_false_iff state playerID Hne) Hcan tile side). }
    eexists. split; [|done]. by rewrite decide_True.
  - destruct (existsb _ _) eqn:Hhas; [|done]. cbn [negb] in Hvalid.
    apply existsb_exists in Hhas as (held & Hheld & Hsame).
    apply list_elem_of_In in Hheld.
    destruct (decide (length (Board state) = 0%nat)) as [Hempty|Hne].
    + eexists. split; [done|].
      exists {| Tile := held; Side := "left"; Pass := false |}.
      split; [by apply list_elem_of_fmap; exists held|]. done.
    + destruct (tryTiles_ok _ (handOf (PlayerHands state) playerID) Hne []) as [found Hrun].
      rewrite Hrun. cbn [rbind].
      pose proof (tryTiles_spec _ _ _ _ Hrun) as Hspec.
      assert (Side domMove = "left" ∨ Side domMove = "right") as Hside.
      { unfold validateTilePlacement in Hvalid.
        destruct (String.eqb_spec (Side domMove) "left"); [by left|].
        destruct (String.eqb_spec (Side domMove) "right"); [by right|done]. }
      assert ({| Tile := held; Side := Side domMove; Pass := false |} ∈ found) as Hin.
      { apply Hspec. right. exists held, (Side domMove).
        by rewrite (validateTilePlacement_sameTile _ _ _ _ Hsame). }
      exists found. split.
      * destruct found; [by apply elem_of_nil in Hin|]. by rewrite decide_False.
      * by eexists.
Qed.

(** X4.  A validated pass (the mover holds no tile that fits) moves no
    tile and gives the turn to the other player.  The game goes on exactly
    when the other player can play; when neither can, it ends, the player
    with the lower pip count in hand wins, and equal counts make it a draw
    with no winner. *)
Theorem domino_ApplyMove_pass (state : DominoGameState) (domMove : DominoMove)
    (playerID : N) :
  ValidateMove state domMove playerID = Ok None →
  Pass domMove = true →
  let other := getOtherPlayer state playerID in
  let score1 := calculateHandScore (handOf (PlayerHands state) (Player1ID state)) in
  let score2 := calculateHandScore (handOf (PlayerHands state) (Player2ID state)) in
  ∃ state' blocked,
    ApplyMove state domMove playerID = Ok state'
    ∧ canPlayerPlay state playerID = Ok false
    ∧ canPlayerPlay state other = Ok (negb blocked)
    ∧ PlayerHands state' = PlayerHands state
    ∧ Board state' = Board state
    ∧ BoneYard state' = BoneYard state
    ∧ CurrentTurn state' = other
    ∧ GameEnded state' = blocked
    ∧ (blocked = true →
       Winner state' = (if score1 <? score2 then Some (Player1ID state)
                        else if score2 <? score1 then Some (Player2ID state)
                        else None)
       ∧ Engine.IsDraw (GetGameStatus state') = bool_decide (score1 = score2)).
Proof.
  intros Hvalid Hpass other score1 score2.
  unfold ValidateMove in Hvalid. unfold ApplyMove. rewrite Hpass in *.
  destruct (negb _); [done|]. destruct (GameEnded state) eqn:Hended; [done|].
  destruct (canPlayerPlay state playerID) as [[|]|] eqn:Hcan; [done| |done].
  change (canPlayerPlay (setTurn state (getOtherPlayer state playerID))
            (CurrentTurn (setTurn state (getOtherPlayer state playerID))))
    with (canPlayerPlay state other).
  destruct (canPlayerPlay_ok state other) as [b Hb]. rewrite Hb. cbn [rbind].
  exists (if negb b
          then endGame (setTurn state other) (determineWinnerByScore (setTurn state other))
          else setTurn state other), (negb b).
  rewrite negb_involutive.
  destruct b; cbn [negb].
  - repeat split; done.
  - do 8 (split; [done|]). intros _. split; [reflexivity|].
    change (Engine.IsDraw _) with
      (true && bool_decide
         ((if score1 <? score2 then Some (Player1ID state)
           else if score2 <? score1 then Some (Player2ID state) else None) = None)).
    cbn [andb]. apply bool_decide_ext.
    destruct (Z.ltb_spec score1 score2), (Z.ltb_spec score2 score1);
      split; try done; lia.
Qed.

Lemma getOtherPlayer_other (state : DominoGameState) (playerID : N) :
  Player1ID state ≠ Player2ID state →
  playerID = Player1ID state ∨ playerID = Player2ID state →
  getOtherPlayer state playerID ≠ playerID
  ∧ getOtherPlayer state (getOtherPlayer state playerID) = playerID.
Proof.
  intros Hids Hp. unfold getOtherPlayer.
  destruct Hp as [-> | ->].
  - rewrite N.eqb_refl.
    destruct (N.eqb_spec (Player2ID state) (Player1ID state)); split; congruence.
  - destruct (N.eqb_spec (Player2ID state) (Player1ID state)); [congruence|].
    rewrite N.eqb_refl. split; congruence.
Qed.

(** After a move the turn is the other player's, or the game has ended. *)
Lemma domino_ApplyMove_next (state state' : DominoGameState) (domMove : DominoMove)
    (playerID : N) :
  ApplyMove state domMove playerID = Ok state' →
  CurrentTurn state' = getOtherPlayer state playerID ∨ GameEnded state' = true.
Proof.
  unfold ApplyMove. destruct (Pass domMove).
  - cbn zeta.
    destruct (canPlayerPlay _ _) as [[|]|]; cbn [rbind negb]; [| |done];
      intros [= <-]; [left|right]; reflexivity.
  - cbn zeta. destruct (removeTile _ _) as [hand'|];
      (match goal with
       | |- context [rbind ?b _] => destruct b as [board|]; cbn [rbind]; [|done]
       end);
      case_decide; intros [= <-]; [right|left|right|left]; reflexivity.
Qed.

(** X9.  Between two players with different identifiers, the player whose
    move [ApplyMove] has applied cannot move again in the state it leads
    to: the turn is the opponent's, or the game has ended. *)
Theorem domino_ApplyMove_hands_over_the_turn (state state' : DominoGameState)
    (domMove next : DominoMove) (playerID : N) :
  Player1ID state ≠ Player2ID state →
  playerID = Player1ID state ∨ playerID = Player2ID state →
  ApplyMove state domMove playerID = Ok state' →
  ValidateMove state' next playerID = Ok (Some "not player's turn")
  ∨ ValidateMove state' next playerID = Ok (Some "game has already ended").
Proof.
  intros Hids Hp Happly.
  destruct (getOtherPlayer_other state playerID Hids Hp) as [Hother _].
  pose proof (domino_ApplyMove_next _ _ _ _ Happly) as Hnext.
  unfold ValidateMove.
  destruct (N.eqb_spec (CurrentTurn state') playerID) as [Heq|Hne]; [|by left].
  cbn [negb]. destruct Hnext as [Hturn|Hended]; [congruence|].
  rewrite Hended. by right.
Qed.

(** *** Instances *)

Lemma Initialize_deals_every_tile_witness :
  generateDominoSet ≡ₚ generateDominoSet
  ∧ ∃ state,
      Initialize generateDominoSet = Ok state
      ∧ BoneYard state = drop 14 generateDominoSet.
Proof.
  split; [reflexivity|].
  destruct (Initialize_deals_every_tile generateDominoSet) as (state & Hinit & _ & _ & Hyard);
    [reflexivity|].
  by exists state.
Defined.

Lemma domino_ApplyMove_play_witness :
  (ValidateMove midGame playDoubleThree 1%N = Ok None ∧ Pass playDoubleThree = false)
  ∧ ∃ state',
      ApplyMove midGame playDoubleThree 1%N = Ok state'
      ∧ PlayerHands state' = <[1%N := [mkTile 1 2]]> (PlayerHands midGame)
      ∧ BoneYard state' = BoneYard midGame
      ∧ Engine.IsDraw (GetGameStatus state') = false.
Proof.
  split; [split; reflexivity|].
  destruct (domino_ApplyMove_play midGame playDoubleThree 1%N)
    as (state' & before & tile & after & placed & Happly & Hhand & Hbefore & Hsame
        & Hhands & _ & _ & Hyard & _ & _ & _ & Hdraw);
    [reflexivity|reflexivity|].
  exists state'. split; [exact Happly|]. split; [|split; [exact Hyard|exact Hdraw]].
  rewrite Hhands.
  assert (handOf (PlayerHands midGame) 1%N = [mkTile 3 3; mkTile 1 2]) as Hmid
    by reflexivity.
  rewrite Hmid in Hhand.
  destruct before as [|held before].
  - injection Hhand as <- <-. done.
  - injection Hhand as <- Hrest.
    apply Forall_cons in Hbefore as [Hheld _]. by vm_compute in Hheld.
Defined.

Lemma domino_ApplyMove_pass_witness :
  (ValidateMove blockedGame passMove 1%N = Ok None ∧ Pass passMove = true)
  ∧ ∃ state',
      ApplyMove blockedGame passMove 1%N = Ok state'
      ∧ Board state' = Board blockedGame
      ∧ CurrentTurn state' = 2%N.
Proof.
  split; [split; reflexivity|].
  destruct (domino_ApplyMove_pass blockedGame passMove 1%N)
    as (state' & blocked & Happly & _ & _ & _ & Hboard & _ & Hturn & _);
    [reflexivity|reflexivity|].
  by exists state'.
Defined.

Lemma domino_ApplyMove_keeps_chain_witness :
  chained (Board midGame)
  ∧ ∃ state',
      ApplyMove midGame playDoubleThree 1%N = Ok state' ∧ chained (Board state').
Proof.
  assert (chained (Board midGame)) as Hchain by (by vm_compute).
  split; [exact Hchain|].
  eexists. split; [reflexivity|].
  apply (domino_ApplyMove_keeps_chain midGame _ playDoubleThree 1%N Hchain);
    reflexivity.
Defined.

Lemma domino_ApplyMove_conserves_witness :
  (Player1ID midGame ≠ Player2ID midGame
   ∧ ValidateMove midGame playDoubleThree 1%N = Ok None)
  ∧ ∃ state',
      ApplyMove midGame playDoubleThree 1%N = Ok state'
      ∧ tileCount state' = tileCount midGame.
Proof.
  assert (Player1ID midGame ≠ Player2ID midGame) as Hids by (by vm_compute).
  split; [split; [exact Hids|reflexivity]|].
  eexists. split; [reflexivity|].
  apply (domino_ApplyMove_conserves midGame _ playDoubleThree 1%N Hids);
    [by left|reflexivity|reflexivity].
Defined.

Lemma domino_GetPossibleMoves_sound_witness :
  (CurrentTurn midGame = 1%N ∧ GameEnded midGame = false
   ∧ GetPossibleMoves midGame 1%N = Ok [playDoubleThree])
  ∧ ValidateMove midGame playDoubleThree 1%N = Ok None.
Proof.
  split; [repeat split; reflexivity|].
  apply (domino_GetPossibleMoves_sound midGame 1%N [playDoubleThree] playDoubleThree);
    [reflexivity|reflexivity|reflexivity|by left].
Defined.

Lemma domino_GetPossibleMoves_complete_witness :
  ValidateMove midGame playDoubleThree 1%N = Ok None
  ∧ ∃ moves mv,
      GetPossibleMoves midGame 1%N = Ok moves
      ∧ mv ∈ moves
      ∧ sameTile (Tile mv) (Tile playDoubleThree) = true.
Proof.
  split; [reflexivity|].
  destruct (domino_GetPossibleMoves_complete midGame 1%N playDoubleThree)
    as (moves & Hmoves & Hlisted); [reflexivity|].
  cbn [Pass playDoubleThree] in Hlisted.
  destruct Hlisted as (mv & Hin & _ & Hsame & _).
  by exists moves, mv.
Defined.

Lemma domino_ApplyMove_hands_over_the_turn_witness :
  Player1ID midGame ≠ Player2ID midGame
  ∧ ∃ state',
      ApplyMove midGame playDoubleThree 1%N = Ok state'
      ∧ (ValidateMove state' playDoubleThree 1%N = Ok (Some "not player's turn")
         ∨ ValidateMove state' playDoubleThree 1%N = Ok (Some "game has already ended")).
Proof.
  assert (Player1ID midGame ≠ Player2ID midGame) as Hids by (by vm_compute).
  split; [exact Hids|].
  eexists. split; [reflexivity|].
  apply (domino_ApplyMove_hands_over_the_turn midGame _ playDoubleThree playDoubleThree
           1%N Hids); [by left|reflexivity].
Defined.

End DominoFacts.

(** ** The chess engine *)

Section ChessFacts.
Import Chess.


Lemma isValidPosition_spec (pos : ChessPosition) :
  isValidPosition pos = true ↔ onBoard pos.
Proof. unfold isValidPosition, onBoard. lia. Qed.

Lemma isValidPosition_false (pos : ChessPosition) :
  isValidPosition pos = false ↔ ¬ onBoard pos.
Proof. rewrite <- isValidPosition_spec. destruct (isValidPosition pos); naive_solver. Qed.

Lemma cell_ok board (row col : Z) :
  onBoard (mkPos row col) → cell board row col = Ok (board row col).
Proof. intros H. unfold cell. apply isValidPosition_spec in H. by rewrite H. Qed.

Lemma cell_pos board (pos : ChessPosition) :
  onBoard pos → cell board (Row pos) (Col pos) = Ok (board (Row pos) (Col pos)).
Proof. intros H. apply cell_ok. by destruct pos. Qed.

Lemma pathLoop_ok board (dr dc : Z) (from to : ChessPosition) (n : Z) :
  onBoard from → onBoard to →
  -1 <= dr <= 1 → -1 <= dc <= 1 →
  Row to = Row from + n * dr → Col to = Col from + n * dc →
  ∀ (fuel : nat) (j : Z),
    0 <= j <= n → (Z.to_nat (n - j) < fuel)%nat →
    ∃ e, pathLoop board dr dc to fuel (Row from + j * dr) (Col from + j * dc) = Ok e.
Proof.
  intros Hfrom Hto Hdr Hdc Hrow Hcol.
  induction fuel as [|fuel IH]; intros j Hj Hfuel; [lia|].
  cbn [pathLoop].
  destruct (negb (Row from + j * dr =? Row to) || negb (Col from + j * dc =? Col to))
    eqn:Hloop; [|by eexists].
  assert (j < n) as Hlt.
  { destruct (decide (j = n)) as [->|]; [|lia].
    rewrite <- Hrow, <- Hcol, !Z.eqb_refl in Hloop. done. }
  rewrite cell_ok; last first.
  { unfold onBoard in *. simpl.
    assert (dr = -1 ∨ dr = 0 ∨ dr = 1) as [->|[->| ->]] by lia;
    assert (dc = -1 ∨ dc = 0 ∨ dc = 1) as [->|[->| ->]] by lia; lia. }
  simpl. destruct (isNil _); simpl; [|by eexists].
  replace (Row from + j * dr + dr) with (Row from + (j + 1) * dr) by lia.
  replace (Col from + j * dc + dc) with (Col from + (j + 1) * dc) by lia.
  apply IH; lia.
Qed.

(** On a rank, a file or a diagonal [checkPathClear] terminates without
    leaving the board. *)
Lemma checkPathClear_ok (state : ChessGameState) (from to : ChessPosition) :
  onBoard from → onBoard to →
  Row from = Row to ∨ Col from = Col to
  ∨ Z.abs (Row to - Row from) = Z.abs (Col to - Col from) →
  ∃ e, checkPathClear state from to = Ok e.
Proof.
  intros Hfrom Hto Hline. unfold checkPathClear.
  set (dr := if Row to >? Row from then 1 else if Row to <? Row from then -1 else 0).
  set (dc := if Col to >? Col from then 1 else if Col to <? Col from then -1 else 0).
  set (n := Z.max 1 (Z.max (Z.abs (Row to - Row from)) (Z.abs (Col to - Col from)))).
  replace (Row from + dr) with (Row from + 1 * dr) by lia.
  replace (Col from + dc) with (Col from + 1 * dc) by lia.
  unfold onBoard in *.
  apply (pathLoop_ok _ dr dc from to n); try done; subst dr dc n;
    repeat case_match; lia.
Qed.

Lemma validatePawnMove_ok (state : ChessGameState) (move : ChessMove) (color : string) :
  onBoard (From move) → onBoard (To move) →
  ∃ e, validatePawnMove state move color = Ok e.
Proof.
  intros Hfrom Hto. unfold validatePawnMove.
  rewrite !(cell_pos _ _ Hto). cbn [rbind].
  set (direction := if String.eqb color "black" then -1 else 1).
  set (startRow := if String.eqb color "black" then 1 else 6).
  assert (Row (From move) = startRow →
          cell (Board state) (Row (From move) + direction) (Col (From move))
          = Ok (Board state (Row (From move) + direction) (Col (From move)))) as Hmid.
  { intros Hstart. apply cell_ok. unfold onBoard in *. simpl.
    subst direction startRow. destruct (String.eqb color "black"); lia. }
  destruct (isNil (Board state (Row (To move)) (Col (To move)))); simpl.
  - destruct (Col (To move) - Col (From move) =? 0); simpl;
      [|repeat (case_match; simpl); by eexists].
    destruct (Row (To move) - Row (From move) =? direction); simpl;
      [by eexists|].
    destruct ((Row (To move) - Row (From move) =? 2 * direction)
              && (Row (From move) =? startRow)) eqn:Htwo; simpl.
    + rewrite Hmid by lia. simpl. repeat (case_match; simpl); by eexists.
    + repeat (case_match; simpl); by eexists.
  - repeat (case_match; simpl); by eexists.
Qed.

Lemma validateRookMove_ok (state : ChessGameState) (move : ChessMove) :
  onBoard (From move) → onBoard (To move) →
  ∃ e, validateRookMove state move = Ok e.
Proof.
  intros Hfrom Hto. unfold validateRookMove.
  destruct (negb (Row (From move) =? Row (To move))
            && negb (Col (From move) =? Col (To move))) eqn:Hline; [by eexists|].
  apply checkPathClear_ok; [done..|]. lia.
Qed.

(** The differences of two coordinates of the board are far from the
    64-bit bounds: [abs] is the absolute value there. *)
Ltac plain_abs := unfold onBoard in *; rewrite !abs_small by lia.

Lemma validateBishopMove_ok (state : ChessGameState) (move : ChessMove) :
  onBoard (From move) → onBoard (To move) →
  ∃ e, validateBishopMove state move = Ok e.
Proof.
  intros Hfrom Hto. unfold validateBishopMove.
  plain_abs.
  destruct (negb _) eqn:Hline; [by eexists|].
  apply checkPathClear_ok; [done..|]. lia.
Qed.

Lemma validatePieceMove_ok (state : ChessGameState) (move : ChessMove) (piece : ChessPiece) :
  onBoard (From move) → onBoard (To move) →
  ∃ e, validatePieceMove state move piece = Ok e.
Proof.
  intros Hfrom Hto. unfold validatePieceMove.
  destruct (validateRookMove_ok state move Hfrom Hto) as [r Hr].
  destruct (validateBishopMove_ok state move Hfrom Hto) as [b Hb].
  repeat case_match; eauto using validatePawnMove_ok.
  - unfold validateKnightMove. case_match; by eexists.
  - unfold validateQueenMove. rewrite Hr, Hb. simpl. repeat (case_match; simpl); by eexists.
  - unfold validateKingMove. case_match; by eexists.
Qed.

(** [validateChessMove] checks the two positions before it reads the board:
    it returns on every input. *)
Lemma validateChessMove_ok (state : ChessGameState) (move : ChessMove) (color : string) :
  ∃ e, validateChessMove state move color = Ok e.
Proof.
  unfold validateChessMove.
  destruct (isValidPosition (From move)) eqn:Hfrom; [|by eexists].
  destruct (isValidPosition (To move)) eqn:Hto; [|by eexists].
  apply isValidPosition_spec in Hfrom, Hto. simpl.
  rewrite (cell_pos _ _ Hfrom), (cell_pos _ _ Hto). simpl.
  destruct (Board state (Row (From move)) (Col (From move))) as [fromPiece|];
    [|by eexists].
  destruct (negb _); [by eexists|]. simpl.
  case_match; [by eexists|]. by apply validatePieceMove_ok.
Qed.

(** What an accepted move has passed. *)
Lemma validateChessMove_nil (state : ChessGameState) (move : ChessMove) (color : string) :
  validateChessMove state move color = Ok None →
  onBoard (From move) ∧ onBoard (To move)
  ∧ ∃ fromPiece,
      Board state (Row (From move)) (Col (From move)) = Some fromPiece
      ∧ Color fromPiece = color
      ∧ (∀ tp, Board state (Row (To move)) (Col (To move)) = Some tp → Color tp ≠ color)
      ∧ validatePieceMove state move fromPiece = Ok None.
Proof.
  unfold validateChessMove.
  destruct (isValidPosition (From move)) eqn:Hfrom; [|done].
  destruct (isValidPosition (To move)) eqn:Hto; [|done].
  apply isValidPosition_spec in Hfrom, Hto. simpl.
  rewrite (cell_pos _ _ Hfrom), (cell_pos _ _ Hto). simpl.
  destruct (Board state (Row (From move)) (Col (From move))) as [fromPiece|];
    [|done].
  destruct (String.eqb (Color fromPiece) color) eqn:Hcolor; [|done]. simpl.
  apply String.eqb_eq in Hcolor.
  intros Hrule. split; [done|]. split; [done|]. exists fromPiece.
  split; [done|]. split; [done|].
  destruct (Board state (Row (To move)) (Col (To move))) as [tp|].
  - destruct (String.eqb (Color tp) color) eqn:Htp; [done|].
    apply String.eqb_neq in Htp. split; [|done]. by intros ? [= <-].
  - done.
Qed.

Lemma validateChessMove_distinct (state : ChessGameState) (move : ChessMove) (color : string) :
  validateChessMove state move color = Ok None →
  ¬ (Row (From move) = Row (To move) ∧ Col (From move) = Col (To move)).
Proof.
  intros Hnil [Hr Hc].
  destruct (validateChessMove_nil _ _ _ Hnil) as (_ & _ & fp & Hfp & Hcol & Hto & _).
  rewrite Hr, Hc in Hfp. by apply (Hto fp).
Qed.

(** *** The cells of the board *)

Lemma cells_spec (row col : Z) : (row, col) ∈ cells ↔ onBoard (mkPos row col).
Proof.
  unfold cells, onBoard. cbn [Row Col].
  rewrite list_elem_of_In, in_flat_map. split.
  - intros (r & Hr & Hin). apply in_map_iff in Hin as (c & [= <- <-] & Hc).
    apply list_elem_of_In, elem_of_seqZ in Hr.
    apply list_elem_of_In, elem_of_seqZ in Hc. lia.
  - intros [Hr Hc]. exists row. split.
    + apply list_elem_of_In, elem_of_seqZ. lia.
    + apply in_map_iff. exists col. split; [done|].
      apply list_elem_of_In, elem_of_seqZ. lia.
Qed.

Lemma cells_NoDup : NoDup cells.
Proof. apply (bool_decide_unpack (NoDup cells)). by vm_compute. Qed.

(** A property of two cells that a computation over the 64 x 64 pairs
    confirms holds for every two positions of the board. *)
Lemma over_cells (P : ChessPosition → ChessPosition → bool) :
  forallb (fun f => forallb (fun t => P (mkPos f.1 f.2) (mkPos t.1 t.2)) cells) cells = true →
  ∀ from to, onBoard from → onBoard to → P from to = true.
Proof.
  intros Hall [fr fc] [tr tc] Hfrom Hto.
  rewrite forallb_forall in Hall.
  specialize (Hall (fr, fc)). rewrite forallb_forall in Hall.
  apply (Hall (proj1 (list_elem_of_In _ _) (proj2 (cells_spec fr fc) Hfrom)) (tr, tc)).
  apply list_elem_of_In, cells_spec, Hto.
Qed.


Lemma pieceCount_ext (b1 b2 : Z → Z → option ChessPiece) :
  (∀ r c, isNil (b1 r c) = isNil (b2 r c)) → pieceCount b1 = pieceCount b2.
Proof.
  intros Hext. unfold pieceCount. induction cells as [|rc l IH]; [done|].
  simpl. by rewrite Hext, IH.
Qed.

Lemma count_update (b : Z → Z → option ChessPiece) (row col : Z) (v : bool)
    (l : list (Z * Z)) (b' : Z → Z → option ChessPiece) :
  NoDup l →
  (∀ r c, isNil (b' r c) = if (r =? row) && (c =? col) then v else isNil (b r c)) →
  foldr (fun rc n => (if isNil (b' rc.1 rc.2) then 0 else 1) + n) 0 l
  = foldr (fun rc n => (if isNil (b rc.1 rc.2) then 0 else 1) + n) 0 l
    + (if bool_decide ((row, col) ∈ l)
       then indicator (b row col) * -1 + (if v then 0 else 1) else 0).
Proof.
  intros Hnd Hb'. induction Hnd as [|[r c] l Hnotin Hnd IH]; [done|].
  cbn [foldr fst snd]. rewrite IH, Hb'. clear IH.
  destruct (decide ((r, c) = (row, col))) as [[= -> ->]|Hne].
  - rewrite !Z.eqb_refl. simpl.
    rewrite (bool_decide_eq_true_2 ((row, col) ∈ (row, col) :: l)) by (by left).
    rewrite (bool_decide_eq_false_2 _ Hnotin). unfold indicator.
    destruct v, (isNil (b row col)); lia.
  - replace ((r =? row) && (c =? col)) with false; last first.
    { symmetry. apply andb_false_iff.
      destruct (Z.eqb_spec r row) as [->|]; [right|by left].
      destruct (Z.eqb_spec c col) as [->|]; done. }
    rewrite (bool_decide_ext ((row, col) ∈ (r, c) :: l) ((row, col) ∈ l)); [lia|].
    rewrite elem_of_cons. split; [intros [Heq|Hin]|by right]; [|done].
    by destruct Hne.
Qed.

Lemma pieceCount_update (b b' : Z → Z → option ChessPiece) (row col : Z) (v : bool) :
  onBoard (mkPos row col) →
  (∀ r c, isNil (b' r c) = if (r =? row) && (c =? col) then v else isNil (b r c)) →
  pieceCount b' = pieceCount b - indicator (b row col) + (if v then 0 else 1).
Proof.
  intros Hon Hb'. unfold pieceCount.
  rewrite (count_update b row col v cells b' cells_NoDup Hb').
  rewrite bool_decide_eq_true_2 by (by apply cells_spec). lia.
Qed.

(** *** Applying a move *)

Lemma applyChessMove_ok (state : ChessGameState) (move : ChessMove) (color : string)
    (piece : ChessPiece) :
  onBoard (From move) → onBoard (To move) →
  Board state (Row (From move)) (Col (From move)) = Some piece →
  ∃ state',
    applyChessMove state move color = Ok state'
    ∧ ∀ r c,
        isNil (Board state' r c)
        = if (r =? Row (From move)) && (c =? Col (From move)) then true
          else if (r =? Row (To move)) && (c =? Col (To move)) then false
          else isNil (Board state r c).
Proof.
  intros Hfrom Hto Hpiece. unfold applyChessMove, setCell.
  rewrite (cell_pos _ _ Hfrom), Hpiece. cbn [rbind].
  assert (isValidPosition {| Row := Row (To move); Col := Col (To move) |} = true) as ->
    by (apply isValidPosition_spec; apply Hto).
  assert (isValidPosition {| Row := Row (From move); Col := Col (From move) |} = true) as ->
    by (apply isValidPosition_spec; apply Hfrom).
  cbn [rbind]. eexists. split; [reflexivity|].
  intros r c. cbn [Board withBoard].
  destruct ((r =? Row (From move)) && (c =? Col (From move))); [done|].
  destruct ((r =? Row (To move)) && (c =? Col (To move))); [done|].
  by destruct (Board state r c).
Qed.

Lemma chess_ApplyMove_Board (state1 : ChessGameState) :
  Board (updateGameStatus (nextTurn state1)) = Board state1.
Proof. unfold updateGameStatus. by repeat case_match. Qed.

(** A validated move is applied, and the cells of the new board are those
    of the old one but for the source, now empty, and the destination, now
    occupied. *)
Lemma chess_ApplyMove_validated (state : ChessGameState) (move : ChessMove) (playerID : N) :
  ValidateMove state move playerID = Ok None →
  ∃ state',
    ApplyMove state move playerID = Ok state'
    ∧ pieceCount (Board state')
      = pieceCount (Board state)
        - indicator (Board state (Row (To move)) (Col (To move))).
Proof.
  intros Hvalid. unfold ValidateMove in Hvalid.
  destruct (negb _); [done|]. destruct (GameEnded state); [done|].
  destruct (validateChessMove_nil _ _ _ Hvalid) as (Hfrom & Hto & fp & Hfp & _).
  destruct (applyChessMove_ok state move (getPlayerColor state playerID) fp Hfrom Hto Hfp)
    as (state1 & Happly & Hcells).
  exists (updateGameStatus (nextTurn state1)). split.
  { unfold ApplyMove. by rewrite Happly. }
  rewrite chess_ApplyMove_Board.
  set (mid := fun r c : Z =>
                if (r =? Row (To move)) && (c =? Col (To move))
                then Some fp else Board state r c).
  rewrite (pieceCount_update mid (Board state1) (Row (From move)) (Col (From move)) true);
    [|by destruct (From move)|]; last first.
  { intros r c. rewrite Hcells. unfold mid.
    destruct ((r =? Row (From move)) && (c =? Col (From move))); [done|].
    by destruct ((r =? Row (To move)) && (c =? Col (To move))). }
  rewrite (pieceCount_update (Board state) mid (Row (To move)) (Col (To move)) false);
    [|by destruct (To move)|]; last first.
  { intros r c. unfold mid.
    by destruct ((r =? Row (To move)) && (c =? Col (To move))). }
  assert (indicator (mid (Row (From move)) (Col (From move))) = 1) as ->.
  { unfold mid, indicator.
    destruct (Z.eqb_spec (Row (From move)) (Row (To move)));
      destruct (Z.eqb_spec (Col (From move)) (Col (To move))); simpl;
      rewrite ?Hfp; done. }
  lia.
Qed.

(** *** Enumeration *)








Lemma covers_sound rule gen :
  forallb (fun f => forallb (fun t => covers rule gen (mkPos f.1 f.2) (mkPos t.1 t.2))
                      cells) cells = true →
  ∀ from to, onBoard from → onBoard to →
    rule from to = true → samePosition from to = false →
    basicMove from (Row to) (Col to) ∈ gen from.
Proof.
  intros Hall from to Hfrom Hto Hrule Hsame.
  pose proof (over_cells _ Hall from to Hfrom Hto) as Hc.
  unfold covers in Hc. rewrite Hrule, Hsame in Hc. simpl in Hc.
  by apply bool_decide_eq_true in Hc.
Qed.

Lemma generateRookMoves_complete from to :
  onBoard from → onBoard to → rookRule from to = true → samePosition from to = false →
  basicMove from (Row to) (Col to) ∈ generateRookMoves from.
Proof. apply covers_sound. by vm_compute. Qed.

Lemma generateBishopMoves_complete from to :
  onBoard from → onBoard to → bishopRule from to = true → samePosition from to = false →
  basicMove from (Row to) (Col to) ∈ generateBishopMoves from.
Proof. apply covers_sound. by vm_compute. Qed.

Lemma generateKnightMoves_complete from to :
  onBoard from → onBoard to → knightRule from to = true → samePosition from to = false →
  basicMove from (Row to) (Col to) ∈ generateKnightMoves from.
Proof. apply covers_sound. by vm_compute. Qed.

Lemma generateKingMoves_complete from to :
  onBoard from → onBoard to → kingRule from to = true → samePosition from to = false →
  basicMove from (Row to) (Col to) ∈ generateKingMoves from.
Proof. apply covers_sound. by vm_compute. Qed.

Lemma generatePawnMoves_complete state color from to :
  onBoard from → onBoard to → pawnRule color from to = true → samePosition from to = false →
  basicMove from (Row to) (Col to) ∈ generatePawnMoves state from color.
Proof.
  destruct (String.eqb color "black") eqn:Hcolor.
  - apply String.eqb_eq in Hcolor as ->.
    apply (covers_sound (pawnRule "black")
             (fun from => generatePawnMoves state from "black")).
    by vm_compute.
  - replace (pawnRule color from to) with (pawnRule "white" from to)
      by (unfold pawnRule; by rewrite Hcolor).
    replace (generatePawnMoves state from color)
      with (generatePawnMoves state from "white")
      by (unfold generatePawnMoves; by rewrite Hcolor).
    apply (covers_sound (pawnRule "white")
             (fun from => generatePawnMoves state from "white")).
    by vm_compute.
Qed.

Lemma validatePawnMove_rule state move color :
  onBoard (From move) → onBoard (To move) →
  validatePawnMove state move color = Ok None →
  pawnRule color (From move) (To move) = true.
Proof.
  intros Hfrom Hto. unfold validatePawnMove, pawnRule.
  rewrite !(cell_pos _ _ Hto). cbn [rbind].
  plain_abs.
  intros Hnil.
  destruct (String.eqb color "black");
    repeat (case_match; cbn [rbind] in *; simplify_eq); lia.
Qed.

Lemma validateRookMove_rule state move :
  validateRookMove state move = Ok None → rookRule (From move) (To move) = true.
Proof.
  unfold validateRookMove, rookRule. case_match; [done|]. intros _. lia.
Qed.

Lemma validateBishopMove_rule state move :
  onBoard (From move) → onBoard (To move) →
  validateBishopMove state move = Ok None → bishopRule (From move) (To move) = true.
Proof.
  intros Hfrom Hto. unfold validateBishopMove, bishopRule.
  plain_abs.
  case_match; [done|]. intros _. lia.
Qed.

Lemma validateKnightMove_rule move :
  onBoard (From move) → onBoard (To move) →
  validateKnightMove move = Ok None → knightRule (From move) (To move) = true.
Proof.
  intros Hfrom Hto. unfold validateKnightMove, knightRule.
  plain_abs. by case_match.
Qed.

Lemma validateKingMove_rule move :
  onBoard (From move) → onBoard (To move) →
  validateKingMove move = Ok None → kingRule (From move) (To move) = true.
Proof.
  intros Hfrom Hto. unfold validateKingMove, kingRule.
  plain_abs. case_match; [|done]. lia.
Qed.

Lemma validateQueenMove_rule state move :
  onBoard (From move) → onBoard (To move) →
  validateQueenMove state move = Ok None →
  rookRule (From move) (To move) = true ∨ bishopRule (From move) (To move) = true.
Proof.
  intros Hfrom Hto. unfold validateQueenMove.
  destruct (validateRookMove state move) as [[r|]|] eqn:Hr; simpl; [|intros _|done].
  - destruct (validateBishopMove state move) as [[b|]|] eqn:Hb; simpl; [done| |done].
    intros _. right. by eapply validateBishopMove_rule.
  - left. by eapply validateRookMove_rule.
Qed.

(** The candidate list of the piece on [From] holds the move to every cell
    its rule accepts. *)
Lemma validated_is_candidate state move piece :
  onBoard (From move) → onBoard (To move) →
  samePosition (From move) (To move) = false →
  Board state (Row (From move)) (Col (From move)) = Some piece →
  validatePieceMove state move piece = Ok None →
  ∃ moves,
    generatePieceMoves state (From move) = Ok moves
    ∧ basicMove (From move) (Row (To move)) (Col (To move)) ∈ moves.
Proof.
  intros Hfrom Hto Hsame Hpiece. unfold validatePieceMove, generatePieceMoves.
  rewrite (cell_pos _ _ Hfrom), Hpiece. cbn [rbind].
  intros Hrule. eexists. split; [reflexivity|].
  destruct (String.eqb (Type_ piece) "pawn").
  { apply generatePawnMoves_complete; eauto using validatePawnMove_rule. }
  destruct (String.eqb (Type_ piece) "rook").
  { apply generateRookMoves_complete; eauto using validateRookMove_rule. }
  destruct (String.eqb (Type_ piece) "knight").
  { apply generateKnightMoves_complete; eauto using validateKnightMove_rule. }
  destruct (String.eqb (Type_ piece) "bishop").
  { apply generateBishopMoves_complete; eauto using validateBishopMove_rule. }
  destruct (String.eqb (Type_ piece) "queen").
  { unfold generateQueenMoves. apply elem_of_app.
    destruct (validateQueenMove_rule _ _ Hfrom Hto Hrule);
      [left; by apply generateRookMoves_complete
      |right; by apply generateBishopMoves_complete]. }
  destruct (String.eqb (Type_ piece) "king").
  { apply generateKingMoves_complete; eauto using validateKingMove_rule. }
  done.
Qed.

(** Validation reads the two cells of a move and nothing else of it. *)
Lemma validateChessMove_basic state move color :
  validateChessMove state (basicMove (From move) (Row (To move)) (Col (To move))) color
  = validateChessMove state move color.
Proof. by destruct move as [from [tr tc] promotion castling]. Qed.

Lemma keepValid_spec state color (moves : list ChessMove) :
  ∀ possibleMoves,
    ∃ out,
      keepValid state color moves possibleMoves = Ok out
      ∧ (∀ x, x ∈ possibleMoves → x ∈ out)
      ∧ (∀ x, x ∈ moves → validateChessMove state x color = Ok None → x ∈ out).
Proof.
  induction moves as [|move rest IH]; intros acc.
  - exists acc. split; [done|]. split; [done|]. intros x Hx. by apply elem_of_nil in Hx.
  - cbn [keepValid].
    destruct (validateChessMove_ok state move color) as [e He]. rewrite He. cbn [rbind].
    destruct (IH (if e is None then acc ++ [move] else acc)) as (out & Hout & Hacc & Hnew).
    exists out. split; [done|]. split.
    + intros x Hx. apply Hacc. destruct e; [done|]. apply elem_of_app. by left.
    + intros x Hx Hvalid. apply elem_of_cons in Hx as [->|Hx]; [|by apply Hnew].
      apply Hacc. rewrite Hvalid in He. injection He as <-.
      apply elem_of_app. right. by apply list_elem_of_singleton.
Qed.

Lemma scanBoard_spec state color (todo : list (Z * Z)) :
  (∀ rc, rc ∈ todo → onBoard (mkPos rc.1 rc.2)) →
  ∀ possibleMoves,
    ∃ out,
      scanBoard state color todo possibleMoves = Ok out
      ∧ (∀ x, x ∈ possibleMoves → x ∈ out)
      ∧ (∀ row col piece moves x,
           (row, col) ∈ todo →
           Board state row col = Some piece → Color piece = color →
           generatePieceMoves state (mkPos row col) = Ok moves →
           x ∈ moves → validateChessMove state x color = Ok None → x ∈ out).
Proof.
  induction todo as [|[row col] rest IH]; intros Hon acc.
  - exists acc. split; [done|]. split; [done|].
    intros ????? Hin. by apply elem_of_nil in Hin.
  - cbn [scanBoard].
    assert (onBoard (mkPos row col)) as Hrc by (apply (Hon (row, col)); by left).
    rewrite (cell_ok _ _ _ Hrc). cbn [rbind].
    assert (∀ rc, rc ∈ rest → onBoard (mkPos rc.1 rc.2)) as Hrest
      by (intros rc Hin; apply Hon; by right).
    destruct (Board state row col) as [p|] eqn:Hp; cbn [rbind].
    + destruct (String.eqb (Color p) color) eqn:Hcolor.
      * unfold generatePieceMoves at 1. cbn [Row Col].
        rewrite (cell_ok _ _ _ Hrc), Hp. cbn [rbind].
        match goal with
        | |- context [keepValid state color ?ms acc] =>
            destruct (keepValid_spec state color ms acc) as (mid & -> & Hacc & Hnew)
        end.
        cbn [rbind].
        destruct (IH Hrest mid) as (out & -> & Hmid & Hlater).
        exists out. split; [done|]. split; [by auto|].
        intros row' col' piece moves x Hin Hpiece Hpc Hgen Hx Hvalid.
        apply elem_of_cons in Hin as [[= -> ->]|Hin]; [|by eauto].
        apply Hmid, Hnew; [|done].
        unfold generatePieceMoves in Hgen. cbn [Row Col] in Hgen.
        rewrite (cell_ok _ _ _ Hrc), Hp in Hgen. cbn [rbind] in Hgen.
        by injection Hgen as <-.
      * cbn [rbind].
        destruct (IH Hrest acc) as (out & -> & Hacc & Hlater).
        exists out. split; [done|]. split; [done|].
        intros row' col' piece moves x Hin Hpiece Hpc Hgen Hx Hvalid.
        apply elem_of_cons in Hin as [[= -> ->]|Hin]; [|by eauto].
        rewrite Hp in Hpiece. injection Hpiece as ->.
        apply String.eqb_neq in Hcolor. done.
    + destruct (IH Hrest acc) as (out & -> & Hacc & Hlater).
      exists out. split; [done|]. split; [done|].
      intros row' col' piece moves x Hin Hpiece Hpc Hgen Hx Hvalid.
      apply elem_of_cons in Hin as [[= -> ->]|Hin]; [|by eauto].
      by rewrite Hp in Hpiece.
Qed.

(** [GetPossibleMoves] returns a list on every state. *)
Lemma chess_GetPossibleMoves_ok state playerID :
  ∃ moves, GetPossibleMoves state playerID = Ok moves.
Proof.
  unfold GetPossibleMoves.
  destruct (scanBoard_spec state (getPlayerColor state playerID) cells) with (possibleMoves := @nil ChessMove)
    as (out & Hout & _).
  - intros [r c] Hin. by apply cells_spec.
  - by exists out.
Qed.

(** An accepted pawn move goes one row on, towards row 7 for white and
    towards row 0 for black: the destination of an advance of two rows from
    the start row (6 for white, 1 for black) is off the board. *)
Lemma pawn_moves_one_row state move color piece :
  validateChessMove state move color = Ok None →
  Board state (Row (From move)) (Col (From move)) = Some piece →
  Type_ piece = "pawn" →
  Row (To move) - Row (From move) = (if String.eqb color "black" then -1 else 1).
Proof.
  intros Hvalid Hpiece Hpawn.
  destruct (validateChessMove_nil _ _ _ Hvalid)
    as (Hfrom & Hto & piece' & Hpiece' & Hcolor & _ & Hrule).
  rewrite Hpiece in Hpiece'. injection Hpiece' as <-.
  unfold validatePieceMove in Hrule. rewrite Hpawn in Hrule. cbn in Hrule.
  apply validatePawnMove_rule in Hrule; [|done..].
  unfold pawnRule in Hrule. rewrite Hcolor in Hrule. lia.
Qed.
(** C5, amended.  For every move that [ValidateMove] accepts,
    [GetPossibleMoves] returns a list that holds the move between the same
    two cells with no promotion and no castling tag. *)
Theorem C5_enumeration_complete_up_to_tags state move playerID :
  ValidateMove state move playerID = Ok None →
  ∃ moves,
    GetPossibleMoves state playerID = Ok moves
    ∧ basicMove (From move) (Row (To move)) (Col (To move)) ∈ moves.
Proof.
  intros Hvalid. unfold ValidateMove in Hvalid.
  destruct (negb _); [done|]. destruct (GameEnded state); [done|].
  set (color := getPlayerColor state playerID) in *.
  pose proof (validateChessMove_distinct _ _ _ Hvalid) as Hdistinct.
  destruct (validateChessMove_nil _ _ _ Hvalid)
    as (Hfrom & Hto & piece & Hpiece & Hcolor & _ & Hrule).
  assert (samePosition (From move) (To move) = false) as Hsame.
  { unfold samePosition. apply andb_false_iff.
    destruct (Z.eqb_spec (Row (From move)) (Row (To move))); [|by left].
    destruct (Z.eqb_spec (Col (From move)) (Col (To move))); [|by right].
    by destruct Hdistinct. }
  destruct (validated_is_candidate _ _ _ Hfrom Hto Hsame Hpiece Hrule)
    as (candidates & Hgen & Hin).
  unfold GetPossibleMoves. fold color.
  destruct (scanBoard_spec state color cells) with (possibleMoves := @nil ChessMove)
    as (out & Hout & _ & Hall).
  { intros [r c] Hrc. by apply cells_spec. }
  exists out. split; [done|].
  apply (Hall (Row (From move)) (Col (From move)) piece candidates); try done.
  - apply cells_spec. by destruct (From move).
  - by destruct (From move).
Qed.

(** C10.  The engine gives every identifier other than [WhitePlayer] the
    colour black, an identifier of neither player included.  For such an
    identifier [ValidateMove] is the turn check, the ended check and the
    move rules of black; when it is black's turn in a running game it is the
    move rules of black alone.  [ApplyMove] and [GetPossibleMoves] are those
    of black too, and any two identifiers other than [WhitePlayer] get the
    same answers from the three operations: none of them tells a
    participant from a stranger. *)
Theorem C10_non_white_is_black state move playerID :
  playerID ≠ WhitePlayer state →
  getPlayerColor state playerID = "black"
  ∧ ValidateMove state move playerID
    = (if negb (String.eqb "black" (CurrentTurn state)) then Ok (Some "not player's turn")
       else if GameEnded state then Ok (Some "game has already ended")
       else validateChessMove state move "black")
  ∧ (CurrentTurn state = "black" → GameEnded state = false →
     ValidateMove state move playerID = validateChessMove state move "black")
  ∧ ApplyMove state move playerID
    = (state' <~ applyChessMove state move "black" ;;
       Ok (updateGameStatus (nextTurn state')))
  ∧ GetPossibleMoves state playerID = scanBoard state "black" cells []
  ∧ ∀ other, other ≠ WhitePlayer state →
      ValidateMove state move playerID = ValidateMove state move other
      ∧ ApplyMove state move playerID = ApplyMove state move other
      ∧ GetPossibleMoves state playerID = GetPossibleMoves state other.
Proof.
  intros Hne.
  assert (∀ p, p ≠ WhitePlayer state → getPlayerColor state p = "black") as Hblack.
  { intros p Hp. unfold getPlayerColor. by rewrite (proj2 (N.eqb_neq _ _) Hp). }
  split; [by apply Hblack|].
  unfold ValidateMove, ApplyMove, GetPossibleMoves. rewrite (Hblack _ Hne).
  split; [reflexivity|].
  split; [by intros -> ->|].
  split; [reflexivity|].
  split; [reflexivity|].
  intros other Hother. rewrite (Hblack _ Hother).
  split; [reflexivity|]. split; reflexivity.
Qed.





(** C5 as stated fails.  White may push the pawn from (6, 0) to (7, 0) and
    ask for a knight: [ValidateMove] accepts the move, and the list of
    [GetPossibleMoves] does not hold it (the moves it lists carry no
    promotion tag). *)
Lemma C5_counterexample :
  ValidateMove promotionState knightPromotion 1%N = Ok None
  ∧ ∃ moves,
      GetPossibleMoves promotionState 1%N = Ok moves
      ∧ knightPromotion ∉ moves.
Proof.
  split; [by vm_compute|].
  eexists. split; [by vm_compute|].
  apply (bool_decide_unpack (_ ∉ _)). by vm_compute.
Qed.


Lemma C5_enumeration_complete_up_to_tags_witness :
  ValidateMove promotionState knightPromotion 1%N = Ok None
  ∧ ∃ moves,
      GetPossibleMoves promotionState 1%N = Ok moves
      ∧ basicMove (mkPos 6 0) 7 0 ∈ moves.
Proof.
  assert (ValidateMove promotionState knightPromotion 1%N = Ok None) as Hvalid
    by (by vm_compute).
  split; [exact Hvalid|].
  exact (C5_enumeration_complete_up_to_tags promotionState knightPromotion 1%N Hvalid).
Defined.

Lemma C10_non_white_is_black_witness :
  (outsider ≠ WhitePlayer blackToMove ∧ outsider ≠ BlackPlayer blackToMove)
  ∧ getPlayerColor blackToMove outsider = "black"
  ∧ ValidateMove blackToMove kingStep outsider = Ok None
  ∧ ApplyMove blackToMove kingStep outsider
    = ApplyMove blackToMove kingStep (BlackPlayer blackToMove).
Proof.
  assert (outsider ≠ WhitePlayer blackToMove) as Hne by done.
  split; [split; [exact Hne|done]|].
  destruct (C10_non_white_is_black blackToMove kingStep outsider Hne)
    as (Hcolor & _ & Hturn & _ & _ & Hsame).
  split; [exact Hcolor|]. split.
  - rewrite Hturn by reflexivity. by vm_compute.
  - apply (Hsame (BlackPlayer blackToMove)). done.
Defined.


(** *** What a move changes *)

Lemma samePosition_false (from to : ChessPosition) :
  ¬ (Row from = Row to ∧ Col from = Col to) → samePosition from to = false.
Proof. unfold samePosition. lia. Qed.

(** What [applyChessMove] returns on a move between two cells of the board
    from an occupied one. *)
Lemma applyChessMove_eq (state : ChessGameState) (move : ChessMove) (color : string)
    (piece : ChessPiece) :
  onBoard (From move) → onBoard (To move) →
  Board state (Row (From move)) (Col (From move)) = Some piece →
  ∃ state',
    applyChessMove state move color = Ok state'
    ∧ (∀ r c,
         Board state' r c
         = if (r =? Row (From move)) && (c =? Col (From move)) then None
           else if (r =? Row (To move)) && (c =? Col (To move))
                then Some (arrives piece move)
                else Board state r c)
    ∧ EnPassantTarget state'
      = (if String.eqb (Type_ (arrives piece move)) "pawn"
            && (abs (Row (To move) - Row (From move)) =? 2)
         then Some {| Row := Z.quot (Row (From move) + Row (To move)) 2;
                      Col := Col (From move) |}
         else None)
    ∧ CurrentTurn state' = CurrentTurn state
    ∧ MoveCount state' = MoveCount state
    ∧ WhitePlayer state' = WhitePlayer state ∧ BlackPlayer state' = BlackPlayer state
    ∧ GameEnded state' = GameEnded state ∧ Winner state' = Winner state
    ∧ (WhiteKingSideCastle state' = true → WhiteKingSideCastle state = true)
    ∧ (WhiteQueenSideCastle state' = true → WhiteQueenSideCastle state = true)
    ∧ (BlackKingSideCastle state' = true → BlackKingSideCastle state = true)
    ∧ (BlackQueenSideCastle state' = true → BlackQueenSideCastle state = true)
    ∧ (Type_ (arrives piece move) = "king" →
       if String.eqb color "white"
       then WhiteKingSideCastle state' = false ∧ WhiteQueenSideCastle state' = false
       else BlackKingSideCastle state' = false ∧ BlackQueenSideCastle state' = false).
Proof.
  intros Hfrom Hto Hpiece. unfold applyChessMove, setCell.
  rewrite (cell_pos _ _ Hfrom), Hpiece. cbn [rbind].
  assert (isValidPosition {| Row := Row (To move); Col := Col (To move) |} = true) as ->
    by (apply isValidPosition_spec; apply Hto).
  assert (isValidPosition {| Row := Row (From move); Col := Col (From move) |} = true) as ->
    by (apply isValidPosition_spec; apply Hfrom).
  cbn [rbind]. fold (arrives piece move).
  eexists. split; [reflexivity|].
  cbn [Board withBoard EnPassantTarget CurrentTurn MoveCount WhitePlayer BlackPlayer
       GameEnded Winner WhiteKingSideCastle WhiteQueenSideCastle BlackKingSideCastle
       BlackQueenSideCastle].
  split.
  { intros r c.
    destruct ((r =? Row (From move)) && (c =? Col (From move))); [done|].
    destruct ((r =? Row (To move)) && (c =? Col (To move))); [done|].
    by destruct (Board state r c). }
  do 7 (split; [done|]).
  destruct (String.eqb (Type_ (arrives piece move)) "king") eqn:Hking;
    destruct (String.eqb (Type_ (arrives piece move)) "rook") eqn:Hrook;
    destruct (String.eqb color "white");
    repeat split; intros; repeat case_match; try done.
  all: apply String.eqb_eq in H; rewrite H in Hking; done.
Qed.

Lemma chess_ApplyMove_inv (state state' : ChessGameState) (move : ChessMove) (playerID : N) :
  ApplyMove state move playerID = Ok state' →
  onBoard (From move) ∧ onBoard (To move)
  ∧ ∃ piece, Board state (Row (From move)) (Col (From move)) = Some piece.
Proof.
  unfold ApplyMove, applyChessMove, cell, setCell.
  destruct (isValidPosition {| Row := Row (From move); Col := Col (From move) |}) eqn:Hfrom;
    [|done].
  cbn [rbind].
  destruct (isValidPosition {| Row := Row (To move); Col := Col (To move) |}) eqn:Hto;
    [|done].
  cbn [rbind].
  apply isValidPosition_spec in Hfrom, Hto.
  destruct (Board state (Row (From move)) (Col (From move))) as [piece|]; [|done].
  intros _. split; [done|]. split; [done|]. by exists piece.
Qed.

(** [ApplyMove] on a move between two cells of the board from an occupied
    one: the state after [applyChessMove], the switch of turns and
    [updateGameStatus]. *)
Lemma chess_ApplyMove_eq (state : ChessGameState) (move : ChessMove) (playerID : N)
    (piece : ChessPiece) :
  onBoard (From move) → onBoard (To move) →
  Board state (Row (From move)) (Col (From move)) = Some piece →
  ∃ state1,
    applyChessMove state move (getPlayerColor state playerID) = Ok state1
    ∧ ApplyMove state move playerID = Ok (updateGameStatus (nextTurn state1)).
Proof.
  intros Hfrom Hto Hpiece.
  destruct (applyChessMove_eq state move (getPlayerColor state playerID) piece Hfrom Hto Hpiece)
    as (state1 & Happly & _).
  exists state1. split; [done|]. unfold ApplyMove. by rewrite Happly.
Qed.

Lemma updateGameStatus_fields (state : ChessGameState) :
  Board (updateGameStatus state) = Board state
  ∧ CurrentTurn (updateGameStatus state) = CurrentTurn state
  ∧ MoveCount (updateGameStatus state) = MoveCount state
  ∧ WhitePlayer (updateGameStatus state) = WhitePlayer state
  ∧ BlackPlayer (updateGameStatus state) = BlackPlayer state
  ∧ EnPassantTarget (updateGameStatus state) = EnPassantTarget state
  ∧ WhiteKingSideCastle (updateGameStatus state) = WhiteKingSideCastle state
  ∧ WhiteQueenSideCastle (updateGameStatus state) = WhiteQueenSideCastle state
  ∧ BlackKingSideCastle (updateGameStatus state) = BlackKingSideCastle state
  ∧ BlackQueenSideCastle (updateGameStatus state) = BlackQueenSideCastle state.
Proof. unfold updateGameStatus. by repeat case_match. Qed.

Lemma ValidateMove_nil (state : ChessGameState) (move : ChessMove) (playerID : N) :
  ValidateMove state move playerID = Ok None →
  getPlayerColor state playerID = CurrentTurn state
  ∧ GameEnded state = false
  ∧ validateChessMove state move (getPlayerColor state playerID) = Ok None.
Proof.
  unfold ValidateMove.
  destruct (String.eqb _ _) eqn:Hturn; [|done]. apply String.eqb_eq in Hturn.
  destruct (GameEnded state); [done|]. by cbn [negb].
Qed.

(** X10.  A validated chess move moves one piece and touches two cells:
    the source cell is empty afterwards, the destination holds the piece
    that stood on the source (of the mover's colour; a pawn arriving on
    row 0 or 7 with the type named by the move, a queen by default), and
    every other cell of the board is as before. *)
Theorem chess_ApplyMove_moves_one_piece
    (state : ChessGameState) (move : ChessMove) (playerID : N) :
  ValidateMove state move playerID = Ok None →
  ∃ state' piece,
    ApplyMove state move playerID = Ok state'
    ∧ Board state (Row (From move)) (Col (From move)) = Some piece
    ∧ Color piece = getPlayerColor state playerID
    ∧ Board state' (Row (From move)) (Col (From move)) = None
    ∧ Board state' (Row (To move)) (Col (To move)) = Some (arrives piece move)
    ∧ Color (arrives piece move) = Color piece
    ∧ ∀ r c,
        ¬ (r = Row (From move) ∧ c = Col (From move)) →
        ¬ (r = Row (To move) ∧ c = Col (To move)) →
        Board state' r c = Board state r c.
Proof.
  intros Hvalid. apply ValidateMove_nil in Hvalid as (_ & _ & Hvalid).
  pose proof (validateChessMove_distinct _ _ _ Hvalid) as Hdistinct.
  destruct (validateChessMove_nil _ _ _ Hvalid) as (Hfrom & Hto & piece & Hpiece & Hcolor & _).
  destruct (applyChessMove_eq state move (getPlayerColor state playerID) piece Hfrom Hto Hpiece)
    as (state1 & Happly & Hboard & _).
  exists (updateGameStatus (nextTurn state1)), piece.
  split; [unfold ApplyMove; by rewrite Happly|].
  split; [done|]. split; [done|].
  destruct (updateGameStatus_fields (nextTurn state1)) as (-> & _).
  cbn [Board nextTurn]. rewrite !Hboard, !Z.eqb_refl. cbn [andb].
  split; [done|]. split.
  { destruct (Z.eqb_spec (Row (To move)) (Row (From move)));
      destruct (Z.eqb_spec (Col (To move)) (Col (From move))); cbn [andb]; try done.
    destruct Hdistinct. by split. }
  split.
  { unfold arrives, setType. by repeat case_match. }
  intros r c Hnf Hnt. rewrite Hboard.
  destruct (Z.eqb_spec r (Row (From move))); destruct (Z.eqb_spec c (Col (From move)));
    cbn [andb]; try (destruct Hnf; by split);
    destruct (Z.eqb_spec r (Row (To move))); destruct (Z.eqb_spec c (Col (To move)));
    cbn [andb]; try (destruct Hnt; by split); done.
Qed.

Lemma getPlayerColor_cases (state : ChessGameState) (playerID : N) :
  getPlayerColor state playerID = "white" ∨ getPlayerColor state playerID = "black".
Proof. unfold getPlayerColor. case_match; [by left|by right]. Qed.

(** X11.  A validated chess move hands the turn to the other colour and
    counts one move; the two player identifiers stay, and the player who
    moved is refused any second move in the new state with
    [not player's turn]. *)
Theorem chess_ApplyMove_passes_the_turn
    (state : ChessGameState) (move : ChessMove) (playerID : N) :
  ValidateMove state move playerID = Ok None →
  ∃ state',
    ApplyMove state move playerID = Ok state'
    ∧ CurrentTurn state'
      = (if String.eqb (getPlayerColor state playerID) "white" then "black" else "white")
    ∧ MoveCount state' = add64 (MoveCount state) 1
    ∧ WhitePlayer state' = WhitePlayer state
    ∧ BlackPlayer state' = BlackPlayer state
    ∧ ∀ again, ValidateMove state' again playerID = Ok (Some "not player's turn").
Proof.
  intros Hvalid. apply ValidateMove_nil in Hvalid as (Hturn & _ & Hvalid).
  destruct (validateChessMove_nil _ _ _ Hvalid) as (Hfrom & Hto & piece & Hpiece & _).
  destruct (applyChessMove_eq state move (getPlayerColor state playerID) piece Hfrom Hto Hpiece)
    as (state1 & Happly & _ & _ & Hturn1 & Hcount1 & Hwhite1 & Hblack1 & _).
  exists (updateGameStatus (nextTurn state1)).
  split; [unfold ApplyMove; by rewrite Happly|].
  destruct (updateGameStatus_fields (nextTurn state1))
    as (_ & Hturn' & Hcount' & Hwhite' & Hblack' & _).
  assert (CurrentTurn (updateGameStatus (nextTurn state1))
          = (if String.eqb (getPlayerColor state playerID) "white" then "black" else "white"))
    as Hnext.
  { rewrite Hturn'. cbn [CurrentTurn nextTurn]. by rewrite Hturn1, Hturn. }
  split; [done|].
  split; [rewrite Hcount'; cbn [MoveCount nextTurn]; by rewrite Hcount1|].
  split; [rewrite Hwhite'; cbn [WhitePlayer nextTurn]; done|].
  split; [rewrite Hblack'; cbn [BlackPlayer nextTurn]; done|].
  intros again. unfold ValidateMove.
  assert (getPlayerColor (updateGameStatus (nextTurn state1)) playerID
          = getPlayerColor state playerID) as ->.
  { unfold getPlayerColor. rewrite Hwhite'. cbn [WhitePlayer nextTurn]. by rewrite Hwhite1. }
  rewrite Hnext.
  by destruct (getPlayerColor_cases state playerID) as [-> | ->].
Qed.

(** X12.  No state that a validated chess move produces has an en-passant
    target: the target is set for a pawn that advanced two rows, and no
    validated pawn move does (see [pawn_moves_one_row]). *)
Theorem chess_ApplyMove_clears_en_passant
    (state : ChessGameState) (move : ChessMove) (playerID : N) :
  ValidateMove state move playerID = Ok None →
  ∃ state',
    ApplyMove state move playerID = Ok state' ∧ EnPassantTarget state' = None.
Proof.
  intros Hvalid. apply ValidateMove_nil in Hvalid as (_ & _ & Hvalid).
  destruct (validateChessMove_nil _ _ _ Hvalid) as (Hfrom & Hto & piece & Hpiece & _).
  destruct (applyChessMove_eq state move (getPlayerColor state playerID) piece Hfrom Hto Hpiece)
    as (state1 & Happly & _ & Htarget & _).
  exists (updateGameStatus (nextTurn state1)).
  split; [unfold ApplyMove; by rewrite Happly|].
  destruct (updateGameStatus_fields (nextTurn state1)) as (_ & _ & _ & _ & _ & -> & _).
  cbn [EnPassantTarget nextTurn]. rewrite Htarget.
  destruct (String.eqb (Type_ (arrives piece move)) "pawn") eqn:Hpawn; [|done].
  assert (Type_ piece = "pawn") as Hwas.
  { unfold arrives in Hpawn.
    destruct (String.eqb (Type_ piece) "pawn") eqn:Hp; [by apply String.eqb_eq in Hp|].
    cbn [andb] in Hpawn. congruence. }
  pose proof (pawn_moves_one_row _ _ _ _ Hvalid Hpiece Hwas) as Hrow.
  assert ((abs (Row (To move) - Row (From move)) =? 2) = false) as ->; [|done].
  rewrite Hrow. by destruct (String.eqb _ "black").
Qed.

(** X13.  Castling rights are only ever lost: whenever [ApplyMove] returns
    a state, a right that holds in it held before; and when the piece that
    arrives is a king, both rights of the mover's colour are gone. *)
Theorem chess_castling_rights_only_shrink
    (state state' : ChessGameState) (move : ChessMove) (playerID : N) :
  ApplyMove state move playerID = Ok state' →
  (WhiteKingSideCastle state' = true → WhiteKingSideCastle state = true)
  ∧ (WhiteQueenSideCastle state' = true → WhiteQueenSideCastle state = true)
  ∧ (BlackKingSideCastle state' = true → BlackKingSideCastle state = true)
  ∧ (BlackQueenSideCastle state' = true → BlackQueenSideCastle state = true)
  ∧ ∀ piece,
      Board state' (Row (To move)) (Col (To move)) = Some piece →
      Type_ piece = "king" →
      if String.eqb (getPlayerColor state playerID) "white"
      then WhiteKingSideCastle state' = false ∧ WhiteQueenSideCastle state' = false
      else BlackKingSideCastle state' = false ∧ BlackQueenSideCastle state' = false.
Proof.
  intros Happlied.
  destruct (chess_ApplyMove_inv _ _ _ _ Happlied) as (Hfrom & Hto & piece & Hpiece).
  destruct (applyChessMove_eq state move (getPlayerColor state playerID) piece Hfrom Hto Hpiece)
    as (state1 & Happly & Hboard & _ & _ & _ & _ & _ & _ & _ & Hwk & Hwq & Hbk & Hbq & Hking).
  unfold ApplyMove in Happlied. rewrite Happly in Happlied. cbn [rbind] in Happlied.
  injection Happlied as <-.
  destruct (updateGameStatus_fields (nextTurn state1))
    as (-> & _ & _ & _ & _ & _ & -> & -> & -> & ->).
  cbn [nextTurn Board WhiteKingSideCastle WhiteQueenSideCastle BlackKingSideCastle
       BlackQueenSideCastle].
  do 4 (split; [done|]).
  intros arrived Harrived Htype. apply Hking.
  rewrite Hboard, !Z.eqb_refl in Harrived. cbn [andb] in Harrived.
  destruct ((Row (To move) =? Row (From move)) && (Col (To move) =? Col (From move)));
    [done|].
  by injection Harrived as ->.
Qed.

(** X14.  After a validated chess move the game is over exactly when a
    king is missing from the new board: the black player wins when the
    white king is missing, the white player when only the black king is;
    with both kings present the game goes on and the status names the
    player of the other colour as the next one.  The status never reports
    a draw. *)
Theorem chess_game_over_iff_king_missing
    (state : ChessGameState) (move : ChessMove) (playerID : N) :
  ValidateMove state move playerID = Ok None →
  ∃ state',
    ApplyMove state move playerID = Ok state'
    ∧ Engine.IsGameOver (GetGameStatus state')
      = negb (kingExists (Board state') true && kingExists (Board state') false)
    ∧ Engine.Winner (GetGameStatus state')
      = (if negb (kingExists (Board state') true) then Some (BlackPlayer state)
         else if negb (kingExists (Board state') false) then Some (WhitePlayer state)
         else Winner state)
    ∧ Engine.NextPlayer (GetGameStatus state')
      = (if kingExists (Board state') true && kingExists (Board state') false
         then Some (if String.eqb (getPlayerColor state playerID) "white"
                    then BlackPlayer state else WhitePlayer state)
         else None)
    ∧ Engine.IsDraw (GetGameStatus state') = false.
Proof.
  intros Hvalid. apply ValidateMove_nil in Hvalid as (Hturn & Hrunning & Hvalid).
  destruct (validateChessMove_nil _ _ _ Hvalid) as (Hfrom & Hto & piece & Hpiece & _).
  destruct (applyChessMove_eq state move (getPlayerColor state playerID) piece Hfrom Hto Hpiece)
    as (state1 & Happly & _ & _ & Hturn1 & _ & Hwhite1 & Hblack1 & Hended1 & Hwinner1 & _).
  exists (updateGameStatus (nextTurn state1)).
  split; [unfold ApplyMove; by rewrite Happly|].
  destruct (updateGameStatus_fields (nextTurn state1)) as (-> & _).
  unfold GetGameStatus, updateGameStatus.
  cbn [Engine.IsGameOver Engine.Winner Engine.NextPlayer Engine.IsDraw Board nextTurn].
  destruct (kingExists (Board state1) true); destruct (kingExists (Board state1) false);
    cbn [negb andb GameEnded Winner CurrentTurn WhitePlayer BlackPlayer nextTurn];
    rewrite ?Hended1, ?Hrunning, ?Hwinner1, ?Hturn1, ?Hwhite1, ?Hblack1, <- ?Hturn;
    cbn [negb andb]; try done.
  destruct (getPlayerColor_cases state playerID) as [-> | ->]; done.
Qed.

(** *** The enumeration lists validated moves only *)


Lemma slide_plain pos dr dc (n : nat) :
  ∀ i, Forall (plain pos) (slide pos dr dc i n).
Proof.
  induction n as [|n IH]; intros i; cbn [slide]; [done|].
  case_match; [done|]. constructor; [done|]. apply IH.
Qed.

Lemma slides_plain pos (dirs : list (Z * Z)) :
  Forall (plain pos) (flat_map (fun dir => slide pos dir.1 dir.2 1 7) dirs).
Proof.
  induction dirs as [|dir dirs IH]; cbn [flat_map]; [done|].
  apply Forall_app. split; [apply slide_plain|done].
Qed.

Lemma step_plain pos (offsets : list (Z * Z)) : Forall (plain pos) (step pos offsets).
Proof.
  unfold step. induction offsets as [|d offsets IH]; cbn [flat_map]; [done|].
  apply Forall_app. split; [|done]. case_match; [|done]. by constructor.
Qed.

Lemma generatePieceMoves_plain state pos moves :
  generatePieceMoves state pos = Ok moves → Forall (plain pos) moves.
Proof.
  unfold generatePieceMoves.
  destruct (cell (Board state) (Row pos) (Col pos)) as [[piece|]|]; cbn [rbind]; try done.
  intros [= <-].
  repeat case_match.
  - unfold generatePawnMoves. apply Forall_app. split.
    + case_match; [|done]. by constructor.
    + cbn [flat_map]. rewrite app_nil_r. apply Forall_app.
      split; (case_match; [|done]); by constructor.
  - apply slides_plain.
  - apply step_plain.
  - apply slides_plain.
  - apply Forall_app. split; apply slides_plain.
  - apply step_plain.
  - done.
Qed.

Lemma keepValid_sound state color (moves : list ChessMove) :
  ∀ possibleMoves out,
    keepValid state color moves possibleMoves = Ok out →
    ∀ x, x ∈ out →
         x ∈ possibleMoves ∨ (x ∈ moves ∧ validateChessMove state x color = Ok None).
Proof.
  induction moves as [|move rest IH]; intros acc out; cbn [keepValid].
  - intros [= <-] x Hx. by left.
  - destruct (validateChessMove state move color) as [e|] eqn:He; cbn [rbind]; [|done].
    intros Hout x Hx.
    destruct (IH _ _ Hout x Hx) as [Hacc | [Hin Hvalid]].
    + destruct e; [by left|].
      apply elem_of_app in Hacc as [Hacc | Hnew]; [by left|].
      apply list_elem_of_singleton in Hnew as ->. right. split; [by left|done].
    + right. split; [by right|done].
Qed.

Lemma scanBoard_sound state color (todo : list (Z * Z)) :
  ∀ possibleMoves out,
    scanBoard state color todo possibleMoves = Ok out →
    ∀ x, x ∈ out →
         x ∈ possibleMoves
         ∨ (Promotion x = "" ∧ Castling x = "" ∧ validateChessMove state x color = Ok None).
Proof.
  induction todo as [|[row col] rest IH]; intros acc out; cbn [scanBoard].
  - intros [= <-] x Hx. by left.
  - destruct (cell (Board state) row col) as [piece|]; cbn [rbind]; [|done].
    destruct piece as [p|]; cbn [rbind]; [|apply IH].
    destruct (String.eqb (Color p) color); cbn [rbind]; [|apply IH].
    destruct (generatePieceMoves state {| Row := row; Col := col |}) as [moves|] eqn:Hgen;
      cbn [rbind]; [|done].
    destruct (keepValid state color moves acc) as [mid|] eqn:Hkeep; cbn [rbind]; [|done].
    intros Hout x Hx.
    destruct (IH _ _ Hout x Hx) as [Hmid | Hdone]; [|by right].
    destruct (keepValid_sound _ _ _ _ _ Hkeep x Hmid) as [Hacc | [Hin Hvalid]]; [by left|].
    right. apply generatePieceMoves_plain in Hgen.
    rewrite Forall_forall in Hgen. by destruct (Hgen x Hin) as (_ & -> & ->).
Qed.

(** X15.  [GetPossibleMoves] lists exactly the moves without promotion and
    castling tag that the move rules accept for the player's colour.  It
    looks neither at whose turn it is nor at whether the game has ended;
    when it is the player's turn in a running game, every listed move
    passes [ValidateMove]. *)
Theorem chess_GetPossibleMoves_exact (state : ChessGameState) (playerID : N) :
  ∃ moves,
    GetPossibleMoves state playerID = Ok moves
    ∧ (∀ move,
         move ∈ moves
         ↔ Promotion move = "" ∧ Castling move = ""
           ∧ validateChessMove state move (getPlayerColor state playerID) = Ok None)
    ∧ (getPlayerColor state playerID = CurrentTurn state → GameEnded state = false →
       ∀ move, move ∈ moves → ValidateMove state move playerID = Ok None).
Proof.
  set (color := getPlayerColor state playerID).
  unfold GetPossibleMoves. fold color.
  destruct (scanBoard_spec state color cells) with (possibleMoves := @nil ChessMove)
    as (out & Hout & _ & Hall).
  { intros [r c] Hrc. by apply cells_spec. }
  exists out. split; [done|].
  assert (∀ move, move ∈ out →
            Promotion move = "" ∧ Castling move = ""
            ∧ validateChessMove state move color = Ok None) as Hsound.
  { intros move Hin.
    destruct (scanBoard_sound _ _ _ _ _ Hout move Hin) as [Hnil|]; [|done].
    by apply elem_of_nil in Hnil. }
  split.
  - intros move. split; [apply Hsound|].
    intros (Hpromotion & Hcastling & Hvalid).
    pose proof (validateChessMove_distinct _ _ _ Hvalid) as Hdistinct.
    destruct (validateChessMove_nil _ _ _ Hvalid)
      as (Hfrom & Hto & piece & Hpiece & Hcolor & _ & Hrule).
    assert (samePosition (From move) (To move) = false) as Hsame
      by (by apply samePosition_false).
    destruct (validated_is_candidate _ _ _ Hfrom Hto Hsame Hpiece Hrule)
      as (candidates & Hgen & Hin).
    assert (basicMove (From move) (Row (To move)) (Col (To move)) = move) as Hbasic.
    { destruct move as [from [tr tc] promotion castling]. unfold basicMove.
      cbn in Hpromotion, Hcastling |- *. by subst. }
    rewrite Hbasic in Hin.
    apply (Hall (Row (From move)) (Col (From move)) piece candidates); try done.
    + apply cells_spec. by destruct (From move).
    + by destruct (From move).
  - intros Hturn Hrunning move Hin. unfold ValidateMove. fold color.
    rewrite Hturn, String.eqb_refl, Hrunning. cbn [negb].
    rewrite <- Hturn. by apply Hsound.
Qed.

(** X16.  The panics of the chess engine.  [ValidateMove] and
    [GetPossibleMoves] return on every state, move and player; [ApplyMove]
    returns a state exactly when the two cells of the move are on the board
    and the source cell holds a piece, and panics on every other move
    (index out of range, or nil pointer dereference). *)
Theorem chess_engine_panics
    (state : ChessGameState) (move : ChessMove) (playerID : N) :
  (∃ e, ValidateMove state move playerID = Ok e)
  ∧ (∃ moves, GetPossibleMoves state playerID = Ok moves)
  ∧ ((∃ state', ApplyMove state move playerID = Ok state')
     ↔ onBoard (From move) ∧ onBoard (To move)
       ∧ Board state (Row (From move)) (Col (From move)) ≠ None).
Proof.
  split.
  { unfold ValidateMove. case_match; [by eexists|]. case_match; [by eexists|].
    apply validateChessMove_ok. }
  split; [apply chess_GetPossibleMoves_ok|].
  split.
  - intros [state' Happlied].
    destruct (chess_ApplyMove_inv _ _ _ _ Happlied) as (Hfrom & Hto & piece & Hpiece).
    by rewrite Hpiece.
  - intros (Hfrom & Hto & Hpiece).
    destruct (Board state (Row (From move)) (Col (From move))) as [piece|] eqn:Hcell; [|done].
    destruct (chess_ApplyMove_eq state move playerID piece Hfrom Hto Hcell)
      as (state1 & _ & Happlied).
    by eexists.
Qed.

(** *** Instances *)

Lemma chess_ApplyMove_moves_one_piece_witness :
  ValidateMove captureState rookTakes 1%N = Ok None
  ∧ ∃ state',
      ApplyMove captureState rookTakes 1%N = Ok state'
      ∧ Board state' 4 0 = None
      ∧ Board state' 4 5 = Some (mkPiece "rook" "white")
      ∧ Board state' 0 4 = Some (mkPiece "king" "black").
Proof.
  split; [reflexivity|].
  destruct (chess_ApplyMove_moves_one_piece captureState rookTakes 1%N)
    as (state' & piece & Happly & Hpiece & _ & Hfrom & Hto & _ & Hrest); [reflexivity|].
  injection Hpiece as <-.
  exists state'. split; [exact Happly|]. split; [exact Hfrom|]. split; [exact Hto|].
  rewrite Hrest; [reflexivity| |]; cbn; lia.
Defined.

Lemma chess_ApplyMove_passes_the_turn_witness :
  ValidateMove captureState rookTakes 1%N = Ok None
  ∧ ∃ state',
      ApplyMove captureState rookTakes 1%N = Ok state'
      ∧ CurrentTurn state' = "black"
      ∧ ValidateMove state' rookTakes 1%N = Ok (Some "not player's turn").
Proof.
  split; [reflexivity|].
  destruct (chess_ApplyMove_passes_the_turn captureState rookTakes 1%N)
    as (state' & Happly & Hturn & _ & _ & _ & Hagain); [reflexivity|].
  exists state'. split; [exact Happly|]. split; [exact Hturn|]. apply Hagain.
Defined.

Lemma chess_ApplyMove_clears_en_passant_witness :
  ValidateMove promotionState knightPromotion 1%N = Ok None
  ∧ ∃ state',
      ApplyMove promotionState knightPromotion 1%N = Ok state'
      ∧ EnPassantTarget state' = None.
Proof.
  split; [reflexivity|].
  apply (chess_ApplyMove_clears_en_passant promotionState knightPromotion 1%N).
  reflexivity.
Defined.

Lemma chess_castling_rights_only_shrink_witness :
  ∃ state',
    ApplyMove blackToMove kingStep 2%N = Ok state'
    ∧ BlackKingSideCastle state' = false ∧ BlackQueenSideCastle state' = false.
Proof.
  eexists. split; [reflexivity|].
  destruct (chess_castling_rights_only_shrink blackToMove _ kingStep 2%N eq_refl)
    as (_ & _ & _ & _ & Hking).
  exact (Hking (mkPiece "king" "black") eq_refl eq_refl).
Defined.

Lemma chess_game_over_iff_king_missing_witness :
  ValidateMove captureState rookTakes 1%N = Ok None
  ∧ ∃ state',
      ApplyMove captureState rookTakes 1%N = Ok state'
      ∧ Engine.IsDraw (GetGameStatus state') = false.
Proof.
  split; [reflexivity|].
  destruct (chess_game_over_iff_king_missing captureState rookTakes 1%N)
    as (state' & Happly & _ & _ & _ & Hdraw); [reflexivity|].
  by exists state'.
Defined.

(** A pawn move to another column that is accepted onto an empty cell is
    the en-passant capture: the cell is the en-passant target. *)
Lemma validatePawnMove_en_passant state move color :
  onBoard (From move) → onBoard (To move) →
  validatePawnMove state move color = Ok None →
  Col (To move) ≠ Col (From move) →
  Board state (Row (To move)) (Col (To move)) = None →
  ∃ ep, EnPassantTarget state = Some ep
        ∧ Row (To move) = Row ep ∧ Col (To move) = Col ep.
Proof.
  intros Hfrom Hto Hvalid Hcol Hempty. unfold validatePawnMove in Hvalid.
  rewrite !(cell_pos _ _ Hto), Hempty in Hvalid. cbn [rbind] in Hvalid.
  rewrite (proj2 (Z.eqb_neq (Col (To move) - Col (From move)) 0)) in Hvalid by lia.
  cbn [rbind] in Hvalid.
  destruct ((abs (Col (To move) - Col (From move)) =? 1) && _); cbn [rbind] in Hvalid;
    [|done].
  destruct (EnPassantTarget state) as [ep|]; [|done].
  destruct ((Row (To move) =? Row ep) && (Col (To move) =? Col ep)) eqn:Hep; [|done].
  exists ep. split; [done|]. lia.
Qed.

(** C4, as the code behaves.  A move that [ValidateMove] accepts is
    applied; the number of occupied cells never grows and drops by at most
    one, and it drops exactly when the destination cell was occupied.  The
    en-passant capture is therefore a capturing move that takes nothing
    off the board: [validatePawnMove] accepts, in its branch for the
    diagonal capture, the move of a pawn onto the empty en-passant target,
    and [applyChessMove] only moves the pawn.  For every validated move of
    a pawn to another column onto an empty cell, the cell is the
    en-passant target, the number of occupied cells is what it was, and
    the cell beside the source in the column of the destination, where the
    passed pawn stands, holds what it held. *)
Theorem C4_en_passant_removes_nothing state move playerID :
  ValidateMove state move playerID = Ok None →
  ∃ state',
    ApplyMove state move playerID = Ok state'
    ∧ pieceCount (Board state') <= pieceCount (Board state)
    ∧ pieceCount (Board state) - 1 <= pieceCount (Board state')
    ∧ pieceCount (Board state')
      = pieceCount (Board state)
        - (if isNil (Board state (Row (To move)) (Col (To move))) then 0 else 1)
    ∧ ∀ piece,
        Board state (Row (From move)) (Col (From move)) = Some piece →
        Type_ piece = "pawn" →
        Col (To move) ≠ Col (From move) →
        Board state (Row (To move)) (Col (To move)) = None →
        (∃ ep, EnPassantTarget state = Some ep
               ∧ Row (To move) = Row ep ∧ Col (To move) = Col ep)
        ∧ pieceCount (Board state') = pieceCount (Board state)
        ∧ Board state' (Row (From move)) (Col (To move))
          = Board state (Row (From move)) (Col (To move)).
Proof.
  intros Hvalid.
  destruct (chess_ApplyMove_validated _ _ _ Hvalid) as (state' & Happly & Hcount).
  unfold indicator in Hcount.
  exists state'. split; [done|].
  split; [destruct (isNil _); lia|]. split; [destruct (isNil _); lia|].
  split; [exact Hcount|].
  intros piece Hpiece Hpawn Hcol Hempty.
  apply ValidateMove_nil in Hvalid as (_ & _ & Hvalid).
  pose proof (pawn_moves_one_row _ _ _ _ Hvalid Hpiece Hpawn) as Hrow.
  destruct (validateChessMove_nil _ _ _ Hvalid)
    as (Hfrom & Hto & piece' & Hpiece' & _ & _ & Hrule).
  rewrite Hpiece in Hpiece'. injection Hpiece' as <-.
  unfold validatePieceMove in Hrule. rewrite Hpawn in Hrule. cbn in Hrule.
  split; [by apply (validatePawnMove_en_passant state move (Color piece))|].
  split.
  { rewrite Hcount, Hempty. cbn. lia. }
  destruct (applyChessMove_eq state move (getPlayerColor state playerID) piece Hfrom Hto Hpiece)
    as (state1 & Happly1 & Hboard & _).
  unfold ApplyMove in Happly. rewrite Happly1 in Happly. cbn [rbind] in Happly.
  injection Happly as <-.
  destruct (updateGameStatus_fields (nextTurn state1)) as (-> & _).
  cbn [Board nextTurn]. rewrite Hboard.
  rewrite (proj2 (Z.eqb_neq (Col (To move)) (Col (From move)))) by done.
  rewrite andb_false_r.
  rewrite (proj2 (Z.eqb_neq (Row (From move)) (Row (To move))))
    by (destruct (String.eqb _ "black"); lia).
  done.
Qed.

Lemma C4_en_passant_removes_nothing_witness :
  ValidateMove enPassantState enPassantCapture 1%N = Ok None
  ∧ EnPassantTarget enPassantState = Some (To enPassantCapture)
  ∧ Board enPassantState 3 4 = Some (mkPiece "pawn" "black")
  ∧ pieceCount (Board enPassantState) = 4
  ∧ ∃ state',
      ApplyMove enPassantState enPassantCapture 1%N = Ok state'
      ∧ pieceCount (Board state') = 4
      ∧ Board state' 3 4 = Some (mkPiece "pawn" "black").
Proof.
  assert (ValidateMove enPassantState enPassantCapture 1%N = Ok None) as Hvalid
    by (by vm_compute).
  split; [exact Hvalid|]. split; [reflexivity|]. split; [reflexivity|].
  assert (pieceCount (Board enPassantState) = 4) as Hcount by (by vm_compute).
  split; [exact Hcount|].
  destruct (C4_en_passant_removes_nothing enPassantState enPassantCapture 1%N Hvalid)
    as (state' & Happly & _ & _ & _ & Hpassant).
  destruct (Hpassant (mkPiece "pawn" "white") eq_refl eq_refl) as (_ & Hsame & Hpawn);
    [by vm_compute|reflexivity|].
  exists state'. split; [exact Happly|]. split; [by rewrite Hsame|exact Hpawn].
Defined.

(** An ordinary capture, for comparison: the rook takes the knight and three
    of the four pieces are left. *)
Example rook_capture_takes_one :
  ValidateMove captureState rookTakes 1%N = Ok None
  ∧ pieceCount (Board captureState) = 4
  ∧ ∃ state', ApplyMove captureState rookTakes 1%N = Ok state'
              ∧ pieceCount (Board state') = 3.
Proof.
  split; [by vm_compute|]. split; [by vm_compute|].
  eexists. split; [by vm_compute|]. by vm_compute.
Qed.

End ChessFacts.

(** ** Both engines *)

Section EngineFacts.

(** C3.  In both engines, when [ValidateMove] returns nil for a state, a
    move and a player, [ApplyMove] on the same three returns a state: it
    neither fails nor panics. *)
Theorem C3_validated_move_applies
    (chessState : Chess.ChessGameState) (chessMove : Chess.ChessMove)
    (dominoState : Domino.DominoGameState) (domMove : Domino.DominoMove)
    (playerID : N) :
  (Chess.ValidateMove chessState chessMove playerID = Ok None →
   ∃ state', Chess.ApplyMove chessState chessMove playerID = Ok state')
  ∧ (Domino.ValidateMove dominoState domMove playerID = Ok None →
     ∃ state', Domino.ApplyMove dominoState domMove playerID = Ok state').
Proof.
  split.
  - intros Hvalid.
    destruct (chess_ApplyMove_validated _ _ _ Hvalid) as (state' & Happly & _).
    by exists state'.
  - intros _. apply domino_ApplyMove_ok.
Qed.

Lemma C3_validated_move_applies_witness :
  (Chess.ValidateMove Chess.captureState Chess.rookTakes 1%N = Ok None
   ∧ Domino.ValidateMove Domino.midGame Domino.playDoubleThree 1%N = Ok None)
  ∧ (∃ state', Chess.ApplyMove Chess.captureState Chess.rookTakes 1%N = Ok state')
  ∧ (∃ state', Domino.ApplyMove Domino.midGame Domino.playDoubleThree 1%N = Ok state').
Proof.
  assert (Chess.ValidateMove Chess.captureState Chess.rookTakes 1%N = Ok None) as Hc
    by (by vm_compute).
  assert (Domino.ValidateMove Domino.midGame Domino.playDoubleThree 1%N = Ok None) as Hd
    by (by vm_compute).
  split; [split; [exact Hc|exact Hd]|].
  destruct (C3_validated_move_applies Chess.captureState Chess.rookTakes
              Domino.midGame Domino.playDoubleThree 1%N) as [Hchess Hdomino].
  split; [exact (Hchess Hc)|exact (Hdomino Hd)].
Defined.

End EngineFacts.

(** ** Matchmaking *)

Section MatchmakingFacts.
Import Matchmaking.

(** *** [Duration.Minutes] *)

Lemma one_pos : 0 < Float64.one.
Proof. by vm_compute. Qed.

Lemma Minute_pos : 0 < Minute.
Proof. by vm_compute. Qed.

(** An [int] of less than 54 bits is a [float64]. *)
Lemma ofInt_exact (z : Z) : - 2 ^ 53 < z < 2 ^ 53 → Float64.ofInt z = z * Float64.one.
Proof.
  intros Hz. unfold Float64.ofInt.
  assert (∀ a, 0 <= a < 2 ^ 53 → Float64.round (a * Float64.one) 1 = a * Float64.one)
    as Hpos.
  { intros a Ha. pose proof one_pos. rewrite round_nonneg by nia.
    change Float64.one with (2 ^ 1074).
    rewrite <- (Z.mul_1_r (a * 2 ^ 1074)) at 1. by apply roundPos_exact. }
  destruct (Z.le_gt_cases 0 z) as [Hnonneg|Hneg]; [apply Hpos; lia|].
  replace (z * Float64.one) with (- (- z * Float64.one)) by ring.
  rewrite round_opp by lia. rewrite Hpos by lia. ring.
Qed.

Lemma fractionOf_bounds (nsec : Z) :
  0 <= nsec < Minute →
  0 <= fractionOf nsec <= Float64.one
  ∧ 2 * (Minute * fractionOf nsec) <= 2 * (nsec * Float64.one) + Minute * 2 ^ 1021.
Proof.
  intros Hn. pose proof one_pos as Hone. pose proof Minute_pos as Hminute.
  unfold fractionOf.
  assert (0 < Minute * Float64.one) as Hq by nia.
  assert (0 <= nsec * Float64.one * Float64.one) as Hp by nia.
  split; [split|].
  - by apply roundPos_nonneg.
  - transitivity (Float64.roundPos (1 * 2 ^ 1074 * (Minute * Float64.one))
                    (Minute * Float64.one)).
    + apply roundPos_mono; [done| |done]. change (2 ^ 1074) with Float64.one. nia.
    + rewrite roundPos_exact; [|split; [lia|by vm_compute]|lia|done].
      change (2 ^ 1074) with Float64.one. lia.
  - pose proof (roundPos_err_up (nsec * Float64.one * Float64.one) (Minute * Float64.one)
                  1021 Hp Hq ltac:(lia)) as Herr.
    replace (2 ^ (53 + 1021)) with Float64.one in Herr by reflexivity.
    specialize (Herr ltac:(nia)).
    set (f := Float64.roundPos _ _) in *.
    set (e := 2 ^ 1021) in *. clearbody f e.
    assert (2 * (Minute * f) * Float64.one
            <= (2 * (nsec * Float64.one) + Minute * e) * Float64.one) as Hscaled by nia.
    apply Z.mul_le_mono_pos_r in Hscaled; done.
Qed.

Lemma fractionOf_mono (n1 n2 : Z) : 0 <= n1 → n1 <= n2 → fractionOf n1 <= fractionOf n2.
Proof.
  intros Hn1 Hle. pose proof one_pos as Hone. pose proof Minute_pos as Hminute.
  unfold fractionOf. apply roundPos_mono; nia.
Qed.

(** [Minutes] of a wait that is not negative. *)
Lemma Minutes_nonneg (d : Z) :
  0 <= d → d / Minute < 2 ^ 53 →
  Minutes d
  = Float64.roundPos (d / Minute * Float64.one + fractionOf (d mod Minute)) 1.
Proof.
  intros Hd Hm. pose proof one_pos as Hone. pose proof Minute_pos as Hminute.
  pose proof (Z.mod_pos_bound d Minute Hminute) as Hn.
  pose proof (Z.div_pos d Minute Hd Hminute) as Hm0.
  unfold Minutes. cbn zeta.
  rewrite Z.quot_div_nonneg, Z.rem_mod_nonneg by lia.
  rewrite (ofInt_exact (d / Minute)) by lia.
  rewrite (ofInt_exact (d mod Minute))
    by (assert (Minute < 2 ^ 53) by (by vm_compute); lia).
  rewrite (ofInt_exact (60 * 10 ^ 9)) by (by vm_compute).
  change (60 * 10 ^ 9) with Minute.
  unfold Float64.div. rewrite (proj2 (Z.ltb_ge (Minute * Float64.one) 0)) by nia.
  rewrite round_nonneg by nia. fold (fractionOf (d mod Minute)).
  destruct (fractionOf_bounds (d mod Minute) Hn) as [[Hf0 _] _].
  unfold Float64.add. rewrite round_nonneg by nia. done.
Qed.

(** [Minutes] lies between the whole minutes of the wait and the next
    minute. *)
Lemma Minutes_bounds (d : Z) :
  0 <= d → d / Minute + 1 < 2 ^ 53 →
  d / Minute * Float64.one <= Minutes d <= (d / Minute + 1) * Float64.one.
Proof.
  intros Hd Hm. pose proof one_pos as Hone. pose proof Minute_pos as Hminute.
  pose proof (Z.mod_pos_bound d Minute Hminute) as Hn.
  pose proof (Z.div_pos d Minute Hd Hminute) as Hm0.
  rewrite Minutes_nonneg by lia.
  destruct (fractionOf_bounds (d mod Minute) Hn) as [[Hf0 Hf1] _].
  set (m := d / Minute) in *. set (f := fractionOf (d mod Minute)) in *.
  assert (∀ a, 0 <= a < 2 ^ 53 → Float64.roundPos (a * Float64.one) 1 = a * Float64.one)
    as Hexact.
  { intros a Ha. change Float64.one with (2 ^ 1074).
    rewrite <- (Z.mul_1_r (a * 2 ^ 1074)) at 1. by apply roundPos_exact. }
  split.
  - rewrite <- (Hexact m) at 1 by lia. apply roundPos_mono; nia.
  - rewrite <- (Hexact (m + 1)) by lia. apply roundPos_mono; nia.
Qed.

(** Up to 2^18 minutes the sum does not reach the next minute. *)
Lemma Minutes_below (d : Z) :
  0 <= d → d / Minute < 2 ^ 18 → Minutes d < (d / Minute + 1) * Float64.one.
Proof.
  intros Hd Hm. pose proof one_pos as Hone. pose proof Minute_pos as Hminute.
  pose proof (Z.mod_pos_bound d Minute Hminute) as Hn.
  pose proof (Z.div_pos d Minute Hd Hminute) as Hm0.
  assert (2 ^ 18 < 2 ^ 53) as Hsmall by (by vm_compute).
  rewrite Minutes_nonneg by lia.
  destruct (fractionOf_bounds (d mod Minute) Hn) as [[Hf0 Hf1] Herr].
  set (m := d / Minute) in *. set (f := fractionOf (d mod Minute)) in *.
  set (n := d mod Minute) in *.
  assert (2 ^ (53 + 1039) = 2 ^ 18 * Float64.one) as Hscale by reflexivity.
  assert (Minute * 2 ^ 1021 + Minute * 2 ^ 1039 < 2 * Float64.one) as Hroom
    by (by vm_compute).
  assert (0 < 2 ^ 1039) as He2 by (by vm_compute).
  assert (n * Float64.one <= (Minute - 1) * Float64.one) as Hfrac
    by (apply Z.mul_le_mono_nonneg_r; lia).
  assert (m * Float64.one <= (2 ^ 18 - 1) * Float64.one) as Hwhole
    by (apply Z.mul_le_mono_nonneg_r; lia).
  assert (f < Float64.one) as Hf.
  { apply (Z.mul_lt_mono_pos_l (2 * Minute)); lia. }
  pose proof (roundPos_err_up (m * Float64.one + f) 1 1039 ltac:(lia) ltac:(lia)
                ltac:(lia)) as Hup.
  rewrite Hscale in Hup. specialize (Hup ltac:(lia)).
  set (s := Float64.roundPos _ _) in *.
  set (e1 := 2 ^ 1021) in *. set (e2 := 2 ^ 1039) in *.
  clearbody s f e1 e2 m n. clear Hscale Hsmall Hwhole.
  assert (Minute * (2 * s) <= Minute * (2 * (m * Float64.one + f) + e2)) as Hsum
    by (apply Z.mul_le_mono_nonneg_l; lia).
  assert (Minute * (2 * s) < Minute * (2 * ((m + 1) * Float64.one))) as Hscaled by lia.
  apply Z.mul_lt_mono_pos_l in Hscaled; lia.
Qed.

Lemma Minutes_opp (d : Z) : Minutes (- d) = - Minutes d.
Proof.
  pose proof one_pos as Hone. pose proof Minute_pos as Hminute.
  assert (∀ z, Float64.ofInt (- z) = - Float64.ofInt z) as Hint.
  { intros z. unfold Float64.ofInt. rewrite Z.mul_opp_l. by apply round_opp. }
  unfold Minutes. cbn zeta.
  rewrite Z.quot_opp_l, Z.rem_opp_l by lia. rewrite !Hint.
  rewrite (ofInt_exact (60 * 10 ^ 9)) by (by vm_compute).
  change (60 * 10 ^ 9) with Minute.
  unfold Float64.div. rewrite (proj2 (Z.ltb_ge (Minute * Float64.one) 0)) by nia.
  rewrite Z.mul_opp_l, round_opp by nia.
  unfold Float64.add. rewrite <- Z.opp_add_distr. by apply round_opp.
Qed.

Lemma minutesInt_opp (d : Z) : minutesInt (- d) = - minutesInt d.
Proof.
  pose proof one_pos. unfold minutesInt, Float64.toInt.
  rewrite Minutes_opp. apply Z.quot_opp_l. lia.
Qed.

(** The whole minutes of a wait of 64 bits are far below 2^53. *)
Lemma minutes_of_int64 (d : Z) : 0 <= d <= 2 ^ 63 → d / Minute + 1 < 2 ^ 53.
Proof.
  intros Hd. pose proof Minute_pos.
  assert (d / Minute <= 2 ^ 63 / Minute) as Hle by (apply Z.div_le_mono; lia).
  assert (2 ^ 63 / Minute + 1 < 2 ^ 53) by (by vm_compute). lia.
Qed.

Lemma minutesInt_bounds (d : Z) :
  0 <= d <= 2 ^ 63 → d / Minute <= minutesInt d <= d / Minute + 1.
Proof.
  intros Hd. pose proof one_pos as Hone. pose proof Minute_pos as Hminute.
  pose proof (minutes_of_int64 d Hd) as Hm.
  destruct (Minutes_bounds d ltac:(lia) Hm) as [Hlow Hhigh].
  pose proof (Z.div_pos d Minute ltac:(lia) Hminute) as Hm0.
  unfold minutesInt, Float64.toInt.
  rewrite Z.quot_div_nonneg by nia. split.
  - apply Z.div_le_lower_bound; lia.
  - apply Z.div_le_upper_bound; [lia|].
    assert (0 <= Float64.one * (d / Minute)) by nia. lia.
Qed.

(** Up to 2^18 minutes (half a year) [int(waitTime.Minutes())] is the number
    of whole minutes. *)
Lemma minutesInt_exact (d : Z) :
  0 <= d → d / Minute < 2 ^ 18 → minutesInt d = d / Minute.
Proof.
  intros Hd Hm. pose proof one_pos as Hone. pose proof Minute_pos as Hminute.
  assert (2 ^ 18 + 1 < 2 ^ 53) as Hsmall by (by vm_compute).
  destruct (Minutes_bounds d Hd ltac:(lia)) as [Hlow _].
  pose proof (Minutes_below d Hd Hm) as Hhigh.
  pose proof (Z.div_pos d Minute Hd Hminute) as Hm0.
  unfold minutesInt, Float64.toInt.
  rewrite Z.quot_div_nonneg by nia.
  symmetry. apply (Z.div_unique _ _ _ (Minutes d - d / Minute * Float64.one)); lia.
Qed.

Lemma minutesInt_mono_nonneg (d1 d2 : Z) :
  0 <= d1 → d1 <= d2 → d2 <= 2 ^ 63 → minutesInt d1 <= minutesInt d2.
Proof.
  intros Hd1 Hle Hd2. pose proof one_pos as Hone. pose proof Minute_pos as Hminute.
  pose proof (Z.div_le_mono d1 d2 Minute Hminute Hle) as Hm.
  destruct (Z.eq_dec (d1 / Minute) (d2 / Minute)) as [Heq|Hne].
  - pose proof (minutes_of_int64 d1 ltac:(lia)) as Hm1.
    pose proof (minutes_of_int64 d2 ltac:(lia)) as Hm2.
    pose proof (Z.div_mod d1 Minute ltac:(lia)) as Hdm1.
    pose proof (Z.div_mod d2 Minute ltac:(lia)) as Hdm2.
    pose proof (Z.mod_pos_bound d1 Minute Hminute) as Hn1.
    pose proof (Z.mod_pos_bound d2 Minute Hminute) as Hn2.
    pose proof (Z.div_pos d1 Minute Hd1 Hminute) as Hm0.
    assert (d1 mod Minute <= d2 mod Minute) as Hn by (rewrite Heq in Hdm1; lia).
    unfold minutesInt, Float64.toInt.
    apply Z.quot_le_mono; [done|].
    rewrite !Minutes_nonneg by lia. rewrite Heq.
    pose proof (fractionOf_mono _ _ (proj1 Hn1) Hn) as Hf.
    destruct (fractionOf_bounds (d1 mod Minute) Hn1) as [[Hf0 _] _].
    apply roundPos_mono; [|lia|lia].
    assert (0 <= d2 / Minute * Float64.one) by nia. lia.
  - pose proof (minutesInt_bounds d1 ltac:(lia)).
    pose proof (minutesInt_bounds d2 ltac:(lia)). lia.
Qed.

(** Over the 64-bit durations [int(waitTime.Minutes())] does not decrease
    as the wait grows. *)
Lemma minutesInt_mono (d1 d2 : Z) :
  - 2 ^ 63 <= d1 → d1 <= d2 → d2 <= 2 ^ 63 → minutesInt d1 <= minutesInt d2.
Proof.
  intros Hd1 Hle Hd2.
  destruct (Z.le_gt_cases 0 d1) as [Hpos1|Hneg1];
    [by apply minutesInt_mono_nonneg|].
  assert (∀ d, minutesInt d = - minutesInt (- d)) as Hopp
    by (intros d; rewrite minutesInt_opp; lia).
  rewrite (Hopp d1).
  destruct (Z.le_gt_cases 0 d2) as [Hpos2|Hneg2].
  - pose proof (minutesInt_bounds (- d1) ltac:(lia)).
    pose proof (minutesInt_bounds d2 ltac:(lia)).
    pose proof (Z.div_pos (- d1) Minute ltac:(lia) Minute_pos).
    pose proof (Z.div_pos d2 Minute ltac:(lia) Minute_pos). lia.
  - rewrite (Hopp d2).
    pose proof (minutesInt_mono_nonneg (- d2) (- d1) ltac:(lia) ltac:(lia) ltac:(lia)).
    lia.
Qed.

(** A wait that is negative counts no minute or a negative number of them. *)
Lemma minutesInt_neg (d : Z) : - 2 ^ 63 <= d → d <= 0 → minutesInt d <= 0.
Proof.
  intros Hlow Hd.
  assert (minutesInt 0 = 0) as Hzero by (by vm_compute).
  rewrite <- Hzero. apply minutesInt_mono; lia.
Qed.

(** The tolerance of a wait that is not negative. *)
Lemma calculateRatingTolerance_nonneg (waitTime : Z) :
  0 <= waitTime → waitTime <= 2 ^ 63 →
  calculateRatingTolerance waitTime
  = Z.min (ratingTolerance + waitTime / Minute * 20) maxRatingTolerance.
Proof.
  intros Hw Hmax. unfold calculateRatingTolerance. cbn zeta.
  unfold ratingTolerance, maxRatingTolerance.
  destruct (Z.lt_ge_cases (waitTime / Minute) (2 ^ 18)) as [Hsmall|Hlong].
  - rewrite (minutesInt_exact _ Hw Hsmall).
    destruct (Z.gtb_spec (100 + waitTime / Minute * 20) 500); lia.
  - pose proof (minutesInt_bounds waitTime ltac:(lia)) as [Hlow _].
    assert (20 <= 2 ^ 18) by (by vm_compute).
    destruct (Z.gtb_spec (100 + minutesInt waitTime * 20) 500); lia.
Qed.

(** The tolerance of a negative wait of less than 2^18 minutes: the minutes
    are rounded towards zero. *)
Lemma calculateRatingTolerance_neg (waitTime : Z) :
  waitTime <= 0 → - (2 ^ 18 * Minute) < waitTime →
  calculateRatingTolerance waitTime = ratingTolerance + Z.quot waitTime Minute * 20.
Proof.
  intros Hw Hmin. pose proof Minute_pos as Hminute.
  unfold calculateRatingTolerance. cbn zeta.
  assert (minutesInt waitTime = Z.quot waitTime Minute) as ->.
  { rewrite <- (Z.opp_involutive waitTime) at 1. rewrite minutesInt_opp.
    rewrite minutesInt_exact; [| lia |apply Z.div_lt_upper_bound; lia].
    rewrite <- (Z.opp_involutive waitTime) at 2.
    rewrite Z.quot_opp_l by lia. by rewrite Z.quot_div_nonneg by lia. }
  unfold ratingTolerance, maxRatingTolerance.
  assert (Z.quot waitTime Minute <= 0) by (apply Z.quot_le_upper_bound; lia).
  destruct (Z.gtb_spec (100 + Z.quot waitTime Minute * 20) 500); lia.
Qed.

(** C7, amended.  Over the 64-bit durations the tolerance never decreases as
    the wait grows, and it never exceeds the maximum.  For a wait that is
    not negative it is the base tolerance plus 20 for every whole minute
    waited, clamped to the maximum.  For a negative wait the minutes are
    rounded towards zero, not down: up to 2^18 minutes back it is the base
    tolerance plus 20 times the quotient of the wait by the minute that Go's
    [/] gives. *)
Theorem C7_tolerance (waitTime later : Z) :
  - 2 ^ 63 <= waitTime < 2 ^ 63 → - 2 ^ 63 <= later < 2 ^ 63 →
  (0 <= waitTime →
   calculateRatingTolerance waitTime
   = Z.min (ratingTolerance + waitTime / Minute * 20) maxRatingTolerance)
  ∧ (- (2 ^ 18 * Minute) < waitTime <= 0 →
     calculateRatingTolerance waitTime = ratingTolerance + Z.quot waitTime Minute * 20)
  ∧ (waitTime <= later →
     calculateRatingTolerance waitTime <= calculateRatingTolerance later)
  ∧ calculateRatingTolerance waitTime <= maxRatingTolerance.
Proof.
  intros Hw Hl. split; [intros; apply calculateRatingTolerance_nonneg; lia|].
  split; [intros; apply calculateRatingTolerance_neg; lia|].
  unfold calculateRatingTolerance. cbn zeta. split.
  - intros Hle. pose proof (minutesInt_mono waitTime later ltac:(lia) Hle ltac:(lia)).
    destruct (Z.gtb_spec (ratingTolerance + minutesInt waitTime * 20) maxRatingTolerance);
      destruct (Z.gtb_spec (ratingTolerance + minutesInt later * 20) maxRatingTolerance); lia.
  - destruct (Z.gtb_spec (ratingTolerance + minutesInt waitTime * 20) maxRatingTolerance); lia.
Qed.

Lemma C7_tolerance_witness :
  (- 2 ^ 63 <= 150 * Second < 2 ^ 63 ∧ - 2 ^ 63 <= 26 * Minute < 2 ^ 63
   ∧ 0 <= 150 * Second ∧ 150 * Second <= 26 * Minute)
  ∧ calculateRatingTolerance (150 * Second)
    = Z.min (ratingTolerance + 150 * Second / Minute * 20) maxRatingTolerance
  ∧ Z.min (ratingTolerance + 150 * Second / Minute * 20) maxRatingTolerance = 140
  ∧ calculateRatingTolerance (150 * Second) <= calculateRatingTolerance (26 * Minute)
  ∧ calculateRatingTolerance (150 * Second) <= maxRatingTolerance.
Proof.
  assert (- 2 ^ 63 <= 150 * Second < 2 ^ 63) as Hw by (split; by vm_compute).
  assert (- 2 ^ 63 <= 26 * Minute < 2 ^ 63) as Hl by (split; by vm_compute).
  assert (0 <= 150 * Second) as Hpos by (by vm_compute).
  assert (150 * Second <= 26 * Minute) as Hle by (by vm_compute).
  split; [exact (conj Hw (conj Hl (conj Hpos Hle)))|].
  destruct (C7_tolerance (150 * Second) (26 * Minute) Hw Hl) as (Heq & _ & Hmono & Hmax).
  split; [exact (Heq Hpos)|]. split; [by vm_compute|].
  split; [exact (Hmono Hle)|exact Hmax].
Defined.

(** The claim's formula fails for a negative wait: thirty seconds before
    the request was made the tolerance is the base tolerance, 100, where
    base + floor(wait minutes) * step gives 80. *)
Lemma C7_counterexample :
  calculateRatingTolerance (- 30 * Second) = 100
  ∧ Z.min (ratingTolerance + (- 30 * Second) / Minute * 20) maxRatingTolerance = 80.
Proof. split; by vm_compute. Qed.

(** Far back, the sum that [Minutes] computes is rounded to the next
    minute: one nanosecond short of 300000 minutes before the request the
    count is -300000. *)
Example minutes_far_back :
  minutesInt (- (300000 * Minute - 1)) = - 300000
  ∧ Z.quot (- (300000 * Minute - 1)) Minute = - 299999
  ∧ calculateRatingTolerance (- (300000 * Minute - 1)) = - 5999900.
Proof. split; [|split]; by vm_compute. Qed.

Lemma queued_eq (t0 : Z) :
  queued t0 =
  {| registry := ["dominoes"; "chess"];
     queues := {[ "chess" := [(t0 / Second, alice); (t0 / Second, bob)] ]};
     requests := <[bob := (mkRequest bob "chess" 1300 t0, t0 + matchmakingTimeout)]>
                   {[ alice := (mkRequest alice "chess" 1000 t0, t0 + matchmakingTimeout) ]};
     games := [] |}.
Proof.
  unfold queued, queuedWith, JoinQueue, ZScore, ZAdd, Set_, queueOf, NewMatchmakingService.
  cbn [queues]. rewrite lookup_empty. cbn.
  rewrite lookup_insert_eq. cbn.
  rewrite (decide_False (P := alice = bob)) by done.
  rewrite (decide_True (P := alice ∉ [bob]))
    by (apply (bool_decide_unpack (alice ∉ [bob])); by vm_compute).
  cbn. rewrite Z.ltb_irrefl, Z.eqb_refl. cbn.
  by rewrite insert_insert_eq, !insert_empty.
Qed.

Lemma queued_Get (t0 now : Z) (userID : N) (rating : Z) :
  (userID = alice ∧ rating = 1000) ∨ (userID = bob ∧ rating = 1300) →
  getMatchmakingRequest (queued t0) now userID
  = if now <? t0 + matchmakingTimeout
    then Some (mkRequest userID "chess" rating t0) else None.
Proof.
  rewrite queued_eq. unfold getMatchmakingRequest, Get. cbn [requests].
  intros [[-> ->]|[-> ->]].
  - rewrite lookup_insert_ne by done. by rewrite lookup_singleton_eq.
  - by rewrite lookup_insert_eq.
Qed.

(** While a request is still stored, its tolerance has not reached 300. *)
Lemma tolerance_before_expiry (t0 now : Z) :
  now < t0 + matchmakingTimeout → calculateRatingTolerance (Since now t0) <= 180.
Proof.
  intros Hlive.
  assert (- 2 ^ 63 <= Since now t0 < matchmakingTimeout) as [Hlow Hwait].
  { unfold Since, matchmakingTimeout, Minute, Second in *. lia. }
  assert (minutesInt (Since now t0) <= 4) as Hmin.
  { destruct (Z.le_gt_cases 0 (Since now t0)) as [Hpos|Hneg].
    - assert (Since now t0 / Minute <= 4) as Hquot.
      { change 4 with ((matchmakingTimeout - 1) / Minute).
        apply Z.div_le_mono; [by vm_compute|lia]. }
      rewrite minutesInt_exact; [done|done|].
      assert (4 < 2 ^ 18) by (by vm_compute). lia.
    - pose proof (minutesInt_neg (Since now t0) Hlow ltac:(lia)). lia. }
  unfold calculateRatingTolerance. cbn zeta.
  unfold ratingTolerance, maxRatingTolerance. case_match; lia.
Qed.

(** C8, as the code behaves.  Two players rated 1000 and 1300 join the same
    queue at [t0].  A sweep at any instant [now], the first one included,
    leaves the service as it is and creates no game; and whenever the
    tolerance of the wait has reached 300, neither request is in the store
    any more: they were stored for [matchmakingTimeout], five minutes, and
    300 takes ten. *)
Theorem C8_never_paired (t0 now : Z) :
  processMatchmaking (queued t0) now = queued t0
  ∧ games (processMatchmaking (queued t0) now) = []
  ∧ (300 <= calculateRatingTolerance (Since now t0) →
     getMatchmakingRequest (queued t0) now alice = None
     ∧ getMatchmakingRequest (queued t0) now bob = None).
Proof.
  assert (processMatchmaking (queued t0) now = queued t0) as Hsame.
  { unfold processMatchmaking.
    replace (registry (queued t0)) with ["dominoes"; "chess"] by (by rewrite queued_eq).
    cbn [foldl].
    assert (ZRange (queued t0) "dominoes" = []) as ->.
    { rewrite queued_eq. unfold ZRange, queueOf. cbn [queues].
      by rewrite lookup_singleton_ne. }
    cbn [length]. rewrite (decide_True (P := (0 < 2)%nat)) by lia.
    assert (ZRange (queued t0) "chess" = [alice; bob]) as ->.
    { rewrite queued_eq. unfold ZRange, queueOf. cbn [queues].
      by rewrite lookup_singleton_eq. }
    cbn [length]. rewrite (decide_False (P := (2 < 2)%nat)) by lia.
    cbn [matchPlayers findOpponent].
    rewrite decide_False by done. rewrite decide_True by done.
    rewrite (queued_Get t0 now alice 1000) by (left; done).
    rewrite (queued_Get t0 now bob 1300) by (right; done).
    destruct (Z.ltb_spec now (t0 + matchmakingTimeout)) as [Hlive|Hgone]; [|done].
    cbn [Rating JoinedAt].
    pose proof (tolerance_before_expiry t0 now Hlive) as Htol.
    replace (abs (wrap64 (1000 - 1300))) with 300 by (by vm_compute).
    rewrite (proj2 (Z.leb_gt _ _)) by lia. done. }
  split; [done|]. split; [rewrite Hsame; by rewrite queued_eq|].
  intros Htol.
  rewrite (queued_Get t0 now alice 1000) by (left; done).
  rewrite (queued_Get t0 now bob 1300) by (right; done).
  destruct (Z.ltb_spec now (t0 + matchmakingTimeout)) as [Hlive|Hgone]; [|done].
  pose proof (tolerance_before_expiry t0 now Hlive). lia.
Qed.
(** The sweep does pair two players whose ratings are within the base
    tolerance, at the first sweep after they have joined. *)
Example close_ratings_pair :
  games (processMatchmaking (queuedWith 0 1000 1050) (2 * Second))
  = [ {| Type_ := "chess"; Player1ID := alice; Player2ID := bob; CurrentTurn := alice |} ]
  ∧ ZRange (processMatchmaking (queuedWith 0 1000 1050) (2 * Second)) "chess" = [].
Proof. split; by vm_compute. Qed.

(** Were the two requests of the scenario still stored after eleven
    minutes, the tolerance, 320 by then, would pair them. *)
Example kept_requests_would_pair :
  calculateRatingTolerance (Since (11 * Minute) 0) = 320
  ∧ games (processMatchmaking keptForAnHour (11 * Minute))
    = [ {| Type_ := "chess"; Player1ID := alice; Player2ID := bob; CurrentTurn := alice |} ].
Proof. split; by vm_compute. Qed.

(** *** The queue and the two sweeps *)

Lemma queueOf_insert (s : Service) (gameType gameType' : string) (l : list (Z * N)) :
  default [] (<[gameType := l]> (queues s) !! gameType')
  = if decide (gameType = gameType') then l else queueOf s gameType'.
Proof.
  case_decide as Hg.
  - subst. by rewrite lookup_insert_eq.
  - by rewrite lookup_insert_ne.
Qed.

Lemma queueOf_ZRem (s : Service) (gameType : string) (members : list N) :
  queueOf (ZRem s gameType members) gameType = zrem members (queueOf s gameType).
Proof. unfold queueOf at 1. unfold ZRem. cbn [queues]. by rewrite lookup_insert_eq. Qed.

Lemma queueOf_ZRem_ne (s : Service) (gameType other : string) (members : list N) :
  other ≠ gameType → queueOf (ZRem s gameType members) other = queueOf s other.
Proof. intros Hne. unfold queueOf, ZRem. cbn [queues]. by rewrite lookup_insert_ne. Qed.

Lemma queueOf_ZAdd (s : Service) (gameType : string) (score : Z) (member : N) :
  queueOf (ZAdd s gameType score member) gameType
  = zinsert score member (zrem [member] (queueOf s gameType)).
Proof. unfold queueOf at 1. unfold ZAdd. cbn [queues]. by rewrite lookup_insert_eq. Qed.

Lemma queueOf_Del (s : Service) (key : N) (gameType : string) :
  queueOf (Del s key) gameType = queueOf s gameType.
Proof. done. Qed.

Lemma queueOf_Set_ (s : Service) (now : Z) (key : N) (value : MatchmakingRequest) (ttl : Z)
    (gameType : string) :
  queueOf (Set_ s now key value ttl) gameType = queueOf s gameType.
Proof. done. Qed.

Lemma zrem_none (member : N) (l : list (Z * N)) :
  Forall (fun e => e.2 ≠ member) l → filter (fun e : Z * N => e.2 = member) l = [].
Proof.
  induction 1 as [|e l He _ IH]; [done|]. rewrite filter_cons. by rewrite decide_False.
Qed.

Lemma zrem_spec (members : list N) (l : list (Z * N)) :
  (zrem members l).*2 = filter (fun member => member ∉ members) l.*2.
Proof.
  unfold zrem. induction l as [|[score member] l IH]; [done|].
  rewrite filter_cons. cbn [fmap list_fmap snd]. rewrite filter_cons.
  cbn [snd]. case_decide; cbn [fmap list_fmap snd]; by rewrite <- IH.
Qed.

Lemma zinsert_members (score : Z) (member : N) (l : list (Z * N)) :
  (zinsert score member l).*2 ≡ₚ member :: l.*2.
Proof.
  induction l as [|[s m] l IH]; [done|]. cbn [zinsert].
  case_match; [done|]. cbn [fmap list_fmap snd]. rewrite IH. apply Permutation_swap.
Qed.

Lemma zinsert_last (score : Z) (member : N) (l : list (Z * N)) :
  Forall (fun e => e.1 < score) l → zinsert score member l = l ++ [(score, member)].
Proof.
  induction 1 as [|[s m] l Hlt _ IH]; [done|]. cbn [zinsert]. cbn in Hlt.
  rewrite (proj2 (Z.ltb_ge score s)) by lia.
  rewrite (proj2 (Z.eqb_neq score s)) by lia. cbn [orb andb]. by rewrite IH.
Qed.

Lemma zinsert_score (score : Z) (member : N) (l : list (Z * N)) :
  Forall (fun e => e.2 ≠ member) l →
  filter (fun e => e.2 = member) (zinsert score member l) = [(score, member)].
Proof.
  induction 1 as [|[s m] l Hne Hall IH].
  { cbn [zinsert]. rewrite filter_cons. by rewrite decide_True. }
  cbn [zinsert]. cbn in Hne.
  pose proof (zrem_none _ _ Hall) as Hnone.
  case_match.
  - rewrite filter_cons. rewrite decide_True by done.
    rewrite filter_cons. rewrite decide_False by done. by rewrite Hnone.
  - rewrite filter_cons. rewrite decide_False by done. done.
Qed.

Lemma zrem_self (member : N) (l : list (Z * N)) :
  Forall (fun e => e.2 ≠ member) (zrem [member] l).
Proof.
  apply Forall_forall. intros e He. apply list_elem_of_filter in He as [He _].
  intros Heq. apply He. rewrite Heq. by apply list_elem_of_singleton.
Qed.

(** What an accepted [JoinQueue] writes. *)
Lemma JoinQueue_accepted (s s' : Service) (now : Z) (userID : N) (gameType : string)
    (rating : Z) :
  JoinQueue s now userID gameType rating = (s', None) →
  s' = Set_ (ZAdd s gameType (now / Second) userID) now userID
         (mkRequest userID gameType rating now) matchmakingTimeout.
Proof. unfold JoinQueue. case_match; [done|]. by intros [= <-]. Qed.

Lemma JoinQueue_ZScore (s s' : Service) (t0 : Z) (userID : N) (gameType : string)
    (rating : Z) :
  JoinQueue s t0 userID gameType rating = (s', None) →
  ZScore s' gameType userID = Some (t0 / Second).
Proof.
  intros Hjoin. apply JoinQueue_accepted in Hjoin as ->.
  unfold ZScore. rewrite queueOf_Set_, queueOf_ZAdd.
  by rewrite zinsert_score by apply zrem_self.
Qed.

(** X17.  An accepted [JoinQueue] can be read back: until the request
    expires, [matchmakingTimeout] after the join, [GetQueueStatus] returns
    the request as submitted, whichever game type it is asked about (the
    request is stored under the user alone); from the expiry on it reports
    that the user is not in a queue, while the user is still a member of
    the queue, with the second of the join as score. *)
Theorem JoinQueue_then_status (s s' : Service) (t0 : Z) (userID : N) (gameType : string)
    (rating : Z) :
  JoinQueue s t0 userID gameType rating = (s', None) →
  (∀ now anyType,
     GetQueueStatus s' now userID anyType
     = if now <? t0 + matchmakingTimeout
       then (Some (mkRequest userID gameType rating t0), None)
       else (None, Some "user not in matchmaking queue"))
  ∧ userID ∈ ZRange s' gameType
  ∧ ZScore s' gameType userID = Some (t0 / Second).
Proof.
  intros Hjoin. pose proof (JoinQueue_ZScore _ _ _ _ _ _ Hjoin) as Hscore.
  apply JoinQueue_accepted in Hjoin as ->.
  split.
  { intros now anyType. unfold GetQueueStatus, Get, Set_. cbn [requests].
    rewrite lookup_insert_eq. by destruct (now <? t0 + matchmakingTimeout). }
  split; [|done].
  unfold ZRange. rewrite queueOf_Set_, queueOf_ZAdd, zinsert_members. by left.
Qed.

(** X18.  A user who has joined a queue (at any second but second 0 of the
    epoch, the score the membership test takes for absence) is refused a
    second join of the same queue, with the service unchanged; this holds
    at every later instant, after the request has expired too, for as long
    as the member is in the queue. *)
Theorem JoinQueue_twice (s s' : Service) (t0 : Z) (userID : N) (gameType : string)
    (rating : Z) :
  JoinQueue s t0 userID gameType rating = (s', None) →
  t0 / Second ≠ 0 →
  ∀ now rating',
    JoinQueue s' now userID gameType rating'
    = (s', Some "user already in matchmaking queue").
Proof.
  intros Hjoin Hscore now rating'.
  unfold JoinQueue. rewrite (JoinQueue_ZScore _ _ _ _ _ _ Hjoin).
  by rewrite (proj2 (Z.eqb_neq _ _) Hscore).
Qed.

Lemma JoinQueue_then_status_witness :
  JoinQueue NewMatchmakingService (90 * Second) alice "chess" 1000 = (queuedOnce, None)
  ∧ GetQueueStatus queuedOnce (100 * Second) alice "dominoes"
    = (Some (mkRequest alice "chess" 1000 (90 * Second)), None)
  ∧ GetQueueStatus queuedOnce (400 * Second) alice "chess"
    = (None, Some "user not in matchmaking queue").
Proof.
  assert (JoinQueue NewMatchmakingService (90 * Second) alice "chess" 1000
          = (queuedOnce, None)) as Hjoin by reflexivity.
  split; [exact Hjoin|].
  destruct (JoinQueue_then_status _ _ _ _ _ _ Hjoin) as (Hstatus & _).
  split; [exact (Hstatus (100 * Second) "dominoes")|exact (Hstatus (400 * Second) "chess")].
Defined.

Lemma JoinQueue_twice_witness :
  JoinQueue NewMatchmakingService (90 * Second) alice "chess" 1000
  = (queuedOnce, None)
  ∧ JoinQueue queuedOnce (1000 * Minute) alice "chess" 1200
    = (queuedOnce, Some "user already in matchmaking queue").
Proof.
  assert (JoinQueue NewMatchmakingService (90 * Second) alice "chess" 1000
          = (queuedOnce, None)) as Hjoin by reflexivity.
  split; [exact Hjoin|].
  apply (JoinQueue_twice _ _ _ _ _ _ Hjoin). by vm_compute.
Defined.

(** X19.  The queue is first in, first out across seconds: a user who
    joins at a later second than every member of the queue is put at its
    end, behind the members in their order. *)
Theorem JoinQueue_appends (s s' : Service) (t0 : Z) (userID : N) (gameType : string)
    (rating : Z) :
  JoinQueue s t0 userID gameType rating = (s', None) →
  (∀ entry, entry ∈ queueOf s gameType → entry.1 < t0 / Second) →
  ZRange s' gameType
  = filter (fun member => member ≠ userID) (ZRange s gameType) ++ [userID].
Proof.
  intros Hjoin Hlater. apply JoinQueue_accepted in Hjoin as ->.
  unfold ZRange at 1. rewrite queueOf_Set_, queueOf_ZAdd.
  rewrite zinsert_last.
  - rewrite fmap_app. cbn [fmap list_fmap snd]. f_equal.
    rewrite zrem_spec. unfold ZRange. apply list_filter_iff.
    intros member. split.
    + intros Hnot ->. apply Hnot. by apply list_elem_of_singleton.
    + intros Hne Hin. by apply list_elem_of_singleton in Hin.
  - apply Forall_forall. intros entry Hin.
    apply list_elem_of_filter in Hin as [_ Hin]. by apply Hlater.
Qed.

Lemma JoinQueue_appends_witness :
  ZRange (queuedWith 0 1000 1300) "chess" = [alice; bob]
  ∧ ZRange (JoinQueue (queuedWith 0 1000 1300) (3 * Second) 7%N "chess" 1100).1 "chess"
    = [alice; bob; 7%N].
Proof.
  split; [reflexivity|].
  rewrite (JoinQueue_appends (queuedWith 0 1000 1300)
             (JoinQueue (queuedWith 0 1000 1300) (3 * Second) 7%N "chess" 1100).1
             (3 * Second) 7%N "chess" 1100).
  - reflexivity.
  - reflexivity.
  - intros entry Hin.
    assert (Forall (fun entry : Z * N => entry.1 < 3 * Second / Second)
                   (queueOf (queuedWith 0 1000 1300) "chess")) as Hall
      by (apply (bool_decide_unpack _); by vm_compute).
    rewrite Forall_forall in Hall. by apply Hall.
Defined.

(** X20.  [LeaveQueue] takes the user out of the queue of the game type,
    the other members staying in their order, and deletes the user's
    request, so that [GetQueueStatus] reports absence whatever game type it
    is asked about; the other queues, the other users' requests and the
    games are untouched, and the user may join the queue again. *)
Theorem LeaveQueue_removes (s : Service) (userID : N) (gameType : string) :
  let s' := LeaveQueue s userID gameType in
  ZRange s' gameType = filter (fun member => member ≠ userID) (ZRange s gameType)
  ∧ (∀ now anyType,
       GetQueueStatus s' now userID anyType = (None, Some "user not in matchmaking queue"))
  ∧ (∀ other, other ≠ gameType → queueOf s' other = queueOf s other)
  ∧ (∀ now other, other ≠ userID → Get s' now other = Get s now other)
  ∧ games s' = games s
  ∧ (∀ now rating, (JoinQueue s' now userID gameType rating).2 = None).
Proof.
  cbn zeta. unfold LeaveQueue. split.
  { unfold ZRange at 1. rewrite queueOf_Del, queueOf_ZRem.
    rewrite zrem_spec. unfold ZRange. apply list_filter_iff.
    intros member. split.
    + intros Hnot ->. apply Hnot. by apply list_elem_of_singleton.
    + intros Hne Hin. by apply list_elem_of_singleton in Hin. }
  split.
  { intros now anyType. unfold GetQueueStatus, Get, Del. cbn [requests].
    by rewrite lookup_delete_eq. }
  split.
  { intros other Hother. by rewrite queueOf_Del, queueOf_ZRem_ne. }
  split.
  { intros now other Hother. unfold Get, Del, ZRem. cbn [requests].
    by rewrite lookup_delete_ne. }
  split; [done|].
  intros now rating. unfold JoinQueue, ZScore.
  rewrite queueOf_Del, queueOf_ZRem.
  by rewrite (zrem_none _ _ (zrem_self userID (queueOf s gameType))).
Qed.

Lemma findOpponent_Some (s s' : Service) (now : Z) (gameType : string) (player1ID : N)
    (request1 : MatchmakingRequest) (tolerance : Z) (later : list N) :
  findOpponent s now gameType player1ID request1 tolerance later = Some s' →
  ∃ between player2ID after request2,
    later = between ++ player2ID :: after
    ∧ getMatchmakingRequest s now player2ID = Some request2
    ∧ abs (wrap64 (Rating request1 - Rating request2)) <= tolerance
    ∧ GameType request1 ∈ registry s
    ∧ s' = afterMatch s gameType player1ID player2ID request1 request2.
Proof.
  induction later as [|player2ID rest IH]; cbn [findOpponent]; [done|].
  assert (findOpponent s now gameType player1ID request1 tolerance rest = Some s' →
          ∃ between player2ID0 after request2,
            player2ID :: rest = between ++ player2ID0 :: after
            ∧ getMatchmakingRequest s now player2ID0 = Some request2
            ∧ abs (wrap64 (Rating request1 - Rating request2)) <= tolerance
            ∧ GameType request1 ∈ registry s
            ∧ s' = afterMatch s gameType player1ID player2ID0 request1 request2) as Hskip.
  { intros Hrest. destruct (IH Hrest) as (between & p2 & after & r2 & -> & Hrest').
    by exists (player2ID :: between), p2, after, r2. }
  destruct (getMatchmakingRequest s now player2ID) as [request2|] eqn:Hget; [|done].
  destruct (Z.leb_spec (abs (wrap64 (Rating request1 - Rating request2))) tolerance)
    as [Hclose|Hfar]; [|done].
  unfold createMatch. case_bool_decide as Hengine; [|done].
  intros [= <-]. exists [], player2ID, rest, request2.
  do 4 (split; [done|]). done.
Qed.

Lemma findOpponent_None (s : Service) (now : Z) (gameType : string) (player1ID : N)
    (request1 : MatchmakingRequest) (tolerance : Z) (later : list N) :
  findOpponent s now gameType player1ID request1 tolerance later = None →
  ∀ player2ID request2,
    player2ID ∈ later →
    getMatchmakingRequest s now player2ID = Some request2 →
    abs (wrap64 (Rating request1 - Rating request2)) <= tolerance →
    GameType request1 ∉ registry s.
Proof.
  induction later as [|p rest IH]; cbn [findOpponent]; intros Hnone p2 r2 Hin Hget Hclose.
  { by apply elem_of_nil in Hin. }
  apply elem_of_cons in Hin as [->|Hin].
  - rewrite Hget in Hnone.
    rewrite (proj2 (Z.leb_le _ _) Hclose) in Hnone.
    unfold createMatch in Hnone. by case_bool_decide.
  - apply (IH) with (player2ID := p2) (request2 := r2); try done.
    destruct (getMatchmakingRequest s now p) as [r|]; [|done].
    destruct (abs (wrap64 (Rating request1 - Rating r)) <=? tolerance); [|done].
    unfold createMatch in Hnone. by case_bool_decide.
Qed.

(** The outcome of [matchPlayers], without the positions in the queue. *)
Lemma matchPlayers_outcome_aux (s : Service) (now : Z) (gameType : string)
    (userIDs : list N) :
  matchPlayers s now gameType userIDs = s
  ∨ ∃ player1ID player2ID request1 request2,
      getMatchmakingRequest s now player1ID = Some request1
      ∧ getMatchmakingRequest s now player2ID = Some request2
      ∧ compatible s now request1 request2
      ∧ matchPlayers s now gameType userIDs
        = afterMatch s gameType player1ID player2ID request1 request2.
Proof.
  induction userIDs as [|player1ID later IH]; cbn [matchPlayers]; [by left|].
  case_decide; [by left|].
  destruct (getMatchmakingRequest s now player1ID) as [request1|] eqn:Hget; [|done].
  destruct (findOpponent s now gameType player1ID request1
              (calculateRatingTolerance (Since now (JoinedAt request1))) later)
    as [s'|] eqn:Hfind; [|done].
  apply findOpponent_Some in Hfind
    as (between & player2ID & after & request2 & -> & Hget2 & Hclose & Hengine & ->).
  right. exists player1ID, player2ID, request1, request2.
  do 2 (split; [done|]). split; [by split|done].
Qed.


(** X22.  [matchPlayers] misses no pair: whenever some member has a stored
    request, and a later member of the queue has a stored request that is
    compatible with it, the run makes a match (of the first such pair in
    queue order or of an earlier one) and the games grow by one. *)
Theorem matchPlayers_complete (s : Service) (now : Z) (gameType : string)
    (before between after : list N) (player1ID player2ID : N)
    (request1 request2 : MatchmakingRequest) :
  getMatchmakingRequest s now player1ID = Some request1 →
  getMatchmakingRequest s now player2ID = Some request2 →
  compatible s now request1 request2 →
  length (games (matchPlayers s now gameType
                   (before ++ player1ID :: between ++ player2ID :: after)))
  = S (length (games s)).
Proof.
  intros Hget1 Hget2 [Hclose Hengine].
  assert (∀ p r later s',
            findOpponent s now gameType p r
              (calculateRatingTolerance (Since now (JoinedAt r))) later = Some s' →
            length (games s') = S (length (games s))) as Hfound.
  { intros p r later s' Hfind.
    apply findOpponent_Some in Hfind as (? & ? & ? & ? & _ & _ & _ & _ & ->).
    unfold afterMatch. cbn [games]. rewrite length_app. cbn [length]. lia. }
  induction before as [|head before IH].
  - cbn [app matchPlayers]. rewrite decide_False by (by destruct between).
    rewrite Hget1.
    destruct (findOpponent s now gameType player1ID request1
                (calculateRatingTolerance (Since now (JoinedAt request1)))
                (between ++ player2ID :: after)) as [s'|] eqn:Hfind; [by eapply Hfound|].
    exfalso.
    apply (findOpponent_None _ _ _ _ _ _ _ Hfind player2ID request2); try done.
    apply elem_of_app. right. by left.
  - cbn [app matchPlayers]. rewrite decide_False by (by destruct before).
    destruct (getMatchmakingRequest s now head) as [request|]; [|done].
    destruct (findOpponent s now gameType head request
                (calculateRatingTolerance (Since now (JoinedAt request)))
                (before ++ player1ID :: between ++ player2ID :: after)) as [s'|] eqn:Hfind;
      [by eapply Hfound|done].
Qed.

Lemma matchPlayers_complete_witness :
  length (games (matchPlayers (queuedWith 0 1000 1050) (2 * Second) "chess" [alice; bob]))
  = 1%nat.
Proof.
  apply (matchPlayers_complete (queuedWith 0 1000 1050) (2 * Second) "chess" [] [] []
           alice bob (mkRequest alice "chess" 1000 0) (mkRequest bob "chess" 1050 0)).
  - reflexivity.
  - reflexivity.
  - split; [by vm_compute|].
    apply (bool_decide_unpack _). by vm_compute.
Defined.

Lemma processMatchmaking_sweep (s : Service) (now : Z) :
  processMatchmaking s now = foldl (sweep now) s (registry s).
Proof. done. Qed.

Lemma cleanupExpiredRequests_cleanup (s : Service) (now : Z) :
  cleanupExpiredRequests s now = foldl (cleanup now) s (registry s).
Proof. done. Qed.


Lemma foldl_Del (l : list N) :
  ∀ s,
    registry (foldl Del s l) = registry s
    ∧ queues (foldl Del s l) = queues s
    ∧ games (foldl Del s l) = games s
    ∧ ∀ userID,
        requests (foldl Del s l) !! userID
        = if decide (userID ∈ l) then None else requests s !! userID.
Proof.
  induction l as [|key l IH]; intros s; cbn [foldl].
  { do 3 (split; [done|]). intros userID.
    rewrite decide_False; [done|]. apply not_elem_of_nil. }
  destruct (IH (Del s key)) as (-> & -> & -> & Hget).
  do 3 (split; [done|]). intros userID. rewrite Hget. unfold Del. cbn [requests].
  destruct (decide (userID = key)) as [->|Hne].
  - rewrite lookup_delete_eq. rewrite (decide_True (P := key ∈ key :: l)) by (by left).
    by case_decide.
  - rewrite lookup_delete_ne by done.
    case_decide as Hin.
    + rewrite decide_True; [done|]. by right.
    + rewrite decide_False; [done|]. intros Hin'. by apply elem_of_cons in Hin' as [?|?].
Qed.

Lemma sweep_outcome (s : Service) (now : Z) (gameType : string) :
  sweep now s gameType = s
  ∨ ∃ player1ID player2ID request1 request2,
      getMatchmakingRequest s now player1ID = Some request1
      ∧ getMatchmakingRequest s now player2ID = Some request2
      ∧ compatible s now request1 request2
      ∧ sweep now s gameType = afterMatch s gameType player1ID player2ID request1 request2.
Proof.
  unfold sweep. cbn zeta. case_decide; [by left|].
  destruct (matchPlayers_outcome_aux s now gameType (ZRange s gameType))
    as [Hsame | (p1 & p2 & r1 & r2 & H1 & H2 & Hc & Heq)]; [by left|].
  right. by exists p1, p2, r1, r2.
Qed.











(** The extreme ratings: for two players rated -2^62 and 2^62 the 64-bit
    difference wraps round to -2^63, which [abs] returns as it is, below
    every tolerance: the first sweep pairs them. *)
Example extreme_ratings_pair :
  abs (wrap64 (- 2 ^ 62 - 2 ^ 62)) = - 2 ^ 63
  ∧ games (processMatchmaking (queuedWith 0 (- 2 ^ 62) (2 ^ 62)) (2 * Second))
    = [ {| Type_ := "chess"; Player1ID := alice; Player2ID := bob; CurrentTurn := alice |} ].
Proof. split; by vm_compute. Qed.

(** X25.  A matching sweep keeps the games there are and makes at most one
    match for each registered game type, however many compatible pairs are
    waiting; the engine registry is unchanged. *)
Theorem processMatchmaking_one_match_per_type (s : Service) (now : Z) :
  registry (processMatchmaking s now) = registry s
  ∧ ∃ made,
      games (processMatchmaking s now) = games s ++ made
      ∧ (length made <= length (registry s))%nat.
Proof.
  rewrite processMatchmaking_sweep. generalize (registry s) at 1 3 4.
  intros gameTypes. revert s.
  induction gameTypes as [|gameType rest IH]; intros s; cbn [foldl].
  { split; [done|]. exists []. by rewrite app_nil_r. }
  destruct (IH (sweep now s gameType)) as (-> & made & -> & Hlen).
  destruct (sweep_outcome s now gameType) as [-> | (p1 & p2 & r1 & r2 & _ & _ & _ & ->)].
  - split; [done|]. exists made. split; [done|]. cbn [length]. lia.
  - unfold afterMatch. cbn [registry games]. split; [done|].
    eexists (_ :: made). split; [by rewrite <- app_assoc|]. cbn [length]. lia.
Qed.

(** *** Cleanup *)

Lemma filter_ext_elem {A : Type} (P Q : A → Prop) `{!∀ x, Decision (P x)}
    `{!∀ x, Decision (Q x)} (l : list A) :
  (∀ x, x ∈ l → (P x ↔ Q x)) → filter P l = filter Q l.
Proof.
  induction l as [|x l IH]; intros Hiff; [done|].
  rewrite !filter_cons.
  assert (filter P l = filter Q l) as -> by (apply IH; intros y Hy; apply Hiff; by right).
  destruct (Hiff x) as [HPQ HQP]; [by left|].
  destruct (decide (P x)), (decide (Q x)); try done; by intuition.
Qed.

Lemma filter_all {A : Type} (P : A → Prop) `{!∀ x, Decision (P x)} (l : list A) :
  (∀ x, x ∈ l → P x) → filter P l = l.
Proof.
  induction l as [|x l IH]; intros Hall; [done|].
  rewrite filter_cons. rewrite decide_True by (apply Hall; by left).
  rewrite IH; [done|]. intros y Hy. apply Hall. by right.
Qed.

Lemma zrem_nil (l : list (Z * N)) : zrem [] l = l.
Proof.
  unfold zrem. induction l as [|e l IH]; [done|].
  rewrite filter_cons. rewrite decide_True by apply not_elem_of_nil. by rewrite IH.
Qed.

(** One pass of the cleanup over the queue of [gameType]. *)
Lemma cleanup_spec (now : Z) (s : Service) (gameType : string) :
  let s' := cleanup now s gameType in
  (∀ userID, expired s' now userID = expired s now userID)
  ∧ (∀ userID, expired s now userID = false →
               getMatchmakingRequest s' now userID = getMatchmakingRequest s now userID)
  ∧ registry s' = registry s
  ∧ games s' = games s
  ∧ ∀ other,
      ZRange s' other
      = if decide (other = gameType)
        then filter (fun userID => expired s now userID = false) (ZRange s other)
        else ZRange s other.
Proof.
  cbn zeta. unfold cleanup. cbn zeta.
  set (expiredUsers := List.filter (expired s now) (ZRange s gameType)).
  assert (∀ userID, userID ∈ expiredUsers → expired s now userID = true) as Hexpired.
  { intros userID Hin. apply list_elem_of_In, filter_In in Hin. tauto. }
  case_decide as Hsome.
  - destruct (foldl_Del expiredUsers (ZRem s gameType expiredUsers))
      as (Hregistry & Hqueues & Hgames & Hrequests).
    assert (∀ userID,
              getMatchmakingRequest
                (foldl Del (ZRem s gameType expiredUsers) expiredUsers) now userID
              = if decide (userID ∈ expiredUsers) then None
                else getMatchmakingRequest s now userID) as Hget.
    { intros userID. unfold getMatchmakingRequest, Get. rewrite Hrequests.
      by case_decide. }
    split.
    { intros userID. unfold expired at 1. rewrite Hget.
      case_decide as Hin; [by rewrite (Hexpired _ Hin)|done]. }
    split.
    { intros userID Hlive. rewrite Hget. rewrite decide_False; [done|].
      intros Hin. apply Hexpired in Hin. congruence. }
    split; [done|]. split; [done|].
    intros other. unfold ZRange at 1. unfold queueOf at 1. rewrite Hqueues.
    fold (queueOf (ZRem s gameType expiredUsers) other).
    case_decide as Hother.
    + subst other. rewrite queueOf_ZRem, zrem_spec. fold (ZRange s gameType).
      apply filter_ext_elem. intros userID Hin. split.
      * intros Hnot. destruct (expired s now userID) eqn:Hexp; [|done].
        destruct Hnot. apply list_elem_of_In, filter_In. split; [|done].
        by apply list_elem_of_In.
      * intros Hlive Hin'. apply Hexpired in Hin'. congruence.
    + by rewrite queueOf_ZRem_ne.
  - assert (expiredUsers = []) as Hnone by (destruct expiredUsers; [done|cbn in Hsome; lia]).
    split; [done|]. split; [done|]. split; [done|]. split; [done|].
    intros other. case_decide as Hother; [|done]. subst other.
    symmetry. apply filter_all. intros userID Hin.
    destruct (expired s now userID) eqn:Hexp; [|done].
    assert (userID ∈ expiredUsers) as Hin'.
    { apply list_elem_of_In, filter_In. split; [by apply list_elem_of_In|done]. }
    rewrite Hnone in Hin'. by apply elem_of_nil in Hin'.
Qed.

Lemma cleanups_spec (now : Z) (gameTypes : list string) :
  ∀ s,
    let s' := foldl (cleanup now) s gameTypes in
    (∀ userID, expired s' now userID = expired s now userID)
    ∧ (∀ userID, expired s now userID = false →
                 getMatchmakingRequest s' now userID = getMatchmakingRequest s now userID)
    ∧ registry s' = registry s
    ∧ games s' = games s
    ∧ ∀ other,
        ZRange s' other
        = if decide (other ∈ gameTypes)
          then filter (fun userID => expired s now userID = false) (ZRange s other)
          else ZRange s other.
Proof.
  induction gameTypes as [|gameType rest IH]; intros s; cbn zeta; cbn [foldl].
  { do 4 (split; [done|]). intros other. rewrite decide_False; [done|].
    apply not_elem_of_nil. }
  destruct (cleanup_spec now s gameType) as (Hexp1 & Hget1 & Hreg1 & Hgames1 & Hrange1).
  destruct (IH (cleanup now s gameType)) as (Hexp & Hget & Hreg & Hgames & Hrange).
  split; [intros userID; by rewrite Hexp, Hexp1|].
  split; [intros userID Hlive; rewrite Hget by (by rewrite Hexp1); by apply Hget1|].
  split; [by rewrite Hreg|]. split; [by rewrite Hgames|].
  intros other. rewrite Hrange, !Hrange1.
  assert (∀ l : list N,
            filter (fun userID => expired (cleanup now s gameType) now userID = false) l
            = filter (fun userID => expired s now userID = false) l) as Hsame.
  { intros l. apply filter_ext_elem. intros userID _. by rewrite Hexp1. }
  rewrite Hsame.
  destruct (decide (other = gameType)) as [->|Hne].
  - rewrite (decide_True (P := gameType ∈ gameType :: rest)) by (by left).
    case_decide; [|done].
    apply filter_all. intros userID Hin.
    by apply list_elem_of_filter in Hin as [Hlive _].
  - case_decide as Hin.
    + rewrite decide_True; [done|]. by right.
    + rewrite decide_False; [done|]. intros Hin'. by apply elem_of_cons in Hin' as [?|?].
Qed.

(** X26.  What a cleanup leaves.  A member of a queue counts as expired
    when no request of it is stored any more or its request is older than
    [matchmakingTimeout].  After [cleanupExpiredRequests] the queue of
    every registered game type holds exactly its members that were not
    expired, in their order, and each of them still has its request; the
    queues of other game types and the games are untouched. *)
Theorem cleanupExpiredRequests_exact (s : Service) (now : Z) :
  let s' := cleanupExpiredRequests s now in
  (∀ gameType,
     ZRange s' gameType
     = if decide (gameType ∈ registry s)
       then filter (fun userID => expired s now userID = false) (ZRange s gameType)
       else ZRange s gameType)
  ∧ (∀ userID, expired s now userID = false →
               getMatchmakingRequest s' now userID = getMatchmakingRequest s now userID)
  ∧ (∀ gameType userID,
       gameType ∈ registry s → userID ∈ ZRange s' gameType →
       expired s' now userID = false)
  ∧ games s' = games s.
Proof.
  cbn zeta. rewrite cleanupExpiredRequests_cleanup.
  destruct (cleanups_spec now (registry s) s) as (Hexp & Hget & _ & Hgames & Hrange).
  split; [done|]. split; [done|]. split; [|done].
  intros gameType userID Hreg Hin. rewrite Hrange in Hin.
  rewrite decide_True in Hin by done.
  apply list_elem_of_filter in Hin as [Hlive _]. by rewrite Hexp.
Qed.

End MatchmakingFacts.

(** ** The session hub *)

Section HubFacts.
Import Hub.



(** C9, as the code behaves.  The claim wants every room of the registry to
    have a member in every reachable state.  After a client has joined a
    room and 256 room broadcasts have found it not reading, the last
    broadcast evicts it from the room, and the room, now without a member,
    is still in the registry. *)
Theorem C9_empty_room_survives :
  ∃ h,
    run NewHub slowClient = Ok h
    ∧ rooms h !! "game-1" = Some ∅
    ∧ ¬ roomsInhabited h.
Proof.
  assert (∃ h, run NewHub slowClient = Ok h ∧ rooms h !! "game-1" = Some ∅)
    as (h & Hrun & Hroom).
  { eexists. split; [by vm_compute|]. by vm_compute. }
  exists h. split; [done|]. split; [done|].
  intros Hinv. by apply (Hinv "game-1" ∅).
Qed.

(** The sibling path: a room whose last member leaves is destroyed. *)
Example leave_destroys_room :
  ∃ h, run NewHub joinAndLeave = Ok h ∧ rooms h !! "game-1" = None ∧ roomsInhabited h.
Proof.
  assert (∃ h, run NewHub joinAndLeave = Ok h ∧ rooms h = ∅) as (h & Hrun & Hrooms).
  { eexists. split; by vm_compute. }
  exists h. split; [done|]. rewrite Hrooms. split; [done|].
  intros roomID members Hin. by rewrite Hrooms, lookup_empty in Hin.
Qed.

(** *** Delivery, eviction and the members of the rooms *)

Lemma deliver_eq (roomID : string) (message : Message) (h : Hub) (id : N) (client : Client) :
  objects h !! id = Some client → closed client = false →
  deliver roomID message h id
  = Ok {| objects := <[id := reached message client]> (objects h);
          clients := clients h;
          rooms := if decide (length (Send client) < sendCapacity)%nat then rooms h
                   else alter (fun members => members ∖ {[id]}) roomID (rooms h) |}.
Proof.
  intros Hobj Hopen. unfold deliver, reached. rewrite Hobj, Hopen.
  by case_decide.
Qed.

Lemma deliverAll_spec (roomID : string) (message : Message) (ids : list N) :
  ∀ h,
    NoDup ids →
    (∀ id, id ∈ ids → ∃ client, objects h !! id = Some client ∧ closed client = false) →
    ∃ h',
      deliverAll roomID message h ids = Ok h'
      ∧ clients h' = clients h
      ∧ (∀ id, objects h' !! id
               = if decide (id ∈ ids) then reached message <$> objects h !! id
                 else objects h !! id)
      ∧ (∀ other, other ≠ roomID → rooms h' !! other = rooms h !! other)
      ∧ (rooms h !! roomID = None → rooms h' !! roomID = None)
      ∧ (∀ members,
           rooms h !! roomID = Some members →
           ∃ members',
             rooms h' !! roomID = Some members'
             ∧ ∀ id, id ∈ members' ↔ id ∈ members ∧ ¬ (id ∈ ids ∧ full h id = true)).
Proof.
  induction ids as [|id rest IH]; intros h Hnodup Hopen; cbn [deliverAll].
  { exists h. split; [done|]. split; [done|]. split.
    { intros id. rewrite decide_False; [done|]. apply not_elem_of_nil. }
    split; [done|]. split; [done|].
    intros members Hroom. exists members. split; [done|].
    intros id. split; [|tauto]. intros Hin. split; [done|].
    intros [Hnil _]. by apply elem_of_nil in Hnil. }
  apply NoDup_cons in Hnodup as [Hfresh Hnodup].
  destruct (Hopen id) as (client & Hobj & Hclosed); [by left|].
  rewrite (deliver_eq _ _ _ _ _ Hobj Hclosed). cbn [rbind].
  set (h1 := {| objects := <[id := reached message client]> (objects h);
                clients := clients h;
                rooms := if decide (length (Send client) < sendCapacity)%nat then rooms h
                         else alter (fun members => members ∖ {[id]}) roomID (rooms h) |}).
  assert (∀ x, x ≠ id → objects h1 !! x = objects h !! x) as Hother.
  { intros x Hx. unfold h1. cbn [objects]. by rewrite lookup_insert_ne. }
  assert (∀ x, x ∈ rest → x ≠ id) as Hrest by (intros x Hx ->; done).
  destruct (IH h1 Hnodup) as (h' & Hrun & Hclients & Hobjects & Hrooms & Hnone & Hsome).
  { intros x Hx. rewrite (Hother x (Hrest x Hx)). apply Hopen. by right. }
  exists h'. split; [done|]. split; [done|]. split.
  { intros x. rewrite Hobjects.
    destruct (decide (x = id)) as [->|Hx].
    - rewrite decide_False by done. rewrite (decide_True (P := id ∈ id :: rest)) by (by left).
      unfold h1. cbn [objects]. by rewrite lookup_insert_eq, Hobj.
    - rewrite (Hother x Hx). case_decide as Hin.
      + rewrite decide_True; [done|]. by right.
      + rewrite decide_False; [done|]. intros Hin'. by apply elem_of_cons in Hin' as [?|?]. }
  split.
  { intros other Hne. rewrite (Hrooms other Hne). unfold h1. cbn [rooms].
    case_decide; [done|]. by rewrite lookup_alter_ne. }
  split.
  { intros Hroom. apply Hnone. unfold h1. cbn [rooms].
    case_decide; [done|]. by rewrite lookup_alter_eq, Hroom. }
  intros members Hroom.
  assert (full h id = bool_decide (sendCapacity <= length (Send client))%nat) as Hfull
    by (unfold full; by rewrite Hobj).
  assert (∀ x, x ∈ rest → full h1 x = full h x) as Hfull'.
  { intros x Hx. unfold full. by rewrite (Hother x (Hrest x Hx)). }
  destruct (decide (length (Send client) < sendCapacity)%nat) as [Hroomy|Hfilled].
  - destruct (Hsome members) as (members' & Hroom' & Hin'); [done|].
    exists members'. split; [done|]. intros x. rewrite Hin'. split.
    + intros [Hx Hnot]. split; [done|]. intros [Hmem Hfx].
      apply elem_of_cons in Hmem as [->|Hmem].
      * rewrite Hfull in Hfx. apply bool_decide_eq_true in Hfx. lia.
      * apply Hnot. split; [done|]. by rewrite Hfull'.
    + intros [Hx Hnot]. split; [done|]. intros [Hmem Hfx]. apply Hnot.
      split; [by right|]. by rewrite <- Hfull'.
  - destruct (Hsome (members ∖ {[id]})) as (members' & Hroom' & Hin').
    { unfold h1. cbn [rooms]. by rewrite lookup_alter_eq, Hroom. }
    exists members'. split; [done|]. intros x. rewrite Hin'. split.
    + intros [Hx Hnot]. apply elem_of_difference in Hx as [Hx Hxid].
      split; [done|]. intros [Hmem Hfx].
      apply elem_of_cons in Hmem as [->|Hmem]; [set_solver|].
      apply Hnot. split; [done|]. by rewrite Hfull'.
    + intros [Hx Hnot]. split.
      * apply elem_of_difference. split; [done|]. intros Hxid.
        apply elem_of_singleton in Hxid as ->. apply Hnot. split; [by left|].
        rewrite Hfull. apply bool_decide_eq_true. lia.
      * intros [Hmem Hfx]. apply Hnot. split; [by right|]. by rewrite <- Hfull'.
Qed.

(** X27.  A room broadcast to a room whose members all have an open
    channel reaches every member once: a member with room in its buffer
    gets the message behind the ones it holds, a member whose 256 slots
    are taken has its channel closed and is taken out of the room.  An
    evicted member stays in the registry of clients and keeps the room in
    its own set of rooms; no other client, no other room is touched. *)
Theorem BroadcastToRoom_delivers (h : Hub) (roomID : string) (message : Message)
    (members : gset N) :
  rooms h !! roomID = Some members →
  (∀ id, id ∈ members → ∃ client, objects h !! id = Some client ∧ closed client = false) →
  ∃ h' members',
    BroadcastToRoom h roomID message = Ok h'
    ∧ clients h' = clients h
    ∧ (∀ id, objects h' !! id
             = if decide (id ∈ members) then reached message <$> objects h !! id
               else objects h !! id)
    ∧ rooms h' !! roomID = Some members'
    ∧ (∀ id, id ∈ members' ↔ id ∈ members ∧ full h id = false)
    ∧ (∀ other, other ≠ roomID → rooms h' !! other = rooms h !! other).
Proof.
  intros Hroom Hopen. unfold BroadcastToRoom, broadcastToRoom. rewrite Hroom.
  destruct (deliverAll_spec roomID message (elements members) h)
    as (h' & Hrun & Hclients & Hobjects & Hrooms & _ & Hsome).
  { apply NoDup_elements. }
  { intros id Hin. apply Hopen. by apply elem_of_elements. }
  destruct (Hsome members Hroom) as (members' & Hroom' & Hin').
  exists h', members'. split; [done|]. split; [done|]. split.
  { intros id. rewrite Hobjects.
    destruct (decide (id ∈ elements members)) as [Hin|Hin];
      destruct (decide (id ∈ members)) as [Hmem|Hmem]; try done.
    - destruct Hmem. by apply elem_of_elements.
    - destruct Hin. by apply elem_of_elements. }
  split; [done|]. split; [|done].
  intros id. rewrite Hin'. split.
  - intros [Hmem Hnot]. split; [done|].
    destruct (full h id) eqn:Hfull; [|done].
    destruct Hnot. split; [by apply elem_of_elements|done].
  - intros [Hmem Hfull]. split; [done|]. intros [_ Hfull']. congruence.
Qed.

Lemma BroadcastToRoom_delivers_witness :
  ∃ h h',
    run NewHub [Register 1%N 7%N; Join 1%N "game-1"] = Ok h
    ∧ BroadcastToRoom h "game-1" chat = Ok h'
    ∧ clients h' = clients h
    ∧ rooms h' !! "game-2" = rooms h !! "game-2".
Proof.
  assert (∃ h client,
            run NewHub [Register 1%N 7%N; Join 1%N "game-1"] = Ok h
            ∧ rooms h !! "game-1" = Some {[1%N]}
            ∧ objects h !! 1%N = Some client ∧ closed client = false)
    as (h & client & Hrun & Hroom & Hobj & Hopen).
  { eexists _, _. split; [by vm_compute|]. split; [by vm_compute|]. split; by vm_compute. }
  destruct (BroadcastToRoom_delivers h "game-1" chat {[1%N]} Hroom)
    as (h' & members' & Hcast & Hclients & _ & _ & _ & Hothers).
  { intros id Hin. apply elem_of_singleton in Hin as ->. by exists client. }
  exists h, h'. split; [done|]. split; [done|]. split; [done|]. by apply Hothers.
Defined.

(** *** What a broadcast leaves alone *)

Lemma deliver_frame (roomID : string) (message : Message) (h h' : Hub) (id : N) :
  deliver roomID message h id = Ok h' →
  clients h' = clients h ∧ roomsShrink h h' ∧ objectsStay h h'.
Proof.
  unfold deliver. destruct (objects h !! id) as [client|] eqn:Hobj; [|done].
  destruct (closed client) eqn:Hclosed; [done|].
  destruct (decide (length (Send client) < sendCapacity)%nat);
    intros [= <-]; (split; [done|]); split.
  - intros r ms Hr. exists ms. by split.
  - intros x c Hx. unfold setObject. cbn [objects].
    destruct (decide (x = id)) as [->|Hne].
    + rewrite lookup_insert_eq. eexists. split; [done|].
      rewrite Hobj in Hx. injection Hx as <-. cbn. by rewrite Hclosed.
    + rewrite lookup_insert_ne by done. by exists c.
  - intros r ms'. unfold setRooms, setObject. cbn [rooms].
    destruct (decide (r = roomID)) as [->|Hne].
    + rewrite lookup_alter_eq. destruct (rooms h !! roomID) as [ms|]; [|done].
      intros [= <-]. exists ms. split; [done|].
      intros y Hy. by apply elem_of_difference in Hy as [? _].
    + rewrite lookup_alter_ne by done. intros Hr. exists ms'. by split.
  - intros x c Hx. unfold setRooms, setObject. cbn [objects].
    destruct (decide (x = id)) as [->|Hne].
    + rewrite lookup_insert_eq. eexists. split; [done|].
      rewrite Hobj in Hx. by injection Hx as <-.
    + rewrite lookup_insert_ne by done. by exists c.
Qed.

Lemma roomsShrink_trans (h1 h2 h3 : Hub) :
  roomsShrink h1 h2 → roomsShrink h2 h3 → roomsShrink h1 h3.
Proof.
  intros H12 H23 r ms3 Hr3.
  destruct (H23 _ _ Hr3) as (ms2 & Hr2 & Hsub2).
  destruct (H12 _ _ Hr2) as (ms1 & Hr1 & Hsub1).
  exists ms1. split; [done|]. set_solver.
Qed.

Lemma objectsStay_trans (h1 h2 h3 : Hub) :
  objectsStay h1 h2 → objectsStay h2 h3 → objectsStay h1 h3.
Proof.
  intros H12 H23 id c1 Hc1.
  destruct (H12 _ _ Hc1) as (c2 & Hc2 & Hu2 & Hr2 & Hcl2).
  destruct (H23 _ _ Hc2) as (c3 & Hc3 & Hu3 & Hr3 & Hcl3).
  exists c3. split; [done|]. split; [congruence|]. split; [congruence|]. auto.
Qed.

Lemma deliverAll_frame (roomID : string) (message : Message) (ids : list N) :
  ∀ h h',
    deliverAll roomID message h ids = Ok h' →
    clients h' = clients h ∧ roomsShrink h h' ∧ objectsStay h h'.
Proof.
  induction ids as [|id rest IH]; intros h h'; cbn [deliverAll].
  { intros [= <-]. split; [done|]. split.
    - intros r ms Hr. exists ms. by split.
    - intros x c Hx. by exists c. }
  destruct (deliver roomID message h id) as [h1|] eqn:Hdeliver; cbn [rbind]; [|done].
  intros Hrest.
  destruct (deliver_frame _ _ _ _ _ Hdeliver) as (Hc1 & Hr1 & Ho1).
  destruct (IH _ _ Hrest) as (Hc2 & Hr2 & Ho2).
  split; [congruence|]. split; [by eapply roomsShrink_trans|by eapply objectsStay_trans].
Qed.

Lemma broadcastToRoom_frame (h h' : Hub) (roomID : string) (message : Message) :
  broadcastToRoom h roomID message = Ok h' →
  clients h' = clients h ∧ roomsShrink h h' ∧ objectsStay h h'.
Proof.
  unfold broadcastToRoom. destruct (rooms h !! roomID) as [members|].
  - apply deliverAll_frame.
  - intros [= <-]. split; [done|]. split.
    + intros r ms Hr. exists ms. by split.
    + intros x c Hx. by exists c.
Qed.

Lemma backPointers_frame (h h' : Hub) :
  roomsShrink h h' → objectsStay h h' → backPointers h → backPointers h'.
Proof.
  intros Hrooms Hobjects Hback r ms' id Hr Hin.
  destruct (Hrooms _ _ Hr) as (ms & Hr0 & Hsub).
  destruct (Hback r ms id Hr0) as (c & Hc & Hroom); [set_solver|].
  destruct (Hobjects _ _ Hc) as (c' & Hc' & _ & Hsame & _).
  exists c'. split; [done|]. by rewrite Hsame.
Qed.

(** *** A closed channel *)

Lemma deliverAll_closed (roomID : string) (message : Message) (id : N) (ids : list N) :
  ∀ h client,
    id ∈ ids → objects h !! id = Some client → closed client = true →
    ∃ msg, deliverAll roomID message h ids = Panic msg.
Proof.
  induction ids as [|x rest IH]; intros h client Hin Hobj Hclosed.
  { by apply elem_of_nil in Hin. }
  cbn [deliverAll].
  destruct (deliver roomID message h x) as [h1|msg] eqn:Hdeliver; cbn [rbind];
    [|by exists msg].
  destruct (decide (x = id)) as [->|Hne].
  { unfold deliver in Hdeliver. by rewrite Hobj, Hclosed in Hdeliver. }
  apply elem_of_cons in Hin as [->|Hin]; [done|].
  destruct (deliver_frame _ _ _ _ _ Hdeliver) as (_ & _ & Hstay).
  destruct (Hstay _ _ Hobj) as (client' & Hobj' & _ & _ & Hclosed').
  by apply (IH h1 client'); [| |apply Hclosed'].
Qed.

Lemma removeClientFromRoom_closed (h h' : Hub) (id x : N) (roomID : string)
    (client : Client) :
  removeClientFromRoom h id roomID = Ok h' →
  objects h !! x = Some client → closed client = true →
  ∃ client', objects h' !! x = Some client' ∧ closed client' = true.
Proof.
  intros Hdone Hobj Hclosed. revert Hdone. unfold removeClientFromRoom.
  destruct (objects h !! id) as [leaver|] eqn:Hleaver; [|done].
  destruct (rooms h !! roomID) as [members|]; [|intros [= <-]; by exists client].
  cbn zeta.
  match goal with
  | |- context [broadcastToRoom ?h1 roomID ?m] =>
      destruct (broadcastToRoom h1 roomID m) as [h2|] eqn:Hcast; cbn [rbind]; [|done];
      assert (∃ c1, objects h1 !! x = Some c1 ∧ closed c1 = true) as (c1 & Hc1 & Hcl1)
  end.
  { unfold setObject, setRooms. cbn [objects].
    destruct (decide (x = id)) as [->|Hne].
    - rewrite lookup_insert_eq. eexists. split; [done|].
      rewrite Hleaver in Hobj. by injection Hobj as ->.
    - rewrite lookup_insert_ne by done. by exists client. }
  intros Hdone.
  destruct (broadcastToRoom_frame _ _ _ _ Hcast) as (_ & _ & Hstay).
  destruct (Hstay _ _ Hc1) as (c2 & Hc2 & _ & _ & Hcl2).
  exists c2. split; [|auto].
  by case_match; injection Hdone as <-.
Qed.

Lemma removeFromRooms_closed (id x : N) (roomIDs : list string) :
  ∀ h h' client,
    removeFromRooms h id roomIDs = Ok h' →
    objects h !! x = Some client → closed client = true →
    ∃ client', objects h' !! x = Some client' ∧ closed client' = true.
Proof.
  induction roomIDs as [|roomID rest IH]; intros h h' client; cbn [removeFromRooms].
  { intros [= <-] Hobj Hclosed. by exists client. }
  destruct (removeClientFromRoom h id roomID) as [h1|] eqn:Hremove; cbn [rbind]; [|done].
  intros Hrest Hobj Hclosed.
  destruct (removeClientFromRoom_closed _ _ _ _ _ _ Hremove Hobj Hclosed)
    as (c1 & Hc1 & Hcl1).
  by apply (IH h1 h' c1).
Qed.

(** X28.  A client whose channel a room broadcast has closed brings the
    hub down the next time its channel is used: a broadcast to any room it
    is still a member of panics (send on closed channel), and so do, while
    it is in the registry of clients, [SendToClient] to it and its
    unregistration (close of closed channel), which its read pump
    requests when the connection ends. *)
Theorem evicted_client_crashes_the_hub (h : Hub) (id : N) (client : Client) :
  objects h !! id = Some client → closed client = true →
  (∀ roomID members message,
     rooms h !! roomID = Some members → id ∈ members →
     ∃ msg, BroadcastToRoom h roomID message = Panic msg)
  ∧ (id ∈ clients h →
     (∃ msg, unregisterClient h id = Panic msg)
     ∧ ∀ message, ∃ msg, SendToClient h id message = Panic msg).
Proof.
  intros Hobj Hclosed. split.
  { intros roomID members message Hroom Hin.
    unfold BroadcastToRoom, broadcastToRoom. rewrite Hroom.
    apply (deliverAll_closed roomID message id (elements members) h client);
      [by apply elem_of_elements|done|done]. }
  intros Hregistered. split.
  - unfold unregisterClient. rewrite bool_decide_eq_true_2 by done. rewrite Hobj.
    destruct (removeFromRooms h id (elements (Rooms client))) as [h1|msg] eqn:Hloop;
      cbn [rbind]; [|by exists msg].
    destruct (removeFromRooms_closed _ _ _ _ _ _ Hloop Hobj Hclosed) as (c1 & -> & ->).
    by eexists.
  - intros message. unfold SendToClient. rewrite bool_decide_eq_true_2 by done.
    rewrite Hobj, Hclosed. by eexists.
Qed.

Lemma evicted_client_crashes_the_hub_witness :
  ∃ h,
    run NewHub twoRooms = Ok h
    ∧ (∃ msg, BroadcastToRoom h "game-2" chat = Panic msg)
    ∧ (∃ msg, unregisterClient h 1%N = Panic msg).
Proof.
  assert (∃ h client,
            run NewHub twoRooms = Ok h
            ∧ objects h !! 1%N = Some client ∧ closed client = true
            ∧ rooms h !! "game-2" = Some {[1%N]}
            ∧ bool_decide (1%N ∈ clients h) = true)
    as (h & client & Hrun & Hobj & Hclosed & Hroom & Hregistered).
  { eexists _, _. split; [by vm_compute|]. split; [by vm_compute|].
    split; [by vm_compute|]. split; by vm_compute. }
  exists h. split; [done|].
  destruct (evicted_client_crashes_the_hub h 1%N client Hobj Hclosed) as [Hcast Hgone].
  split.
  - apply (Hcast "game-2" {[1%N]} chat Hroom). by apply elem_of_singleton.
  - apply Hgone. by apply bool_decide_eq_true in Hregistered.
Defined.

(** *** The members of the rooms *)

Lemma removeClientFromRoom_spec (h h' : Hub) (id : N) (roomID : string) :
  backPointers h →
  removeClientFromRoom h id roomID = Ok h' →
  backPointers h'
  ∧ roomsShrink h h'
  ∧ clients h' = clients h
  ∧ (∀ members, rooms h' !! roomID = Some members → id ∉ members)
  ∧ (∀ client, objects h !! id = Some client →
               ∃ client', objects h' !! id = Some client'
                          ∧ Rooms client' ⊆ Rooms client
                          ∧ (rooms h !! roomID ≠ None → roomID ∉ Rooms client')).
Proof.
  intros Hback. unfold removeClientFromRoom.
  destruct (objects h !! id) as [leaver|] eqn:Hleaver; [|done].
  destruct (rooms h !! roomID) as [members|] eqn:Hroom.
  2:{ intros [= <-]. split; [done|]. split.
      { intros r ms Hr. exists ms. by split. }
      split; [done|]. split; [intros ms Hr; congruence|].
      intros client [= <-]. exists leaver. split; [done|]. split; [done|]. done. }
  cbn zeta.
  set (h1 := setObject (setRooms h (<[roomID := members ∖ {[id]}]> (rooms h))) id
               {| UserID := UserID leaver; Send := Send leaver;
                  closed := closed leaver; Rooms := Rooms leaver ∖ {[roomID]} |}).
  assert (backPointers h1) as Hback1.
  { intros r ms x. unfold h1, setObject, setRooms. cbn [rooms objects].
    destruct (decide (r = roomID)) as [->|Hr].
    - rewrite lookup_insert_eq. intros [= <-] Hx.
      apply elem_of_difference in Hx as [Hx Hxid].
      rewrite lookup_insert_ne by (intros <-; apply Hxid; by apply elem_of_singleton).
      by apply (Hback roomID members x).
    - rewrite lookup_insert_ne by done. intros Hms Hx.
      destruct (Hback r ms x Hms Hx) as (c & Hc & Hin).
      destruct (decide (x = id)) as [->|Hxid].
      + rewrite lookup_insert_eq. eexists. split; [done|]. cbn [Rooms].
        rewrite Hleaver in Hc. injection Hc as <-.
        apply elem_of_difference. split; [done|].
        intros Heq. apply elem_of_singleton in Heq. done.
      + rewrite lookup_insert_ne by done. by exists c. }
  assert (roomsShrink h h1) as Hshrink1.
  { intros r ms. unfold h1, setObject, setRooms. cbn [rooms].
    destruct (decide (r = roomID)) as [->|Hr].
    - rewrite lookup_insert_eq. intros [= <-]. exists members. split; [done|].
      intros y Hy. by apply elem_of_difference in Hy as [? _].
    - rewrite lookup_insert_ne by done. intros Hms. exists ms. by split. }
  assert (rooms h1 !! roomID = Some (members ∖ {[id]})) as Hroom1.
  { unfold h1, setObject, setRooms. cbn [rooms]. by rewrite lookup_insert_eq. }
  assert (objects h1 !! id
          = Some {| UserID := UserID leaver; Send := Send leaver;
                    closed := closed leaver; Rooms := Rooms leaver ∖ {[roomID]} |}) as Hobj1.
  { unfold h1, setObject. cbn [objects]. by rewrite lookup_insert_eq. }
  destruct (broadcastToRoom h1 roomID _) as [h2|] eqn:Hcast; cbn [rbind]; [|done].
  destruct (broadcastToRoom_frame _ _ _ _ Hcast) as (Hclients2 & Hshrink2 & Hstay2).
  pose proof (backPointers_frame _ _ Hshrink2 Hstay2 Hback1) as Hback2.
  assert (∀ ms, rooms h2 !! roomID = Some ms → id ∉ ms) as Hgone2.
  { intros ms Hms. destruct (Hshrink2 _ _ Hms) as (ms1 & Hms1 & Hsub).
    rewrite Hroom1 in Hms1. injection Hms1 as <-.
    intros Hin. apply Hsub, elem_of_difference in Hin as [_ Hin].
    apply Hin. by apply elem_of_singleton. }
  destruct (Hstay2 _ _ Hobj1) as (c2 & Hc2 & _ & Hrooms2 & _).
  cbn [Rooms] in Hrooms2.
  assert (∀ client, Some leaver = Some client →
            ∃ client', objects h2 !! id = Some client'
                       ∧ Rooms client' ⊆ Rooms client
                       ∧ (Some members ≠ None → roomID ∉ Rooms client')) as Hleft.
  { intros client [= <-]. exists c2. split; [done|]. rewrite Hrooms2. split.
    - intros y Hy. by apply elem_of_difference in Hy as [? _].
    - intros _ Hin. apply elem_of_difference in Hin as [_ Hin].
      apply Hin. by apply elem_of_singleton. }
  case_match; intros [= <-].
  - split.
    { intros r ms x. unfold setRooms. cbn [rooms objects]. intros Hms Hx.
      apply lookup_delete_Some in Hms as [_ Hms]. by apply (Hback2 r ms x). }
    split.
    { apply (roomsShrink_trans _ h2); [by eapply roomsShrink_trans|].
      intros r ms. unfold setRooms. cbn [rooms]. intros Hms.
      apply lookup_delete_Some in Hms as [_ Hms]. exists ms. by split. }
    split; [done|]. split; [|done].
    intros ms. unfold setRooms. cbn [rooms]. by rewrite lookup_delete_eq.
  - split; [done|]. split; [by eapply roomsShrink_trans|].
    split; [done|]. split; done.
Qed.

Lemma removeFromRooms_spec (id : N) (roomIDs : list string) :
  ∀ h h',
    backPointers h →
    removeFromRooms h id roomIDs = Ok h' →
    backPointers h'
    ∧ roomsShrink h h'
    ∧ clients h' = clients h
    ∧ (∀ roomID members,
         roomID ∈ roomIDs → rooms h' !! roomID = Some members → id ∉ members)
    ∧ (∀ client, objects h !! id = Some client →
                 ∃ client', objects h' !! id = Some client').
Proof.
  induction roomIDs as [|roomID rest IH]; intros h h' Hback; cbn [removeFromRooms].
  { intros [= <-]. split; [done|]. split.
    { intros r ms Hr. exists ms. by split. }
    split; [done|]. split.
    - intros r ms Hin. by apply elem_of_nil in Hin.
    - intros client Hc. by exists client. }
  destruct (removeClientFromRoom h id roomID) as [h1|] eqn:Hremove; cbn [rbind]; [|done].
  intros Hrest.
  destruct (removeClientFromRoom_spec _ _ _ _ Hback Hremove)
    as (Hback1 & Hshrink1 & Hclients1 & Hgone1 & Hobj1).
  destruct (IH _ _ Hback1 Hrest) as (Hback' & Hshrink' & Hclients' & Hgone' & Hobj').
  split; [done|]. split; [by eapply roomsShrink_trans|]. split; [congruence|]. split.
  - intros r ms Hin Hms. apply elem_of_cons in Hin as [->|Hin]; [|by eapply Hgone'].
    destruct (Hshrink' _ _ Hms) as (ms1 & Hms1 & Hsub).
    intros Hx. by apply (Hgone1 ms1 Hms1), Hsub.
  - intros client Hc. destruct (Hobj1 _ Hc) as (c1 & Hc1 & _). by apply (Hobj' c1).
Qed.

Lemma unregisterClient_spec (h h' : Hub) (id : N) :
  backPointers h → id ∈ clients h →
  unregisterClient h id = Ok h' →
  backPointers h'
  ∧ clients h' = clients h ∖ {[id]}
  ∧ roomsShrink h h'
  ∧ (∀ roomID members, rooms h' !! roomID = Some members → id ∉ members)
  ∧ ∃ client', objects h' !! id = Some client' ∧ closed client' = true.
Proof.
  intros Hback Hregistered. unfold unregisterClient.
  rewrite bool_decide_eq_true_2 by done.
  destruct (objects h !! id) as [client|] eqn:Hobj; [|done].
  destruct (removeFromRooms h id (elements (Rooms client))) as [h1|] eqn:Hloop;
    cbn [rbind]; [|done].
  destruct (removeFromRooms_spec _ _ _ _ Hback Hloop)
    as (Hback1 & Hshrink1 & Hclients1 & Hgone1 & Hobj1).
  destruct (objects h1 !! id) as [client1|] eqn:Hobj'; [|done].
  destruct (closed client1) eqn:Hclosed1; [done|].
  intros [= <-]. cbn [objects clients rooms]. split.
  { intros r ms x Hms Hx. cbn [objects rooms] in Hms |- *.
    destruct (Hback1 r ms x Hms Hx) as (c & Hc & Hin).
    destruct (decide (x = id)) as [->|Hne].
    - rewrite lookup_insert_eq. eexists. split; [done|]. cbn [Rooms]. congruence.
    - rewrite lookup_insert_ne by done. by exists c. }
  split; [by rewrite Hclients1|]. split; [done|]. split.
  - intros r ms Hms Hx.
    destruct (decide (r ∈ Rooms client)) as [Hin|Hout].
    + apply (Hgone1 r ms); [by apply elem_of_elements|done|done].
    + destruct (Hshrink1 _ _ Hms) as (ms0 & Hms0 & Hsub).
      destruct (Hback r ms0 id Hms0) as (c & Hc & Hback0); [by apply Hsub|].
      rewrite Hobj in Hc. by injection Hc as <-.
  - rewrite lookup_insert_eq. by eexists.
Qed.

(** X29.  Unregistering a registered client, when it returns, takes the
    client out of the registry and out of every room (given that every
    member of a room lists the room, which the hub maintains), closes its
    channel, and adds no member to any room. *)
Theorem unregisterClient_leaves_every_room (h h' : Hub) (id : N) :
  backPointers h → id ∈ clients h →
  unregisterClient h id = Ok h' →
  (id ∉ clients h')
  ∧ (∀ roomID members, rooms h' !! roomID = Some members → id ∉ members)
  ∧ roomsShrink h h'
  ∧ ∃ client', objects h' !! id = Some client' ∧ closed client' = true.
Proof.
  intros Hback Hregistered Hdone.
  destruct (unregisterClient_spec _ _ _ Hback Hregistered Hdone)
    as (_ & Hclients & Hshrink & Hgone & Hclosed).
  split; [|done].
  rewrite Hclients. intros Hin. apply elem_of_difference in Hin as [_ Hin].
  apply Hin. by apply elem_of_singleton.
Qed.

Lemma dispatch_backPointers (h h' : Hub) (e : Event) :
  backPointers h → dispatch h e = Ok h' → backPointers h'.
Proof.
  intros Hback. destruct e as [id userID|id|id roomID|id roomID|roomID message];
    cbn [dispatch].
  - intros [= <-]. unfold registerClient.
    destruct (objects h !! id) as [c|] eqn:Hobj; [done|].
    intros r ms x. cbn [rooms objects]. intros Hms Hx.
    destruct (Hback r ms x Hms Hx) as (c & Hc & Hin).
    rewrite lookup_insert_ne by (intros <-; congruence). by exists c.
  - destruct (decide (id ∈ clients h)) as [Hin|Hout].
    + intros Hdone. by destruct (unregisterClient_spec _ _ _ Hback Hin Hdone).
    + unfold unregisterClient. rewrite bool_decide_eq_false_2 by done. by intros [= <-].
  - unfold JoinRoom. case_bool_decide; [|cbn [rbind]; by intros [= <-]].
    destruct (objects h !! id) as [client|] eqn:Hobj; [|done]. cbn zeta.
    destruct (broadcastToRoom _ roomID _) as [h2|] eqn:Hcast; cbn [rbind]; [|done].
    intros [= <-].
    destruct (broadcastToRoom_frame _ _ _ _ Hcast) as (_ & Hshrink & Hstay).
    apply (backPointers_frame _ _ Hshrink Hstay).
    intros r ms x. unfold setObject, setRooms. cbn [rooms objects].
    destruct (decide (x = id)) as [->|Hx].
    + rewrite lookup_insert_eq. intros Hms Hin. eexists. split; [done|]. cbn [Rooms].
      destruct (decide (r = roomID)) as [->|Hr].
      * apply elem_of_union. left. by apply elem_of_singleton.
      * rewrite lookup_insert_ne in Hms by done.
        destruct (Hback r ms id Hms Hin) as (c & Hc & Hroom).
        rewrite Hobj in Hc. injection Hc as <-. apply elem_of_union. by right.
    + rewrite (lookup_insert_ne (objects h)) by done.
      destruct (decide (r = roomID)) as [->|Hr].
      * rewrite lookup_insert_eq. intros [= <-] Hin.
        apply elem_of_union in Hin as [Hin|Hin].
        { apply elem_of_singleton in Hin. done. }
        destruct (rooms h !! roomID) as [ms0|] eqn:Hroom; cbn in Hin.
        -- by apply (Hback roomID ms0 x).
        -- by apply elem_of_empty in Hin.
      * rewrite lookup_insert_ne by done. apply Hback.
  - unfold LeaveRoom. case_bool_decide; [|cbn [rbind]; by intros [= <-]].
    destruct (removeClientFromRoom h id roomID) as [h1|] eqn:Hremove; cbn [rbind]; [|done].
    intros [= <-]. by destruct (removeClientFromRoom_spec _ _ _ _ Hback Hremove).
  - unfold BroadcastToRoom. intros Hcast.
    destruct (broadcastToRoom_frame _ _ _ _ Hcast) as (_ & Hshrink & Hstay).
    by apply (backPointers_frame _ _ Hshrink Hstay).
Qed.

Lemma backPointers_new : backPointers NewHub.
Proof. intros r ms x Hms. unfold NewHub in Hms. cbn [rooms] in Hms. by rewrite lookup_empty in Hms. Qed.

Lemma run_backPointers (events : list Event) :
  ∀ h0 h, backPointers h0 → run h0 events = Ok h → backPointers h.
Proof.
  induction events as [|e rest IH]; intros h0 h Hback; cbn [run].
  - by intros [= <-].
  - destruct (dispatch h0 e) as [h1|] eqn:Hstep; cbn [rbind]; [|done].
    apply IH. by eapply dispatch_backPointers.
Qed.

Lemma GetRoomClients_ok (h : Hub) (roomID : string) :
  backPointers h →
  ∃ users,
    GetRoomClients h roomID = Ok users
    ∧ ∀ members, rooms h !! roomID = Some members → length users = size members.
Proof.
  intros Hback. unfold GetRoomClients.
  destruct (rooms h !! roomID) as [members|] eqn:Hroom; [|by exists []].
  assert (∀ id, id ∈ elements members → ∃ client, objects h !! id = Some client) as Hobj.
  { intros id Hin. apply elem_of_elements in Hin.
    destruct (Hback roomID members id Hroom Hin) as (client & Hclient & _).
    by exists client. }
  assert (∀ members', Some members = Some members' →
                      length (elements members) = size members') as Hsize
    by (by intros members' [= <-]).
  revert Hobj Hsize. generalize (elements members). intros ids Hobj Hsize.
  assert (∃ users,
            foldr (fun id rest =>
                     clients <~ rest ;;
                     match objects h !! id with
                     | None => Panic "nil pointer dereference"
                     | Some client => Ok (UserID client :: clients)
                     end) (Ok []) ids = Ok users
            ∧ length users = length ids) as (users & Husers & Hlen).
  { clear Hsize. induction ids as [|id rest IH]; [by exists []|].
    destruct IH as (users & Husers & Hlen); [intros x Hx; apply Hobj; by right|].
    destruct (Hobj id) as (client & Hclient); [by left|].
    exists (UserID client :: users). cbn [foldr]. rewrite Husers. cbn [rbind].
    rewrite Hclient. split; [done|]. cbn [length]. by rewrite Hlen. }
  exists users. split; [done|]. intros members' Heq. rewrite Hlen. by apply Hsize.
Qed.

(** X30.  In every state the hub reaches from the empty one, by any
    sequence of registrations, unregistrations, joins, leaves and room
    broadcasts that does not panic, every member of a room is a client
    object that lists the room among its own; so [GetRoomClients] returns
    for every room, with one user identifier for each member. *)
Theorem hub_members_list_their_rooms (events : list Event) (h : Hub) :
  run NewHub events = Ok h →
  backPointers h
  ∧ ∀ roomID,
      ∃ users,
        GetRoomClients h roomID = Ok users
        ∧ ∀ members, rooms h !! roomID = Some members → length users = size members.
Proof.
  intros Hrun. pose proof (run_backPointers _ _ _ backPointers_new Hrun) as Hback.
  split; [done|]. intros roomID. by apply GetRoomClients_ok.
Qed.

Lemma hub_members_list_their_rooms_witness :
  ∃ h, run NewHub slowClient = Ok h ∧ backPointers h.
Proof.
  assert (∃ h, run NewHub slowClient = Ok h) as [h Hrun]
    by (eexists; by vm_compute).
  exists h. split; [done|]. by destruct (hub_members_list_their_rooms slowClient h Hrun).
Defined.

Lemma unregisterClient_leaves_every_room_witness :
  ∃ h h',
    run NewHub [Register 1%N 7%N; Join 1%N "game-1"; Join 1%N "game-2"] = Ok h
    ∧ unregisterClient h 1%N = Ok h'
    ∧ (∀ roomID members, rooms h' !! roomID = Some members → 1%N ∉ members).
Proof.
  assert (∃ h h',
            run NewHub [Register 1%N 7%N; Join 1%N "game-1"; Join 1%N "game-2"] = Ok h
            ∧ unregisterClient h 1%N = Ok h'
            ∧ bool_decide (1%N ∈ clients h) = true)
    as (h & h' & Hrun & Hdone & Hregistered).
  { eexists _, _. split; [by vm_compute|]. split; by vm_compute. }
  exists h, h'. split; [done|]. split; [done|].
  pose proof (run_backPointers _ _ _ backPointers_new Hrun) as Hback.
  apply (unregisterClient_leaves_every_room h h' 1%N Hback);
    [by apply bool_decide_eq_true in Hregistered|done].
Defined.

End HubFacts.
